(** * KnoxProject: the recommendation engine of [Backend/models.py]

    A shallow embedding of the recommendation logic of the Django backend:
    the two text helpers of [Profile] ([get_interests_list],
    [get_bio_keywords]) and the static and class methods of
    [RecommendationService].

    Modelling conventions.
    - The database is an explicit [Store.t]: one list of rows per Django
      model, in table order.  A queryset is the list of rows it evaluates to.
    - Python [int] is [Z]; [len] and [count] results are converted with
      [Z.of_nat].  Python [float] is the kernel's binary64 [float], so every
      score below is computed with the rounding the interpreter performs.
    - Python [str] is [string]; the character model is ASCII (code points
      below 128), which is where [lower], [strip] and [\w] are spelled out.
    - Python [set] is stdpp's [gset].
    - Exceptions are values of [result]; functions that write the cache
      return the new store next to their result.
    - Every reading of the clock is a parameter of the call that makes it,
      in microseconds: [now] is the reading of the staleness test, and
      [stamps i] is the pair of readings that [bulk_create] takes for its
      [i]-th row, one for [created_at] ([auto_now_add]) and one for
      [updated_at] ([auto_now]).  No relation between the readings is built
      in; a theorem that needs the clock not to run backwards says so. *)

From Stdlib Require Import Floats ZArith QArith Qabs Ascii.
From stdpp Require Import gmap strings list pretty.

Set Warnings "-inexact-float,-clear-no-such-hyp".

#[local] Open Scope string_scope.
#[local] Open Scope list_scope.
#[local] Open Scope Z_scope.

(** ** Exceptions *)

Inductive PyExc : Type :=
| ZeroDivisionError
| NegativeIndexingError   (* Django: Negative indexing is not supported. *)
| AttributeError.

Inductive result (A : Type) : Type :=
| Ok (a : A)
| Raise (e : PyExc).
Arguments Ok {A} a.
Arguments Raise {A} e.

#[global] Instance result_ret : MRet result := fun A a => Ok a.

#[global] Instance result_bind : MBind result := fun A B k m =>
  match m with
  | Ok a => k a
  | Raise e => Raise e
  end.

#[global] Instance result_fmap : FMap result := fun A B f m =>
  match m with
  | Ok a => Ok (f a)
  | Raise e => Raise e
  end.

(** ** Python built-ins used by the service *)

Module Py.

(** [float(n)] for an [int]; exact for |n| < 2^53, which bounds every count
    a table can produce. *)
Definition float_of_int (n : Z) : float :=
  if n <? 0 then PrimFloat.opp (PrimFloat.of_uint63 (Uint63.of_Z (- n)))
  else PrimFloat.of_uint63 (Uint63.of_Z n).

(** [n / x] with an [int] numerator and a [float] denominator. *)
Definition int_div_float (n : Z) (x : float) : float :=
  PrimFloat.div (float_of_int n) x.

(** [a / b] on two [int]s (true division). *)
Definition truediv (a b : Z) : result float :=
  if b =? 0 then Raise ZeroDivisionError
  else Ok (PrimFloat.div (float_of_int a) (float_of_int b)).

(** [min(a, b)]: the second argument wins only when it is strictly smaller. *)
Definition min (a b : float) : float :=
  if PrimFloat.ltb b a then b else a.

(** [a >= b] on floats. *)
Definition ge (a b : float) : bool := PrimFloat.leb b a.

(** [str(n)] as the f-strings use it. *)
Definition str_of_int (n : Z) : string := pretty n.

(** [len(s)] of a set, and [not s]. *)
Definition len_set `{Countable A} (s : gset A) : Z := Z.of_nat (size s).
Definition not_set `{Countable A} (s : gset A) : bool := bool_decide (s = ∅).

(** [l[:n]] on a list: a negative bound counts from the end. *)
Definition slice_to {A : Type} (l : list A) (n : Z) : list A :=
  if 0 <=? n then take (Z.to_nat n) l
  else take (length l - Z.to_nat (- n))%nat l.

(** Character classes, [lower] and [strip] on ASCII text (code points below
    128), where [str.isspace], [str.lower] and the regex class [\w] are
    what is written here.  On other text Python follows the Unicode tables,
    which this model does not have: a statement that depends on a character
    class is made for [ascii_text] below. *)
Definition code (c : ascii) : nat := nat_of_ascii c.

Definition is_upper (c : ascii) : bool :=
  (65 <=? code c)%nat && (code c <=? 90)%nat.

Definition is_lower (c : ascii) : bool :=
  (97 <=? code c)%nat && (code c <=? 122)%nat.

Definition is_digit (c : ascii) : bool :=
  (48 <=? code c)%nat && (code c <=? 57)%nat.

(** [str.isspace]: tab, newline, vertical tab, form feed, carriage return,
    the four separators 28..31 and the space. *)
Definition is_space (c : ascii) : bool :=
  ((9 <=? code c)%nat && (code c <=? 13)%nat)
  || ((28 <=? code c)%nat && (code c <=? 32)%nat).

(** The class [\w]: letters, digits and the underscore. *)
Definition is_word_char (c : ascii) : bool :=
  is_upper c || is_lower c || is_digit c || (code c =? 95)%nat.

Definition lower_char (c : ascii) : ascii :=
  if is_upper c then ascii_of_nat (code c + 32) else c.

(** [s.lower()] *)
Fixpoint lower (s : string) : string :=
  match s with
  | EmptyString => EmptyString
  | String c s' => String (lower_char c) (lower s')
  end.

Fixpoint lstrip (s : string) : string :=
  match s with
  | EmptyString => EmptyString
  | String c s' => if is_space c then lstrip s' else s
  end.

Fixpoint rstrip (s : string) : string :=
  match s with
  | EmptyString => EmptyString
  | String c s' =>
      match rstrip s' with
      | EmptyString => if is_space c then EmptyString else String c EmptyString
      | r => String c r
      end
  end.

(** [s.strip()] *)
Definition strip (s : string) : string := rstrip (lstrip s).

(** [s.split(sep)] for a one-character separator: always at least one
    piece, empty pieces kept. *)
Fixpoint split (sep : ascii) (s : string) : list string :=
  match s with
  | EmptyString => [EmptyString]
  | String c s' =>
      if Ascii.eqb c sep then EmptyString :: split sep s'
      else match split sep s' with
           | [] => [String c EmptyString]
           | w :: ws => String c w :: ws
           end
  end.

(** [sep.join(l)] *)
Fixpoint join (sep : string) (l : list string) : string :=
  match l with
  | [] => EmptyString
  | [w] => w
  | w :: ws => w +:+ sep +:+ join sep ws
  end.

(** [re.findall(r'\b\w+\b', s)]: scanning left to right, [cur] is the run
    of word characters read since the last non-word character. *)
Fixpoint findall_words_from (cur : string) (s : string) : list string :=
  match s with
  | EmptyString =>
      match cur with EmptyString => [] | _ => [cur] end
  | String c s' =>
      if is_word_char c then findall_words_from (cur +:+ String c EmptyString) s'
      else match cur with
           | EmptyString => findall_words_from EmptyString s'
           | _ => cur :: findall_words_from EmptyString s'
           end
  end.

Definition findall_words (s : string) : list string :=
  findall_words_from EmptyString s.

(** [l.sort(key=..., reverse=True)] and the ordering of a queryset: a stable
    sort.  [before y x] says that [y] must come strictly before [x]; an
    element is placed in front of the first element that need not precede
    it, so that equal elements keep their order. *)
Fixpoint insert_stable {A : Type} (before : A → A → bool) (x : A) (l : list A)
  : list A :=
  match l with
  | [] => [x]
  | y :: l' => if before y x then y :: insert_stable before x l' else x :: l
  end.

Definition stable_sort {A : Type} (before : A → A → bool) (l : list A) : list A :=
  foldr (insert_stable before) [] l.

End Py.

(** ** Models *)

Module Profile.

Record t : Type := mk {
  id : Z;
  bio : string;
  interests : string;
  show_in_recommendations : bool
}.

(** The stop words of [get_bio_keywords]. *)
Definition common_words : gset string :=
  list_to_set
    ["i"; "am"; "a"; "an"; "the"; "is"; "are"; "was"; "were"; "be"; "been"; "being";
     "have"; "has"; "had"; "do"; "does"; "did"; "will"; "would"; "could"; "should";
     "and"; "or"; "but"; "in"; "on"; "at"; "to"; "for"; "of"; "with"; "by";
     "love"; "like"; "enjoy"; "who"; "what"; "where"; "when"; "why"; "how"].

(** The body of the [for interest in ...] loop of [get_interests_list]. *)
Definition interests_step (interests_list : list string) (interest : string)
  : list string :=
  let cleaned_interest := Py.lower (Py.strip interest) in
  match cleaned_interest with
  | EmptyString => interests_list
  | _ => interests_list ++ [cleaned_interest]
  end.

Definition get_interests_list (self : t) : list string :=
  match interests self with
  | EmptyString => []
  | raw => foldl interests_step [] (Py.split "," raw)
  end.

(** The body of the [for word in words] loop of [get_bio_keywords]. *)
Definition keywords_step (meaningful_words : list string) (word : string)
  : list string :=
  if (2 <? Z.of_nat (String.length word)) && negb (bool_decide (word ∈ common_words))
  then meaningful_words ++ [word]
  else meaningful_words.

Definition get_bio_keywords (self : t) : list string :=
  match bio self with
  | EmptyString => []
  | raw =>
      let words := Py.findall_words (Py.lower raw) in
      foldl keywords_step [] words
  end.

End Profile.

Module Connection.
Record t : Type := mk { follower_id : Z; following_id : Z }.
End Connection.

Module Like.
Record t : Type := mk { user_id : Z; post_id : Z }.
End Like.

Module Comment.
Record t : Type := mk { user_id : Z; post_id : Z }.
End Comment.

(** Timestamps and durations in microseconds, the resolution of
    [datetime] and [timedelta]. *)
Definition timedelta_days (d : Z) : Z := d * 86400 * 1000000.

Module UserRecommendation.

Record t : Type := mk {
  user_id : Z;
  recommended_user_id : Z;
  score : float;
  mutual_connections_count : Z;
  common_interests_count : Z;
  reason : string;
  created_at : Z;
  updated_at : Z
}.

(** [Meta.ordering = ['-score', '-created_at']]: [x] sorts strictly before
    [y].  Rows that agree on both keys are left in table order, where the
    database fixes no order. *)
Definition before (x y : t) : bool :=
  PrimFloat.ltb (score y) (score x)
  || (PrimFloat.eqb (score x) (score y) && (created_at y <? created_at x)).

End UserRecommendation.

(** The tables the service reads and writes. *)
Module Store.

Record t : Type := mk {
  profiles : list Profile.t;
  connections : list Connection.t;
  likes : list Like.t;
  comments : list Comment.t;
  recommendations : list UserRecommendation.t
}.

Definition with_recommendations (st : t) (rows : list UserRecommendation.t) : t :=
  mk (profiles st) (connections st) (likes st) (comments st) rows.

(** [Connection.objects.filter(follower=p).values_list('following_id', flat=True)] *)
Definition following_ids (st : t) (p : Profile.t) : list Z :=
  Connection.following_id <$>
    filter (λ c, Connection.follower_id c = Profile.id p) (connections st).

(** [Like.objects.filter(user=p).values_list('post_id', flat=True)] *)
Definition liked_post_ids (st : t) (p : Profile.t) : list Z :=
  Like.post_id <$> filter (λ l, Like.user_id l = Profile.id p) (likes st).

(** [Comment.objects.filter(user=p).values_list('post_id', flat=True)] *)
Definition commented_post_ids (st : t) (p : Profile.t) : list Z :=
  Comment.post_id <$> filter (λ c, Comment.user_id c = Profile.id p) (comments st).

(** [Profile.objects.filter(id__in=ids)] *)
Definition profiles_with_id_in (st : t) (ids : gset Z) : list Profile.t :=
  filter (λ p, Profile.id p ∈ ids) (profiles st).

(** [UserRecommendation.objects.filter(user=p)], in the model's ordering. *)
Definition recommendations_of (st : t) (p : Profile.t) : list UserRecommendation.t :=
  Py.stable_sort UserRecommendation.before
    (filter (λ r, UserRecommendation.user_id r = Profile.id p) (recommendations st)).

(** [UserRecommendation.objects.filter(user=p).delete()] *)
Definition delete_recommendations_of (st : t) (p : Profile.t) : t :=
  with_recommendations st
    (filter (λ r, UserRecommendation.user_id r ≠ Profile.id p) (recommendations st)).

(** [UserRecommendation.objects.bulk_create(objs)].  An unsaved object is a
    row that waits for its two time stamps: the insert evaluates [pre_save]
    of [created_at] and of [updated_at] for every object in turn, and each
    reads the clock; [stamps i] is the pair read for the [i]-th object.
    The rows are appended in the order given.

    The insert is modelled where it succeeds.  The database refuses a row
    that repeats a pair (user, recommended_user) ([unique_together]) or
    names a profile that is not stored (the foreign keys) with an
    [IntegrityError]; the service inserts what it has generated, which are
    rows of distinct stored profiles as long as the primary keys of the
    profiles are distinct. *)
Definition bulk_create (st : t) (stamps : nat → Z * Z)
    (objs : list (Z → Z → UserRecommendation.t)) : t :=
  with_recommendations st
    (recommendations st ++ imap (λ i obj, obj (stamps i).1 (stamps i).2) objs).

(** [qs[:n]] on a queryset: a negative bound is refused. *)
Definition slice_to {A : Type} (qs : list A) (n : Z) : result (list A) :=
  if n <? 0 then Raise NegativeIndexingError else Ok (take (Z.to_nat n) qs).

(** [qs.exists()] and [qs.first()] *)
Definition exists_ {A : Type} (qs : list A) : bool :=
  match qs with [] => false | _ => true end.

Definition first {A : Type} (qs : list A) : option A := head qs.

End Store.

(** The dictionary returned by [calculate_recommendation_score]. *)
Module ScoreData.
Record t : Type := mk {
  total_score : float;
  mutual_connections_count : Z;
  common_interests_count : Z;
  activity_similarity : Z;
  mutual_connections : list Profile.t
}.
End ScoreData.

(** The dictionaries built by [generate_recommendations_for_user]. *)
Module Recommendation.
Record t : Type := mk {
  user : Profile.t;
  recommended_user : Profile.t;
  score : float;
  mutual_connections_count : Z;
  common_interests_count : Z;
  reason : string;
  mutual_connections : list Profile.t
}.
End Recommendation.

(** ** The service *)

Module RecommendationService.

Definition get_mutual_connections (st : Store.t)
    (user_profile target_profile : Profile.t) : list Profile.t :=
  let user_following_ids : gset Z :=
    list_to_set (Store.following_ids st user_profile) in
  let target_following_ids : gset Z :=
    list_to_set (Store.following_ids st target_profile) in
  let mutual_following_ids := user_following_ids ∩ target_following_ids in
  Store.profiles_with_id_in st mutual_following_ids.

Definition calculate_interest_similarity
    (user_profile target_profile : Profile.t) : result (Z * float) :=
  let user_interests : gset string :=
    list_to_set (Profile.get_interests_list user_profile) in
  let target_interests : gset string :=
    list_to_set (Profile.get_interests_list target_profile) in
  let user_bio_keywords : gset string :=
    list_to_set (Profile.get_bio_keywords user_profile) in
  let target_bio_keywords : gset string :=
    list_to_set (Profile.get_bio_keywords target_profile) in
  let user_all_interests := user_interests ∪ user_bio_keywords in
  let target_all_interests := target_interests ∪ target_bio_keywords in
  if Py.not_set user_all_interests || Py.not_set target_all_interests
  then Ok (0, 0.0%float)
  else
    let common_interests := user_all_interests ∩ target_all_interests in
    let union_interests := user_all_interests ∪ target_all_interests in
    similarity_score ←
      (if negb (Py.not_set union_interests)
       then Py.truediv (Py.len_set common_interests) (Py.len_set union_interests)
       else Ok 0.0%float);
    Ok (Py.len_set common_interests, similarity_score).

Definition calculate_activity_similarity (st : Store.t)
    (user_profile target_profile : Profile.t) : Z :=
  let user_interactions : gset Z := ∅ in
  let user_interactions :=
    user_interactions ∪ list_to_set (Store.liked_post_ids st user_profile) in
  let user_interactions :=
    user_interactions ∪ list_to_set (Store.commented_post_ids st user_profile) in
  let target_interactions : gset Z := ∅ in
  let target_interactions :=
    target_interactions ∪ list_to_set (Store.liked_post_ids st target_profile) in
  let target_interactions :=
    target_interactions ∪ list_to_set (Store.commented_post_ids st target_profile) in
  if Py.not_set user_interactions || Py.not_set target_interactions
  then 0
  else
    let common_interactions := user_interactions ∩ target_interactions in
    Py.len_set common_interactions.

Definition mutual_weight : float := 0.4%float.
Definition interest_weight : float := 0.4%float.
Definition activity_weight : float := 0.2%float.

Definition calculate_recommendation_score (st : Store.t)
    (user_profile target_profile : Profile.t) : result ScoreData.t :=
  let mutual_connections := get_mutual_connections st user_profile target_profile in
  let mutual_count := Z.of_nat (length mutual_connections) in
  '(common_interests_count, interest_similarity) ←
    calculate_interest_similarity user_profile target_profile;
  let activity_similarity :=
    calculate_activity_similarity st user_profile target_profile in
  let mutual_score := Py.min (Py.int_div_float mutual_count 5.0%float) 1.0%float in
  let activity_score :=
    Py.min (Py.int_div_float activity_similarity 10.0%float) 1.0%float in
  let total_score :=
    (mutual_score * mutual_weight
     + interest_similarity * interest_weight
     + activity_score * activity_weight)%float in
  Ok (ScoreData.mk total_score mutual_count common_interests_count
        activity_similarity mutual_connections).

(** [f"{count} {noun}{'s' if count != 1 else ''}"] *)
Definition counted (count : Z) (noun : string) : string :=
  Py.str_of_int count +:+ " " +:+ noun +:+ (if bool_decide (count ≠ 1) then "s" else "").

Definition generate_recommendation_reason (score_data : ScoreData.t) : string :=
  let reasons : list string := [] in
  let reasons :=
    if 0 <? ScoreData.mutual_connections_count score_data
    then reasons ++ [counted (ScoreData.mutual_connections_count score_data)
                       "mutual connection"]
    else reasons in
  let reasons :=
    if 0 <? ScoreData.common_interests_count score_data
    then reasons ++ [counted (ScoreData.common_interests_count score_data)
                       "common interest"]
    else reasons in
  let reasons :=
    if 0 <? ScoreData.activity_similarity score_data
    then reasons ++ ["similar activity patterns"]
    else reasons in
  match reasons with
  | [] => "Based on your network"
  | _ => "Based on " +:+ Py.join ", " reasons
  end.

(** The candidates of [generate_recommendations_for_user]: everybody who is
    not followed already, is not the user, and has not opted out. *)
Definition candidates (st : Store.t) (user_profile : Profile.t) : list Profile.t :=
  let current_connections : gset Z :=
    list_to_set (Store.following_ids st user_profile) in
  let current_connections := current_connections ∪ {[Profile.id user_profile]} in
  filter (λ p, Profile.show_in_recommendations p = true)
    (filter (λ p, Profile.id p ∉ current_connections) (Store.profiles st)).

(** The [for candidate in candidates] loop, with the list built so far. *)
Fixpoint score_candidates (st : Store.t) (user_profile : Profile.t)
    (min_score : float) (cands : list Profile.t)
    (recommendations : list Recommendation.t) : result (list Recommendation.t) :=
  match cands with
  | [] => Ok recommendations
  | candidate :: cands' =>
      score_data ← calculate_recommendation_score st user_profile candidate;
      if Py.ge (ScoreData.total_score score_data) min_score
      then
        let reason := generate_recommendation_reason score_data in
        let recommendation :=
          Recommendation.mk user_profile candidate
            (ScoreData.total_score score_data)
            (ScoreData.mutual_connections_count score_data)
            (ScoreData.common_interests_count score_data)
            reason
            (ScoreData.mutual_connections score_data) in
        score_candidates st user_profile min_score cands'
          (recommendations ++ [recommendation])
      else score_candidates st user_profile min_score cands' recommendations
  end.

(** [recommendations.sort(key=lambda x: x['score'], reverse=True)] *)
Definition sort_by_score (recommendations : list Recommendation.t)
  : list Recommendation.t :=
  Py.stable_sort
    (λ y x, PrimFloat.ltb (Recommendation.score x) (Recommendation.score y))
    recommendations.

Definition default_limit : Z := 10.
Definition default_min_score : float := 0.1%float.

Definition generate_recommendations_for_user (st : Store.t)
    (user_profile : Profile.t) (limit : Z) (min_score : float)
  : result (list Recommendation.t) :=
  recommendations ←
    score_candidates st user_profile min_score (candidates st user_profile) [];
  Ok (Py.slice_to (sort_by_score recommendations) limit).

(** [UserRecommendation(user=..., ..., reason=...)]: the object built for
    one recommendation; [created_at] and [updated_at] are filled in when it
    is saved. *)
Definition to_row (rec_data : Recommendation.t) (created_at updated_at : Z)
  : UserRecommendation.t :=
  UserRecommendation.mk
    (Profile.id (Recommendation.user rec_data))
    (Profile.id (Recommendation.recommended_user rec_data))
    (Recommendation.score rec_data)
    (Recommendation.mutual_connections_count rec_data)
    (Recommendation.common_interests_count rec_data)
    (Recommendation.reason rec_data)
    created_at updated_at.

Definition cache_recommendations (st : Store.t) (stamps : nat → Z * Z)
    (user_profile : Profile.t) (recommendations : list Recommendation.t) : Store.t :=
  let st := Store.delete_recommendations_of st user_profile in
  let recommendation_objects := to_row <$> recommendations in
  Store.bulk_create st stamps recommendation_objects.

Definition _refresh_recommendations (st : Store.t) (stamps : nat → Z * Z)
    (user_profile : Profile.t) (limit : Z)
  : Store.t * result (list UserRecommendation.t) :=
  match generate_recommendations_for_user st user_profile limit default_min_score with
  | Raise e => (st, Raise e)
  | Ok recommendations =>
      let st := cache_recommendations st stamps user_profile recommendations in
      (st, Store.slice_to (Store.recommendations_of st user_profile) limit)
  end.

(** [is_stale now r]: [(timezone.now() - r.updated_at) > timedelta(days=7)] *)
Definition is_stale (now : Z) (r : UserRecommendation.t) : bool :=
  timedelta_days 7 <? now - UserRecommendation.updated_at r.

(** [now] is read by the staleness test, [stamps] by the insert of a
    refresh. *)
Definition get_recommendations_for_user (st : Store.t) (now : Z)
    (stamps : nat → Z * Z)
    (user_profile : Profile.t) (limit : Z) (use_cache refresh_if_old : bool)
  : Store.t * result (list UserRecommendation.t) :=
  let refresh := _refresh_recommendations st stamps user_profile limit in
  if use_cache then
    match Store.slice_to (Store.recommendations_of st user_profile) limit with
    | Raise e => (st, Raise e)
    | Ok cached_recommendations =>
        if Store.exists_ cached_recommendations then
          if refresh_if_old then
            match Store.first cached_recommendations with
            | Some latest_rec =>
                if is_stale now latest_rec then refresh
                else (st, Ok cached_recommendations)
            | None => (st, Raise AttributeError)
            end
          else (st, Ok cached_recommendations)
        else refresh
    end
  else refresh.

End RecommendationService.

(** ** Specification-side vocabulary *)

(** Every character of [s] satisfies [P]. *)
Fixpoint all_chars (P : ascii → bool) (s : string) : bool :=
  match s with
  | EmptyString => true
  | String c s' => P c && all_chars P s'
  end.

(** Text of code points below 128, where the character classes above are
    Python's. *)
Definition ascii_text (s : string) : Prop :=
  all_chars (λ c, (Py.code c <? 128)%nat) s = true.

Definition ascii_profile (p : Profile.t) : Prop :=
  ascii_text (Profile.interests p) ∧ ascii_text (Profile.bio p).

(** A letter or a digit. *)
Definition is_alnum (c : ascii) : bool :=
  Py.is_upper c || Py.is_lower c || Py.is_digit c.

(** No underscore in [s]. *)
Definition underscore_free (s : string) : Prop :=
  all_chars (λ c, negb (Ascii.eqb c "_")) s = true.

(** [s] is empty or begins with a character outside [\w]. *)
Definition at_word_boundary (s : string) : Prop :=
  match s with
  | EmptyString => True
  | String c _ => Py.is_word_char c = false
  end.

(** A token that [get_bio_keywords] keeps. *)
Definition meaningful (word : string) : Prop :=
  (2 < String.length word)%nat ∧ word ∉ Profile.common_words.

#[local] Instance meaningful_dec word : Decision (meaningful word).
Proof. unfold meaningful. apply _. Defined.

(** What one entry of the comma-separated field is normalised to. *)
Definition clean (interest : string) : string := Py.lower (Py.strip interest).

(** The combined interest set of a profile: the declared interests united
    with the bio keywords. *)
Definition combined_interests (p : Profile.t) : gset string :=
  list_to_set (Profile.get_interests_list p) ∪ list_to_set (Profile.get_bio_keywords p).

Definition first_char (s : string) : option ascii :=
  match s with
  | EmptyString => None
  | String c _ => Some c
  end.

Fixpoint last_char (s : string) : option ascii :=
  match s with
  | EmptyString => None
  | String c EmptyString => Some c
  | String _ s' => last_char s'
  end.

(** No white space at either end. *)
Definition trimmed (s : string) : Prop :=
  (∀ c, first_char s = Some c → Py.is_space c = false)
  ∧ (∀ c, last_char s = Some c → Py.is_space c = false).

(** ** Specification-side quantities of the score *)

(** F(x): the identifiers of the profiles [x] follows. *)
Definition followees (st : Store.t) (x : Profile.t) : gset Z :=
  list_to_set (Store.following_ids st x).

(** I(x): the posts [x] has liked or commented on. *)
Definition interacted_posts (st : Store.t) (x : Profile.t) : gset Z :=
  list_to_set (Store.liked_post_ids st x) ∪ list_to_set (Store.commented_post_ids st x).

(** The number of stored profiles followed by both [a] and [b]. *)
Definition mutual_count (st : Store.t) (a b : Profile.t) : Z :=
  Z.of_nat (length (filter (λ p, Profile.id p ∈ followees st a ∩ followees st b)
                      (Store.profiles st))).

(** |I(a) ∩ I(b)| *)
Definition activity_overlap (st : Store.t) (a b : Profile.t) : Z :=
  Z.of_nat (size (interacted_posts st a ∩ interacted_posts st b)).

(** |A ∩ B| and |A ∩ B| / |A ∪ B| over the combined interest sets, with
    the empty case set to zero. *)
Definition common_count (a b : Profile.t) : Z :=
  if decide (combined_interests a = ∅ ∨ combined_interests b = ∅) then 0
  else Z.of_nat (size (combined_interests a ∩ combined_interests b)).

Definition jaccard (a b : Profile.t) : float :=
  if decide (combined_interests a = ∅ ∨ combined_interests b = ∅) then 0.0%float
  else PrimFloat.div
         (Py.float_of_int (Z.of_nat (size (combined_interests a ∩ combined_interests b))))
         (Py.float_of_int (Z.of_nat (size (combined_interests a ∪ combined_interests b)))).

(** The exact rational value of a finite float. *)
Definition exact_value (x : float) : option Q :=
  match Prim2SF x with
  | S754_zero _ => Some 0%Q
  | S754_finite s m e =>
      Some (inject_Z (if s then Z.neg m else Z.pos m) * Qpower 2 e)%Q
  | _ => None
  end.

(** [x] is within [eps] of the rational [q]. *)
Definition within (eps q : Q) (x : float) : bool :=
  match exact_value x with
  | Some v => Qle_bool (Qabs (v - q)) eps
  | None => false
  end.


(** The clause list of the explanation, as the specification words it. *)
Definition pluralized (n : Z) (noun : string) : string :=
  if decide (n = 1) then Py.str_of_int n +:+ " " +:+ noun
  else Py.str_of_int n +:+ " " +:+ noun +:+ "s".

Definition clauses (sd : ScoreData.t) : list string :=
  (if decide (0 < ScoreData.mutual_connections_count sd)
   then [pluralized (ScoreData.mutual_connections_count sd) "mutual connection"]
   else [])
  ++ (if decide (0 < ScoreData.common_interests_count sd)
      then [pluralized (ScoreData.common_interests_count sd) "common interest"]
      else [])
  ++ (if decide (0 < ScoreData.activity_similarity sd)
      then ["similar activity patterns"]
      else []).

(** [x] follows [y] in the store. *)
Definition follows_edge (st : Store.t) (x y : Profile.t) : Prop :=
  Connection.mk (Profile.id x) (Profile.id y) ∈ Store.connections st.

(** The entry the candidate loop appends for [candidate], if any. *)
Definition recommend (st : Store.t) (user_profile : Profile.t) (min_score : float)
    (candidate : Profile.t) : option Recommendation.t :=
  match RecommendationService.calculate_recommendation_score st user_profile candidate with
  | Ok score_data =>
      if Py.ge (ScoreData.total_score score_data) min_score
      then Some (Recommendation.mk user_profile candidate
                   (ScoreData.total_score score_data)
                   (ScoreData.mutual_connections_count score_data)
                   (ScoreData.common_interests_count score_data)
                   (RecommendationService.generate_recommendation_reason score_data)
                   (ScoreData.mutual_connections score_data))
      else None
  | Raise _ => None
  end.

(** The cached rows of a user, in table order. *)
Definition rows_of (st : Store.t) (p : Profile.t) : list UserRecommendation.t :=
  filter (λ r, UserRecommendation.user_id r = Profile.id p) (Store.recommendations st).

(** [w] is a maximal run of word characters of [s]: a non-empty stretch of
    word characters with no word character right before or right after. *)
Definition maximal_run (w s : string) : Prop :=
  ∃ pre post,
    s = pre +:+ w +:+ post
    ∧ w ≠ ""
    ∧ all_chars Py.is_word_char w = true
    ∧ (∀ c, last_char pre = Some c → Py.is_word_char c = false)
    ∧ at_word_boundary post.

(** [w] is a maximal run of letters and digits of [s]. *)
Definition alnum_run (w s : string) : Prop :=
  ∃ pre post,
    s = pre +:+ w +:+ post
    ∧ w ≠ ""
    ∧ all_chars is_alnum w = true
    ∧ (∀ c, last_char pre = Some c → is_alnum c = false)
    ∧ (∀ c, first_char post = Some c → is_alnum c = false).

(** The rows an insert writes for [recs]: the [i]-th with the [i]-th pair
    of readings. *)
Definition stamped (stamps : nat → Z * Z) (recs : list Recommendation.t)
  : list UserRecommendation.t :=
  imap (λ i rec_data,
          RecommendationService.to_row rec_data (stamps i).1 (stamps i).2) recs.

(** The identifiers of the stored profiles. *)
Definition profile_ids (st : Store.t) : gset Z :=
  list_to_set (Profile.id <$> Store.profiles st).

(** Primary keys are unique and every follow edge points at a stored
    profile, as the database schema enforces. *)
Definition referential_integrity (st : Store.t) : Prop :=
  NoDup (Profile.id <$> Store.profiles st)
  ∧ ∀ c, c ∈ Store.connections st → Connection.following_id c ∈ profile_ids st.

(** ** Concrete data used in examples *)

Module Scenario.

(** A follows X and Y, B follows X and Z; nobody declares interests. *)
Definition A : Profile.t := Profile.mk 1 "" "" true.
Definition B : Profile.t := Profile.mk 2 "" "" true.
Definition X : Profile.t := Profile.mk 3 "" "" true.
Definition Y : Profile.t := Profile.mk 4 "" "" true.
Definition Z' : Profile.t := Profile.mk 5 "" "" true.

Definition follows : Store.t :=
  Store.mk [A; B; X; Y; Z']
    [Connection.mk 1 3; Connection.mk 1 4; Connection.mk 2 3; Connection.mk 2 5]
    [] [] [].

(** The same two users when A follows itself and B follows A. *)
Definition self_follow : Store.t :=
  Store.mk [A; B] [Connection.mk 1 1; Connection.mk 2 1] [] [] [].

(** Profiles with text. *)
Definition photographer : Profile.t :=
  Profile.mk 6 "I am a photographer who loves travel and food"
    "Photography, Travel, " true.

Definition traveller : Profile.t :=
  Profile.mk 7 "Chef, loves food" "travel, Travel" true.

(** A, B and Z' all follow X and Y.  The cache holds one row for A,
    written at time 0. *)
Definition cached_row : UserRecommendation.t :=
  UserRecommendation.mk 1 2 0.16%float 2 0 "Based on 2 mutual connections" 0 0.

Definition cached : Store.t :=
  Store.mk [A; B; X; Y; Z']
    [Connection.mk 1 3; Connection.mk 1 4; Connection.mk 2 3; Connection.mk 2 4;
     Connection.mk 5 3; Connection.mk 5 4]
    [] [] [cached_row].

End Scenario.

(** The profiles of the docstring of [calculate_interest_similarity]. *)
Module Docstring.

Definition user_a : Profile.t :=
  Profile.mk 10 "photographer adventure" "photography, travel" true.

Definition user_b : Profile.t :=
  Profile.mk 11 "chef adventure food" "travel, cooking" true.

Definition spaced : Profile.t :=
  Profile.mk 12 "" "Photography, Travel,cooking" true.

End Docstring.
(** * The rest of the backend: display methods, serializers and views *)

From stdpp Require Import sorting.

#[local] Open Scope Z_scope.

(** ** Further vocabulary *)

(** A binary64 value that is a number and is not negative: a zero, a
    positive finite value or plus infinity. *)
Definition nonneg_sf (x : spec_float) : Prop :=
  match x with
  | S754_nan => False
  | S754_zero _ => True
  | S754_infinity s => s = false
  | S754_finite s _ _ => s = false
  end.

Definition nonneg (x : float) : Prop := nonneg_sf (Prim2SF x).

(** ** The remaining methods of [Profile]

    [Profile.t] above carries the fields the recommender reads; the two
    display methods read [first_name], [last_name] and [date_of_birth],
    which are passed here as arguments, and [date.today()] is the argument
    [today]. *)

Module ProfileMethods.

(** [datetime.date] *)
Record date : Type := mk_date { year : Z; month : Z; day : Z }.

(** [(a1, a2) < (b1, b2)] on tuples of [int]s *)
Definition tuple_lt (a b : Z * Z) : bool :=
  (a.1 <? b.1) || ((a.1 =? b.1) && (a.2 <? b.2)).

Definition get_full_name (first_name last_name : string) : string :=
  Py.strip (first_name +:+ " " +:+ last_name).

Definition get_age (date_of_birth : option date) (today : date) : option Z :=
  match date_of_birth with
  | None => None
  | Some dob =>
      Some (year today - year dob
            - (if tuple_lt (month today, day today) (month dob, day dob)
               then 1 else 0))
  end.

End ProfileMethods.

(** ** [serializers.py] *)

Module ProfileSerializer.

Inductive outcome : Type :=
| Valid (value : string)
| ValidationError (message : string).

(** The [for interest in interests_list] loop of [validate_interests]: the
    message of the first entry that is refused. *)
Fixpoint check_lengths (interests_list : list string) : option string :=
  match interests_list with
  | [] => None
  | interest :: rest =>
      if 50 <? Z.of_nat (String.length interest)
      then Some ("Interest '" +:+ interest +:+ "' is too long (max 50 characters)")
      else if Z.of_nat (String.length interest) <? 2
      then Some ("Interest '" +:+ interest +:+ "' is too short (min 2 characters)")
      else check_lengths rest
  end.

Definition validate_interests (value : string) : outcome :=
  match value with
  | EmptyString => Valid value
  | _ =>
      let interests_list := Py.strip <$> Py.split "," value in
      let interests_list := filter (λ interest, interest ≠ "") interests_list in
      if 10 <? Z.of_nat (length interests_list)
      then ValidationError "Maximum 10 interests allowed"
      else match check_lengths interests_list with
           | Some message => ValidationError message
           | None => Valid (Py.join ", " interests_list)
           end
  end.

End ProfileSerializer.

(** The request body of [user_recommendations], as the fields of the
    serializer meet it. *)
Module RecommendationRequestSerializer.

(** What a key of the body is to its field: missing, a value that the
    field's parser accepts (given as parsed), or something the parser
    refuses: a value of another type, [null], text that is not a number. *)
Inductive field (A : Type) : Type :=
| Missing
| Parsed (value : A)
| Refused.
Arguments Missing {A}.
Arguments Parsed {A} value.
Arguments Refused {A}.

Definition refused {A : Type} (f : field A) : bool :=
  match f with Refused => true | _ => false end.

(** The parsed value, or the [default=] of the field for a missing key. *)
Definition value_or {A : Type} (d : A) (f : field A) : A :=
  match f with Parsed v => v | _ => d end.

Record data : Type := mk_data {
  limit : field Z;
  min_score : field float;
  use_cache : field bool;
  refresh_if_old : field bool;
  include_mutual_connections : field bool
}.

Record validated_data : Type := mk_validated {
  v_limit : Z;
  v_min_score : float;
  v_use_cache : bool;
  v_refresh_if_old : bool;
  v_include_mutual_connections : bool
}.

(** [is_valid]: every field parses its key, a missing key takes the
    default, and the [min_value] and [max_value] validators run on the
    numbers; [None] when a parser or a validator refuses. *)
Definition is_valid (d : data) : option validated_data :=
  if refused (limit d) || refused (min_score d) || refused (use_cache d)
     || refused (refresh_if_old d) || refused (include_mutual_connections d)
  then None
  else
    let limit := value_or 10 (limit d) in
    let min_score := value_or 0.1%float (min_score d) in
    if (limit <? 1) || (50 <? limit) then None
    else if PrimFloat.ltb min_score 0.0 || PrimFloat.ltb 1.0 min_score then None
    else Some (mk_validated limit min_score
                 (value_or true (use_cache d))
                 (value_or true (refresh_if_old d))
                 (value_or false (include_mutual_connections d))).

(** [request.data] as the serializer is given it: the fields of a JSON
    object, or something that is no object (a list, a number, text that does
    not parse), which [request.data] or the serializer refuses. *)
Inductive body : Type :=
| Fields (d : data)
| Unreadable.

(** [serializer.is_valid(raise_exception=True)]: [None] is the exception. *)
Definition validate (b : body) : option validated_data :=
  match b with
  | Fields d => is_valid d
  | Unreadable => None
  end.

End RecommendationRequestSerializer.

(** ** [views.py] *)

Module Views.

Definition with_connections (st : Store.t) (rows : list Connection.t) : Store.t :=
  Store.mk (Store.profiles st) rows (Store.likes st) (Store.comments st)
    (Store.recommendations st).

(** [get_object_or_404(Profile, id=user_id)] *)
Inductive fetched : Type :=
| Found (p : Profile.t)
| Http404
| MultipleObjectsReturned.

Definition get_object_or_404 (st : Store.t) (user_id : Z) : fetched :=
  match filter (λ p, Profile.id p = user_id) (Store.profiles st) with
  | [] => Http404
  | [p] => Found p
  | _ => MultipleObjectsReturned
  end.

(** [Connection.objects.filter(follower=a, following=b)] *)
Definition edges (st : Store.t) (a b : Profile.t) : list Connection.t :=
  filter (λ c, Connection.follower_id c = Profile.id a
               ∧ Connection.following_id c = Profile.id b)
    (Store.connections st).

(** [connection.delete()] for the first row that satisfies [P]. *)
Fixpoint delete_first {A : Type} (P : A → Prop) `{∀ x, Decision (P x)}
    (l : list A) : list A :=
  match l with
  | [] => []
  | x :: l' => if decide (P x) then l' else x :: delete_first P l'
  end.

(** The responses of [follow_user] and [unfollow_user], by case; the
    profile is the one the message names. *)
Inductive FollowResponse : Type :=
| NowFollowing (target : Profile.t)
| CannotFollowYourself
| AlreadyFollowing
| FailedToFollow
| Unfollowed (target : Profile.t)
| NotFollowing
| FailedToUnfollow.

Definition status (r : FollowResponse) : Z :=
  match r with
  | NowFollowing _ | Unfollowed _ => 200
  | CannotFollowYourself | AlreadyFollowing | NotFollowing => 400
  | FailedToFollow | FailedToUnfollow => 500
  end.

(** [me] is [request.user.profile].  A profile belongs to one user and a
    user has one profile, so [target_profile.user == request.user] is the
    equality of the two profile keys. *)
Definition follow_user (st : Store.t) (me : Profile.t) (user_id : Z)
  : Store.t * FollowResponse :=
  match get_object_or_404 st user_id with
  | Found target_profile =>
      if bool_decide (Profile.id target_profile = Profile.id me)
      then (st, CannotFollowYourself)
      else
        (* get_or_create *)
        match edges st me target_profile with
        | [] =>
            (with_connections st
               (Store.connections st
                ++ [Connection.mk (Profile.id me) (Profile.id target_profile)]),
             NowFollowing target_profile)
        | [_] => (st, AlreadyFollowing)
        | _ => (st, FailedToFollow)
        end
  | _ => (st, FailedToFollow)
  end.

Definition unfollow_user (st : Store.t) (me : Profile.t) (user_id : Z)
  : Store.t * FollowResponse :=
  match get_object_or_404 st user_id with
  | Found target_profile =>
      match Store.first (edges st me target_profile) with
      | Some connection =>
          (with_connections st
             (delete_first
                (λ c, Connection.follower_id c = Profile.id me
                      ∧ Connection.following_id c = Profile.id target_profile)
                (Store.connections st)),
           Unfollowed target_profile)
      | None => (st, NotFollowing)
      end
  | _ => (st, FailedToUnfollow)
  end.

Inductive method : Type := GET | POST.

(** The body of the response of [user_recommendations]; the rows are the
    ones handed to [UserRecommendationSerializer]. *)
Inductive RecommendationsResponse : Type :=
| RecommendationsOk (recommendations : list UserRecommendation.t)
    (total_count : Z) (cache_used : bool) (generated_at : Z)
    (user_interests : list string) (user_connections_count : Z)
| RecommendationsFailed.

(** [user_profile] is [request.user.profile] and [b] is [request.data],
    which only a POST reads.  [now] and [stamps] are the readings of the
    service call; [generated_at] is the reading taken when the response is
    built. *)
Definition user_recommendations (st : Store.t) (now : Z) (stamps : nat → Z * Z)
    (generated_at : Z) (user_profile : Profile.t)
    (m : method) (b : RecommendationRequestSerializer.body)
  : Store.t * RecommendationsResponse :=
  let respond (served : Store.t * result (list UserRecommendation.t))
      (cache_used : bool) :=
    match served with
    | (st', Ok recommendations) =>
        (st', RecommendationsOk recommendations
                (Z.of_nat (length recommendations)) cache_used generated_at
                (Profile.get_interests_list user_profile)
                (Z.of_nat (length (Store.following_ids st' user_profile))))
    | (st', Raise _) => (st', RecommendationsFailed)
    end in
  match m with
  | POST =>
      match RecommendationRequestSerializer.validate b with
      | Some v =>
          respond
            (RecommendationService.get_recommendations_for_user st now stamps
               user_profile
               (RecommendationRequestSerializer.v_limit v)
               (RecommendationRequestSerializer.v_use_cache v)
               (RecommendationRequestSerializer.v_refresh_if_old v))
            (RecommendationRequestSerializer.v_use_cache v)
      | None => (st, RecommendationsFailed)
      end
  | GET =>
      respond
        (RecommendationService.get_recommendations_for_user st now stamps
           user_profile RecommendationService.default_limit true true)
        true
  end.

(** The response of [refresh_recommendations]: the count, or the failure. *)
Definition refresh_recommendations (st : Store.t) (stamps : nat → Z * Z)
    (user_profile : Profile.t)
  : Store.t * option Z :=
  let st := Store.delete_recommendations_of st user_profile in
  match RecommendationService.generate_recommendations_for_user st user_profile 20
          RecommendationService.default_min_score with
  | Ok recommendations =>
      (RecommendationService.cache_recommendations st stamps user_profile
         recommendations,
       Some (Z.of_nat (length recommendations)))
  | Raise _ => (st, None)
  end.

(** [ProfileDetailView._refresh_user_recommendations] *)
Definition _refresh_user_recommendations (st : Store.t) (profile : Profile.t) : Store.t :=
  Store.delete_recommendations_of st profile.

End Views.

(** Twelve profiles that all match [U] on the one interest, and a clock
    that advances by one from each reading to the next. *)
Module Ties.

Definition U : Profile.t := Profile.mk 1 "" "music" true.

Definition fan (id : Z) : Profile.t := Profile.mk id "" "music" true.

Definition store : Store.t :=
  Store.mk (U :: (fan <$> [2; 3; 4; 5; 6; 7; 8; 9; 10; 11; 12; 13])) [] [] [] [].

Definition tick (i : nat) : Z * Z := (1000 + 2 * Z.of_nat i, 1001 + 2 * Z.of_nat i).

End Ties.

(** ** Invariants of the tables *)

(** [unique_together = ('follower', 'following')] *)
Definition unique_connections (st : Store.t) : Prop :=
  NoDup (Store.connections st).

(** Nobody follows themselves. *)
Definition no_self_follow (st : Store.t) : Prop :=
  ∀ c, c ∈ Store.connections st → Connection.follower_id c ≠ Connection.following_id c.

(** [unique_together = ('user', 'recommended_user')] *)
Definition unique_recommendations (st : Store.t) : Prop :=
  NoDup ((λ r, (UserRecommendation.user_id r, UserRecommendation.recommended_user_id r))
           <$> Store.recommendations st).

(** The primary key of [Profile]. *)
Definition unique_profiles (st : Store.t) : Prop :=
  NoDup (Profile.id <$> Store.profiles st).

(** The column widths of [Profile]: [interests] has [max_length=500] and
    [bio] has [max_length=255]. *)
Definition within_max_length (p : Profile.t) : Prop :=
  (String.length (Profile.interests p) ≤ 500)%nat
  ∧ (String.length (Profile.bio p) ≤ 255)%nat.

(** The profile after its [interests] field has been saved as [value]. *)
Definition with_interests (p : Profile.t) (value : string) : Profile.t :=
  Profile.mk (Profile.id p) (Profile.bio p) value (Profile.show_in_recommendations p).

(** No comma in [s]. *)
Definition comma_free (s : string) : Prop :=
  all_chars (λ c, negb (Ascii.eqb c ",")) s = true.

(** An entry as [validate_interests] and [get_interests_list] keep them:
    not empty, no comma, no white space at either end. *)
Definition entry (s : string) : Prop := s ≠ "" ∧ comma_free s ∧ trimmed s.

(** The entries [validate_interests] works on. *)
Definition raw_entries (raw : string) : list string :=
  filter (λ s, s ≠ "") (Py.strip <$> Py.split "," raw).

(** The length an entry may have. *)
Definition entry_length_ok (s : string) : Prop :=
  (2 ≤ String.length s ≤ 50)%nat.

(** The profile with its two text fields in lower case. *)
Definition lower_case (p : Profile.t) : Profile.t :=
  Profile.mk (Profile.id p) (Py.lower (Profile.bio p))
    (Py.lower (Profile.interests p)) (Profile.show_in_recommendations p).

(** The calendar order of two dates. *)
Definition date_lt (a b : ProfileMethods.date) : Prop :=
  ProfileMethods.year a < ProfileMethods.year b
  ∨ (ProfileMethods.year a = ProfileMethods.year b
     ∧ (ProfileMethods.month a < ProfileMethods.month b
        ∨ (ProfileMethods.month a = ProfileMethods.month b
           ∧ ProfileMethods.day a < ProfileMethods.day b))).

Definition date_le (a b : ProfileMethods.date) : Prop := date_lt a b ∨ a = b.

(** The day and the month of [d], [n] years later (as a triple: the 29th of
    February stays the 29th of February). *)
Definition years_later (d : ProfileMethods.date) (n : Z) : ProfileMethods.date :=
  ProfileMethods.mk_date (ProfileMethods.year d + n) (ProfileMethods.month d)
    (ProfileMethods.day d).

(** [x] comes no later than [y] in a list sorted by decreasing score. *)
Definition score_ge (x y : Recommendation.t) : Prop :=
  Py.ge (Recommendation.score x) (Recommendation.score y) = true.

(** A binary64 value that is a number. *)
Definition is_number (x : float) : Prop := Prim2SF x ≠ S754_nan.
(** ** Text helpers *)

Section text.

Lemma foldl_interests_step (acc : list string) (pieces : list string) :
  foldl Profile.interests_step acc pieces
  = acc ++ filter (λ s, s ≠ "") (clean <$> pieces).
Proof.
  revert acc. induction pieces as [|piece pieces IH]; intros acc; simpl.
  - by rewrite app_nil_r.
  - rewrite IH. unfold Profile.interests_step. fold (clean piece).
    rewrite filter_cons. destruct (clean piece) eqn:E.
    + by rewrite decide_False by (intros ?; congruence).
    + rewrite decide_True by done. by rewrite <- app_assoc.
Qed.

Lemma foldl_keywords_step (acc : list string) (words : list string) :
  foldl Profile.keywords_step acc words = acc ++ filter meaningful words.
Proof.
  revert acc. induction words as [|w words IH]; intros acc; simpl.
  - by rewrite app_nil_r.
  - rewrite IH, filter_cons. unfold Profile.keywords_step.
    destruct (decide (meaningful w)) as [[Hlen Hin]|Hno].
    + rewrite (bool_decide_eq_false_2 _ Hin).
      replace (2 <? Z.of_nat (String.length w)) with true
        by (symmetry; apply Z.ltb_lt; lia).
      simpl. by rewrite <- app_assoc.
    + destruct (2 <? Z.of_nat (String.length w)) eqn:Hl; simpl; [|done].
      destruct (bool_decide (w ∈ Profile.common_words)) eqn:Hc; simpl; [done|].
      exfalso. apply Hno. split.
      * apply Z.ltb_lt in Hl. lia.
      * by apply bool_decide_eq_false in Hc.
Qed.

Lemma split_nonempty (sep : ascii) (s : string) : Py.split sep s ≠ [].
Proof. destruct s as [|c s]; simpl; [done|]. destruct (Ascii.eqb c sep); [done|]. by destruct (Py.split sep s). Qed.

Lemma string_app_cons (c : ascii) (s t : string) : String c s +:+ t = String c (s +:+ t).
Proof. reflexivity. Qed.

Lemma string_app_nil_l (t : string) : "" +:+ t = t.
Proof. reflexivity. Qed.

Lemma string_app_nil_r (s : string) : s +:+ "" = s.
Proof. induction s as [|c s IH]; [done|]. by rewrite string_app_cons, IH. Qed.

Lemma string_app_assoc (s t u : string) : (s +:+ t) +:+ u = s +:+ (t +:+ u).
Proof. induction s as [|c s IH]; [done|]. by rewrite !string_app_cons, IH. Qed.

(** Reading a run of word characters only extends the current run. *)
Lemma findall_words_from_run (w : string) : ∀ (cur rest : string),
  all_chars Py.is_word_char w = true →
  Py.findall_words_from cur (w +:+ rest) = Py.findall_words_from (cur +:+ w) rest.
Proof.
  induction w as [|c w IH]; intros cur rest Hw.
  - by rewrite string_app_nil_l, string_app_nil_r.
  - simpl in Hw. apply andb_true_iff in Hw as [Hc Hw].
    rewrite string_app_cons. simpl. rewrite Hc, IH by done.
    by rewrite string_app_assoc, string_app_cons, string_app_nil_l.
Qed.

Lemma findall_words_skip (c : ascii) (s : string) :
  Py.is_word_char c = false →
  Py.findall_words (String c s) = Py.findall_words s.
Proof. intros Hc. unfold Py.findall_words. simpl. by rewrite Hc. Qed.

(** At a boundary the current run, if any, is emitted. *)
Lemma findall_words_from_boundary (cur rest : string) :
  cur ≠ "" → at_word_boundary rest →
  Py.findall_words_from cur rest = cur :: Py.findall_words rest.
Proof.
  intros Hcur Hb. destruct rest as [|c rest]; simpl in *.
  - by destruct cur.
  - rewrite Hb, findall_words_skip by done. by destruct cur.
Qed.

Lemma findall_words_token (w rest : string) :
  w ≠ "" → all_chars Py.is_word_char w = true → at_word_boundary rest →
  Py.findall_words (w +:+ rest) = w :: Py.findall_words rest.
Proof.
  intros Hne Hw Hb. unfold Py.findall_words at 1.
  rewrite findall_words_from_run by done. rewrite string_app_nil_l.
  by apply findall_words_from_boundary.
Qed.

End text.

(** ** Splitting, trimming and lower-casing *)

Section normalise.

Lemma split_join (sep : ascii) (s : string) :
  Py.join (String sep "") (Py.split sep s) = s.
Proof.
  induction s as [|c s IH]; [done|]. simpl.
  pose proof (split_nonempty sep s) as Hne.
  destruct (Ascii.eqb_spec c sep) as [->|Hc].
  - destruct (Py.split sep s) as [|w ws]; [done|].
    change (Py.join (String sep "") ("" :: w :: ws))
      with ("" +:+ String sep "" +:+ Py.join (String sep "") (w :: ws)).
    by rewrite IH.
  - destruct (Py.split sep s) as [|w ws]; [done|].
    destruct ws as [|w' ws].
    + simpl in *. by rewrite IH.
    + change (Py.join (String sep "") (String c w :: w' :: ws))
        with (String c w +:+ String sep "" +:+ Py.join (String sep "") (w' :: ws)).
      change (Py.join (String sep "") (w :: w' :: ws))
        with (w +:+ String sep "" +:+ Py.join (String sep "") (w' :: ws)) in IH.
      by rewrite string_app_cons, IH.
Qed.

Lemma split_pieces (sep : ascii) (s : string) :
  Forall (λ w, all_chars (λ c, negb (Ascii.eqb c sep)) w = true) (Py.split sep s).
Proof.
  induction s as [|c s IH]; simpl.
  - by constructor.
  - destruct (Ascii.eqb c sep) eqn:Hc.
    + by constructor.
    + destruct (Py.split sep s) as [|w ws]; [by repeat constructor; simpl; rewrite Hc|].
      inversion IH; subst. constructor; [|done]. simpl. by rewrite Hc.
Qed.

Lemma lstrip_spec (s : string) :
  ∃ l, s = l +:+ Py.lstrip s ∧ all_chars Py.is_space l = true
       ∧ ∀ c, first_char (Py.lstrip s) = Some c → Py.is_space c = false.
Proof.
  induction s as [|c s (l & Hs & Hl & Hf)]; simpl.
  - exists "". split_and!; [done..|]. intros c [=].
  - destruct (Py.is_space c) eqn:Hc.
    + exists (String c l). rewrite string_app_cons, <- Hs. split_and!; [done| |done].
      simpl. by rewrite Hc.
    + exists "". split_and!; [done..|]. simpl. intros ? [= <-]. done.
Qed.

Lemma rstrip_spec (s : string) :
  ∃ r, s = Py.rstrip s +:+ r ∧ all_chars Py.is_space r = true
       ∧ ∀ c, last_char (Py.rstrip s) = Some c → Py.is_space c = false.
Proof.
  induction s as [|c s (r & Hs & Hr & Hlast)]; simpl.
  - exists "". split_and!; [done..|]. intros c [=].
  - destruct (Py.rstrip s) as [|c' t] eqn:Ht.
    + destruct (Py.is_space c) eqn:Hc.
      * exists (String c r). rewrite string_app_nil_l in *. subst s.
        split_and!; [done| |intros ? [=]]. simpl. by rewrite Hc.
      * exists r. rewrite string_app_cons, string_app_nil_l in *. subst s.
        split_and!; [done..|]. simpl. intros ? [= <-]. done.
    + exists r. rewrite string_app_cons, <- Hs. split_and!; [done..|]. done.
Qed.

Lemma rstrip_first_char (s : string) :
  Py.rstrip s ≠ "" → first_char (Py.rstrip s) = first_char s.
Proof.
  destruct s as [|c s]; simpl; [done|].
  destruct (Py.rstrip s); [|done]. by destruct (Py.is_space c).
Qed.

Lemma strip_spec (s : string) :
  (∃ l r, s = l +:+ Py.strip s +:+ r
          ∧ all_chars Py.is_space l = true ∧ all_chars Py.is_space r = true)
  ∧ trimmed (Py.strip s).
Proof.
  unfold Py.strip.
  destruct (lstrip_spec s) as (l & Hs & Hl & Hf).
  destruct (rstrip_spec (Py.lstrip s)) as (r & Hs' & Hr & Hlast).
  split.
  - exists l, r. by rewrite <- Hs', <- Hs.
  - split; [|done]. intros c Hc. apply Hf.
    rewrite <- Hc. symmetry. apply rstrip_first_char.
    intros Hempty. by rewrite Hempty in Hc.
Qed.

Lemma lower_char_not_upper (c : ascii) : Py.is_upper (Py.lower_char c) = false.
Proof. by destruct c as [[] [] [] [] [] [] [] []]. Qed.

Lemma lower_char_space (c : ascii) : Py.is_space (Py.lower_char c) = Py.is_space c.
Proof. by destruct c as [[] [] [] [] [] [] [] []]. Qed.

Lemma lower_no_upper (s : string) :
  all_chars (λ c, negb (Py.is_upper c)) (Py.lower s) = true.
Proof.
  induction s as [|c s IH]; [done|]. simpl.
  by rewrite lower_char_not_upper, IH.
Qed.

Lemma lower_first_char (s : string) :
  first_char (Py.lower s) = Py.lower_char <$> first_char s.
Proof. by destruct s. Qed.

Lemma lower_last_char (s : string) :
  last_char (Py.lower s) = Py.lower_char <$> last_char s.
Proof.
  induction s as [|c s IH]; [done|]. simpl.
  destruct s as [|c' s]; [done|]. exact IH.
Qed.

Lemma lower_trimmed (s : string) : trimmed s → trimmed (Py.lower s).
Proof.
  intros [Hf Hl]. split; intros c.
  - rewrite lower_first_char. destruct (first_char s) as [d|]; [|done].
    intros [= <-]. rewrite lower_char_space. by apply Hf.
  - rewrite lower_last_char. destruct (last_char s) as [d|]; [|done].
    intros [= <-]. rewrite lower_char_space. by apply Hl.
Qed.

Lemma clean_spec (interest : string) :
  trimmed (clean interest)
  ∧ all_chars (λ c, negb (Py.is_upper c)) (clean interest) = true.
Proof.
  split.
  - apply lower_trimmed, strip_spec.
  - apply lower_no_upper.
Qed.

Lemma get_interests_list_eq (p : Profile.t) :
  Profile.get_interests_list p
  = filter (λ s, s ≠ "") (clean <$> Py.split "," (Profile.interests p)).
Proof.
  unfold Profile.get_interests_list.
  destruct (Profile.interests p) as [|c raw] eqn:E; [done|].
  by rewrite foldl_interests_step.
Qed.

Lemma get_bio_keywords_eq (p : Profile.t) :
  Profile.get_bio_keywords p
  = filter meaningful (Py.findall_words (Py.lower (Profile.bio p))).
Proof.
  unfold Profile.get_bio_keywords.
  destruct (Profile.bio p) as [|c raw] eqn:E; [done|].
  by rewrite foldl_keywords_step.
Qed.

End normalise.

(** ** Facts about binary64 arithmetic *)

Section floats.

Lemma SFmul_comm (prec emax : Z) (x y : spec_float) :
  SFmul prec emax x y = SFmul prec emax y x.
Proof.
  destruct x as [sx|sx| |sx mx ex], y as [sy|sy| |sy my ey]; simpl;
    rewrite ?(xorb_comm sx sy); try reflexivity.
  by rewrite (Pos.mul_comm mx my), (Z.add_comm ex ey).
Qed.

Lemma float_mul_comm (x y : float) : (x * y)%float = (y * x)%float.
Proof.
  rewrite <- (SF2Prim_Prim2SF (x * y)), <- (SF2Prim_Prim2SF (y * x)).
  rewrite !mul_spec. unfold SF64mul. by rewrite SFmul_comm.
Qed.

Lemma SFeqb_SFleb (x y : spec_float) : SFeqb x y = true → SFleb y x = true.
Proof.
  unfold SFeqb, SFleb.
  destruct x as [sx|sx| |sx mx ex], y as [sy|sy| |sy my ey]; simpl;
    try done; try (by destruct sx); try (by destruct sy);
    try (by destruct sx, sy).
  change (PosDef.Pos.compare_cont Eq mx my) with (Pos.compare mx my).
  change (PosDef.Pos.compare_cont Eq my mx) with (Pos.compare my mx).
  rewrite (Z.compare_antisym ex ey), (Pos.compare_antisym mx my).
  destruct sx, sy; try done;
    destruct (ex ?= ey)%Z; simpl; try done;
    by destruct (mx ?= my)%positive.
Qed.

(** [x == y] implies [x >= y]. *)
Lemma float_eqb_ge (x y : float) : PrimFloat.eqb x y = true → Py.ge x y = true.
Proof.
  unfold Py.ge. rewrite FloatAxioms.eqb_spec, leb_spec. apply SFeqb_SFleb.
Qed.

End floats.

Section similarity.

Import RecommendationService.

Lemma not_set_true `{Countable A} (s : gset A) : Py.not_set s = true ↔ s = ∅.
Proof. unfold Py.not_set. apply bool_decide_eq_true. Qed.

Lemma not_set_false `{Countable A} (s : gset A) : Py.not_set s = false ↔ s ≠ ∅.
Proof. unfold Py.not_set. apply bool_decide_eq_false. Qed.

Lemma len_set_zero `{Countable A} (s : gset A) : Py.len_set s = 0 ↔ s = ∅.
Proof.
  unfold Py.len_set. rewrite <- (leibniz_equiv_iff s ∅), <- size_empty_iff. lia.
Qed.

Lemma calculate_interest_similarity_eq (a b : Profile.t) :
  calculate_interest_similarity a b = Ok (common_count a b, jaccard a b).
Proof.
  unfold calculate_interest_similarity, common_count, jaccard.
  fold (combined_interests a) (combined_interests b).
  set (A := combined_interests a). set (B := combined_interests b).
  destruct (decide (A = ∅ ∨ B = ∅)) as [Hempty|Hne].
  - replace (Py.not_set A || Py.not_set B) with true; [done|].
    symmetry. apply orb_true_iff. by rewrite !not_set_true.
  - assert (A ≠ ∅ ∧ B ≠ ∅) as [HA HB] by (split; intros ?; apply Hne; auto).
    rewrite (proj2 (not_set_false A) HA), (proj2 (not_set_false B) HB). simpl.
    assert (A ∪ B ≠ ∅) as HU by set_solver.
    rewrite (proj2 (not_set_false _) HU). simpl.
    unfold Py.truediv.
    assert (Py.len_set (A ∪ B) ≠ 0) as Hlen by (by rewrite len_set_zero).
    apply Z.eqb_neq in Hlen. rewrite Hlen. done.
Qed.

Lemma get_mutual_connections_length (st : Store.t) (a b : Profile.t) :
  Z.of_nat (length (get_mutual_connections st a b)) = mutual_count st a b.
Proof. reflexivity. Qed.

Lemma calculate_activity_similarity_eq (st : Store.t) (a b : Profile.t) :
  calculate_activity_similarity st a b = activity_overlap st a b.
Proof.
  unfold calculate_activity_similarity, activity_overlap, interacted_posts.
  rewrite !(left_id_L ∅ (∪)).
  set (Ia := _ ∪ _). set (Ib := _ ∪ _).
  destruct (Py.not_set Ia || Py.not_set Ib) eqn:E; [|done].
  apply orb_true_iff in E. rewrite !not_set_true in E.
  assert (Ia ∩ Ib = ∅) as ->; [|by rewrite size_empty].
  destruct E as [-> | ->]; [apply (left_absorb_L ∅ (∩)) | apply (right_absorb_L ∅ (∩))].
Qed.

Lemma calculate_recommendation_score_eq (st : Store.t) (a b : Profile.t) :
  calculate_recommendation_score st a b
  = Ok (ScoreData.mk
          (Py.min (Py.int_div_float (mutual_count st a b) 5.0) 1.0 * 0.4
           + jaccard a b * 0.4
           + Py.min (Py.int_div_float (activity_overlap st a b) 10.0) 1.0 * 0.2)%float
          (mutual_count st a b) (common_count a b) (activity_overlap st a b)
          (get_mutual_connections st a b)).
Proof.
  unfold calculate_recommendation_score.
  rewrite calculate_interest_similarity_eq. simpl.
  by rewrite calculate_activity_similarity_eq, get_mutual_connections_length.
Qed.

End similarity.

(** ** Sorting, slicing and the candidate loop *)

Section ranking.

Import RecommendationService.

Context {A : Type}.

Lemma elem_of_insert_stable (before : A → A → bool) (x y : A) (l : list A) :
  x ∈ Py.insert_stable before y l ↔ x = y ∨ x ∈ l.
Proof.
  induction l as [|z l IH]; simpl.
  - rewrite list_elem_of_singleton, elem_of_nil. tauto.
  - destruct (before z y); rewrite !elem_of_cons; [rewrite IH|]; tauto.
Qed.

Lemma elem_of_stable_sort (before : A → A → bool) (x : A) (l : list A) :
  x ∈ Py.stable_sort before l ↔ x ∈ l.
Proof.
  induction l as [|y l IH]; simpl; [done|].
  by rewrite elem_of_insert_stable, IH, elem_of_cons.
Qed.

Lemma length_insert_stable (before : A → A → bool) (y : A) (l : list A) :
  length (Py.insert_stable before y l) = S (length l).
Proof.
  induction l as [|z l IH]; simpl; [done|].
  destruct (before z y); simpl; by rewrite ?IH.
Qed.

Lemma length_stable_sort (before : A → A → bool) (l : list A) :
  length (Py.stable_sort before l) = length l.
Proof.
  induction l as [|y l IH]; simpl; [done|].
  by rewrite length_insert_stable, IH.
Qed.

Lemma stable_sort_nil_inv (before : A → A → bool) (l : list A) :
  Py.stable_sort before l = [] → l = [].
Proof.
  intros Hs. apply (f_equal length) in Hs. rewrite length_stable_sort in Hs.
  by destruct l.
Qed.

Lemma elem_of_slice_to (x : A) (l : list A) (n : Z) :
  x ∈ Py.slice_to l n → x ∈ l.
Proof.
  unfold Py.slice_to. destruct (0 <=? n); intros Hx;
    by apply (subseteq_take _ l) in Hx.
Qed.

Lemma slice_to_all (l : list A) (n : Z) :
  Z.of_nat (length l) ≤ n → Py.slice_to l n = l.
Proof.
  intros Hn. unfold Py.slice_to.
  rewrite (proj2 (Z.leb_le 0 n)) by lia. apply take_ge. lia.
Qed.

Lemma filter_all (P : A → Prop) `{∀ x, Decision (P x)} (l : list A) :
  Forall P l → filter P l = l.
Proof.
  induction 1 as [|x l Hx Hl IH]; [done|].
  by rewrite filter_cons, decide_True, IH.
Qed.

Lemma filter_none (P : A → Prop) `{∀ x, Decision (P x)} (l : list A) :
  Forall (λ x, ¬ P x) l → filter P l = [].
Proof.
  induction 1 as [|x l Hx Hl IH]; [done|].
  by rewrite filter_cons, decide_False, IH.
Qed.

Lemma store_slice_to_pos (l : list A) (n : Z) :
  0 ≤ n → Store.slice_to l n = Ok (take (Z.to_nat n) l).
Proof.
  intros Hn. unfold Store.slice_to. by rewrite (proj2 (Z.ltb_ge n 0)) by lia.
Qed.

Lemma exists_take (l : list A) (n : Z) :
  1 ≤ n → l ≠ [] → Store.exists_ (take (Z.to_nat n) l) = true.
Proof.
  intros Hn Hl. destruct l as [|x l]; [done|].
  destruct (Z.to_nat n) as [|k] eqn:E; [lia|done].
Qed.

Lemma first_take (l : list A) (n : Z) :
  1 ≤ n → Store.first (take (Z.to_nat n) l) = Store.first l.
Proof.
  intros Hn. destruct (Z.to_nat n) as [|k] eqn:E; [lia|]. by destruct l.
Qed.

End ranking.

Section generation.

Import RecommendationService.

Lemma score_candidates_eq (st : Store.t) (u : Profile.t) (min_score : float)
    (cands : list Profile.t) : ∀ acc,
  score_candidates st u min_score cands acc
  = Ok (acc ++ omap (recommend st u min_score) cands).
Proof.
  induction cands as [|c cands IH]; intros acc; simpl.
  - by rewrite app_nil_r.
  - unfold recommend at 1. rewrite calculate_recommendation_score_eq. simpl.
    destruct (Py.ge _ min_score); rewrite IH; [|done].
    by rewrite <- (assoc_L (++)).
Qed.

Lemma generate_recommendations_for_user_eq (st : Store.t) (u : Profile.t)
    (limit : Z) (min_score : float) :
  generate_recommendations_for_user st u limit min_score
  = Ok (Py.slice_to
          (sort_by_score (omap (recommend st u min_score) (candidates st u)))
          limit).
Proof.
  unfold generate_recommendations_for_user. by rewrite score_candidates_eq.
Qed.

Lemma recommend_Some (st : Store.t) (u c : Profile.t) (min_score : float)
    (r : Recommendation.t) :
  recommend st u min_score c = Some r →
  Recommendation.user r = u ∧ Recommendation.recommended_user r = c
  ∧ calculate_recommendation_score st u c
    = Ok (ScoreData.mk (Recommendation.score r)
            (Recommendation.mutual_connections_count r)
            (Recommendation.common_interests_count r)
            (activity_overlap st u c)
            (Recommendation.mutual_connections r))
  ∧ Py.ge (Recommendation.score r) min_score = true.
Proof.
  unfold recommend. rewrite calculate_recommendation_score_eq. simpl.
  destruct (Py.ge _ min_score) eqn:Hge; [|done]. intros [= <-]. done.
Qed.

Lemma refresh_recommendations_eq (st : Store.t) (stamps : nat → Z * Z)
    (u : Profile.t) (limit : Z) :
  0 ≤ limit →
  _refresh_recommendations st stamps u limit
  = let fresh := Py.slice_to
                   (sort_by_score
                      (omap (recommend st u default_min_score) (candidates st u)))
                   limit in
    let st' := cache_recommendations st stamps u fresh in
    (st', Ok (take (Z.to_nat limit) (Store.recommendations_of st' u))).
Proof.
  intros Hl. unfold _refresh_recommendations.
  rewrite generate_recommendations_for_user_eq. simpl.
  by rewrite store_slice_to_pos.
Qed.

(** The rows of an insert *)

Lemma bulk_create_stamped (st : Store.t) (stamps : nat → Z * Z)
    (recs : list Recommendation.t) :
  Store.bulk_create st stamps (to_row <$> recs)
  = Store.with_recommendations st (Store.recommendations st ++ stamped stamps recs).
Proof. unfold Store.bulk_create, stamped. by rewrite imap_fmap. Qed.

Lemma elem_of_stamped (stamps : nat → Z * Z) (recs : list Recommendation.t)
    (r : UserRecommendation.t) :
  r ∈ stamped stamps recs
  ↔ ∃ i rec_data, recs !! i = Some rec_data
                  ∧ r = to_row rec_data (stamps i).1 (stamps i).2.
Proof.
  unfold stamped. rewrite elem_of_lookup_imap. naive_solver.
Qed.

Lemma Forall_stamped (P : UserRecommendation.t → Prop) (stamps : nat → Z * Z)
    (recs : list Recommendation.t) :
  Forall (λ rec_data, ∀ c u, P (to_row rec_data c u)) recs →
  Forall P (stamped stamps recs).
Proof.
  intros Hall. apply Forall_forall. intros r (i & x & Hx & ->)%elem_of_stamped.
  rewrite Forall_forall in Hall. eapply Hall, list_elem_of_lookup_2, Hx.
Qed.

Lemma fmap_stamped {B : Type} (g : UserRecommendation.t → B)
    (h : Recommendation.t → B) (stamps : nat → Z * Z)
    (recs : list Recommendation.t) :
  (∀ rec_data c u, g (to_row rec_data c u) = h rec_data) →
  g <$> stamped stamps recs = h <$> recs.
Proof.
  intros Hg. unfold stamped. rewrite fmap_imap.
  rewrite <- (imap_const h). apply imap_ext. intros i x _. apply Hg.
Qed.

Lemma length_stamped (stamps : nat → Z * Z) (recs : list Recommendation.t) :
  length (stamped stamps recs) = length recs.
Proof. apply length_imap. Qed.

Lemma stamped_nil_inv (stamps : nat → Z * Z) (recs : list Recommendation.t) :
  stamped stamps recs = [] → recs = [].
Proof.
  intros H. apply (f_equal length) in H. rewrite length_stamped in H.
  by destruct recs.
Qed.

Lemma rows_of_cache_recommendations (st : Store.t) (stamps : nat → Z * Z)
    (u : Profile.t) (fresh : list Recommendation.t) :
  Forall (λ r, Recommendation.user r = u) fresh →
  rows_of (cache_recommendations st stamps u fresh) u = stamped stamps fresh.
Proof.
  intros Hu. unfold rows_of, cache_recommendations.
  rewrite bulk_create_stamped. unfold Store.delete_recommendations_of. simpl.
  rewrite filter_app, filter_none, filter_all; [done| |].
  - apply Forall_stamped. eapply Forall_impl; [exact Hu|].
    intros r Hr c t. simpl. by rewrite Hr.
  - apply Forall_forall. intros r Hr Hid.
    by apply list_elem_of_filter in Hr as [Hne _].
Qed.

Lemma others_of_cache_recommendations (st : Store.t) (stamps : nat → Z * Z)
    (u v : Profile.t) (fresh : list Recommendation.t) :
  Forall (λ r, Recommendation.user r = u) fresh →
  Profile.id v ≠ Profile.id u →
  rows_of (cache_recommendations st stamps u fresh) v = rows_of st v.
Proof.
  intros Hu Hv. unfold rows_of, cache_recommendations.
  rewrite bulk_create_stamped. unfold Store.delete_recommendations_of. simpl.
  rewrite filter_app, (filter_none _ (stamped stamps fresh)).
  - rewrite app_nil_r, list_filter_filter. apply list_filter_iff.
    intros r. split; [tauto|]. intros Hr. split; [done|]. congruence.
  - apply Forall_stamped. eapply Forall_impl; [exact Hu|].
    intros r Hr c t. simpl. rewrite Hr. congruence.
Qed.

End generation.

(** ** Tokens are the maximal runs of word characters *)

Section tokens.

Lemma string_app_inv (s1 s2 t1 t2 : string) :
  s1 +:+ s2 = t1 +:+ t2 →
  (∃ k, t1 = s1 +:+ k ∧ s2 = k +:+ t2) ∨ (∃ k, s1 = t1 +:+ k ∧ t2 = k +:+ s2).
Proof.
  revert t1. induction s1 as [|c s1 IH]; intros t1 Heq.
  - left. exists t1. by rewrite !string_app_nil_l in *.
  - destruct t1 as [|d t1].
    + right. exists (String c s1). by rewrite !string_app_nil_l in *.
    + rewrite !string_app_cons in Heq. injection Heq as <- Heq.
      destruct (IH t1 Heq) as [(k & -> & ->)|(k & -> & ->)]; [left|right];
        exists k; by rewrite string_app_cons.
Qed.

Lemma all_chars_app (P : ascii → bool) (s t : string) :
  all_chars P (s +:+ t) = all_chars P s && all_chars P t.
Proof.
  induction s as [|c s IH]; [done|].
  rewrite string_app_cons. simpl. by rewrite IH, andb_assoc.
Qed.

Lemma last_char_app (s t : string) :
  t ≠ "" → last_char (s +:+ t) = last_char t.
Proof.
  intros Ht. induction s as [|c s IH]; [done|].
  rewrite string_app_cons. simpl. rewrite IH.
  destruct (s +:+ t) eqn:E; [|done].
  destruct s; [by rewrite string_app_nil_l in E | done].
Qed.

Lemma last_char_all (P : ascii → bool) (s : string) (c : ascii) :
  all_chars P s = true → last_char s = Some c → P c = true.
Proof.
  induction s as [|d s IH]; [done|]. simpl.
  intros [Hd Hs]%andb_true_iff. destruct s as [|e s]; [by intros [= <-]|].
  by apply IH.
Qed.

Lemma word_not_boundary (w rest : string) :
  w ≠ "" → all_chars Py.is_word_char w = true → ¬ at_word_boundary (w +:+ rest).
Proof.
  destruct w as [|c w]; [done|]. simpl. intros _ [Hc _]%andb_true_iff Hb.
  congruence.
Qed.

(** A run followed by a boundary is determined by the text it starts. *)
Lemma run_unique (w : string) : ∀ (r p q : string),
  all_chars Py.is_word_char w = true → all_chars Py.is_word_char r = true →
  at_word_boundary p → at_word_boundary q →
  w +:+ p = r +:+ q → w = r.
Proof.
  induction w as [|c w IH]; intros r p q Hw Hr Hp Hq Heq.
  - destruct r as [|d r]; [done|]. rewrite string_app_nil_l in Heq. subst p.
    by apply word_not_boundary in Hp.
  - destruct r as [|d r].
    + rewrite string_app_nil_l in Heq. subst q.
      by apply word_not_boundary in Hq.
    + rewrite !string_app_cons in Heq. injection Heq as <- Heq.
      simpl in Hw, Hr. apply andb_true_iff in Hw as [_ Hw].
      apply andb_true_iff in Hr as [_ Hr].
      f_equal. by apply (IH r p q).
Qed.

Lemma maximal_run_empty (w : string) : ¬ maximal_run w "".
Proof.
  intros (pre & post & Heq & Hne & _).
  destruct pre; [|done]. by destruct w.
Qed.

Lemma maximal_run_skip (w : string) (c : ascii) (s : string) :
  Py.is_word_char c = false → maximal_run w (String c s) ↔ maximal_run w s.
Proof.
  intros Hc. split.
  - intros (pre & post & Heq & Hne & Hw & Hpre & Hpost).
    destruct pre as [|d pre].
    + rewrite string_app_nil_l in Heq. destruct w as [|e w]; [done|].
      rewrite string_app_cons in Heq. injection Heq as <- _.
      simpl in Hw. apply andb_true_iff in Hw as [Hw _]. congruence.
    + rewrite string_app_cons in Heq. injection Heq as <- ->.
      exists pre, post. split_and!; [done..| |done].
      intros e He. apply Hpre. simpl. by destruct pre.
  - intros (pre & post & -> & Hne & Hw & Hpre & Hpost).
    exists (String c pre), post. split_and!; [done..| |done].
    intros e. simpl. destruct pre; [by intros [= <-]|]. apply Hpre.
Qed.

Lemma maximal_run_token (w r post : string) :
  r ≠ "" → all_chars Py.is_word_char r = true → at_word_boundary post →
  maximal_run w (r +:+ post) ↔ w = r ∨ maximal_run w post.
Proof.
  intros Hr Hrw Hb. split.
  - intros (pre & post' & Heq & Hne & Hw & Hpre & Hpost).
    apply string_app_inv in Heq as [(k & -> & ->)|(k & -> & Heq)].
    + right. destruct k as [|d k].
      * rewrite string_app_nil_l in Hb. by apply word_not_boundary in Hb.
      * exists (String d k), post'. split_and!; [done..| |done].
        intros e He. apply Hpre. by rewrite last_char_app.
    + left. rewrite all_chars_app in Hrw. apply andb_true_iff in Hrw as [Hp Hk].
      destruct pre as [|d pre].
      * rewrite string_app_nil_l in *. by apply (run_unique w k post' post).
      * destruct (last_char (String d pre)) as [e|] eqn:He.
        -- pose proof (last_char_all _ _ _ Hp He). rewrite (Hpre e) in H; done.
        -- simpl in He. clear -He. exfalso.
           revert d He. induction pre as [|e pre IH]; intros d He; [done|].
           simpl in He. by apply (IH e).
  - intros [->|(pre & post' & -> & Hne & Hw & Hpre & Hpost)].
    + exists "", post. by rewrite string_app_nil_l.
    + destruct pre as [|d pre].
      * rewrite string_app_nil_l in Hb. by apply word_not_boundary in Hb.
      * exists (r +:+ String d pre), post'. split_and!; [|done..| |done].
        -- by rewrite string_app_assoc.
        -- intros e. rewrite last_char_app by done. apply Hpre.
Qed.

(** Every text is empty, starts with a separator, or starts with a run. *)
Lemma leading_run (s : string) :
  s = ""
  ∨ (∃ c s', s = String c s' ∧ Py.is_word_char c = false)
  ∨ (∃ r post, s = r +:+ post ∧ r ≠ "" ∧ all_chars Py.is_word_char r = true
               ∧ at_word_boundary post
               ∧ (String.length post < String.length s)%nat).
Proof.
  induction s as [|c s IH]; [by left|]. right.
  destruct (Py.is_word_char c) eqn:Hc; [right|left; by exists c, s].
  destruct IH as [->|[(d & s' & -> & Hd)|(r & post & -> & Hr & Hw & Hb & Hlen)]].
  - exists (String c ""), "". split_and!; simpl; rewrite ?Hc; (done || lia).
  - exists (String c ""), (String d s').
    split_and!; simpl; rewrite ?Hc; (done || lia).
  - exists (String c r), post. split_and!; simpl; rewrite ?Hc; (done || lia).
Qed.

Lemma findall_words_maximal_runs (s w : string) :
  w ∈ Py.findall_words s ↔ maximal_run w s.
Proof.
  remember (String.length s) as n eqn:Hn. revert s Hn.
  induction (lt_wf n) as [n _ IH]. intros s ->.
  destruct (leading_run s)
    as [->|[(c & s' & -> & Hc)|(r & post & -> & Hr & Hw & Hb & Hlen)]].
  - split; [by intros ?%elem_of_nil | by intros ?%maximal_run_empty].
  - rewrite findall_words_skip, maximal_run_skip by done.
    apply (IH (String.length s')); [simpl; lia | done].
  - rewrite findall_words_token, maximal_run_token, elem_of_cons by done.
    by rewrite (IH (String.length post) Hlen post).
Qed.

(** On text without underscores the word characters are the letters and
    the digits. *)

Lemma is_word_char_alnum (c : ascii) :
  Py.is_word_char c = is_alnum c || Ascii.eqb c "_".
Proof. by destruct c as [[] [] [] [] [] [] [] []]. Qed.

Lemma underscore_free_word (w : string) :
  underscore_free w → all_chars Py.is_word_char w = all_chars is_alnum w.
Proof.
  unfold underscore_free. induction w as [|c w IH]; [done|]. simpl.
  intros [Hc Hw]%andb_true_iff. rewrite IH by done.
  rewrite is_word_char_alnum. apply negb_true_iff in Hc. by rewrite Hc, orb_false_r.
Qed.

Lemma underscore_free_app (s t : string) :
  underscore_free (s +:+ t) ↔ underscore_free s ∧ underscore_free t.
Proof. unfold underscore_free. rewrite all_chars_app. apply andb_true_iff. Qed.

Lemma first_char_all (P : ascii → bool) (s : string) (c : ascii) :
  all_chars P s = true → first_char s = Some c → P c = true.
Proof. destruct s as [|d s]; [done|]. simpl. by intros [Hd _]%andb_true_iff [= <-]. Qed.

Lemma underscore_free_char (P : string → option ascii) (s : string) (c : ascii) :
  (∀ t d, all_chars (λ c, negb (Ascii.eqb c "_")) t = true → P t = Some d →
          negb (Ascii.eqb d "_") = true) →
  underscore_free s → P s = Some c → Py.is_word_char c = is_alnum c.
Proof.
  intros HP Hs Hc. rewrite is_word_char_alnum.
  specialize (HP s c Hs Hc). apply negb_true_iff in HP. by rewrite HP, orb_false_r.
Qed.

Lemma maximal_run_alnum (w s : string) :
  underscore_free s → maximal_run w s ↔ alnum_run w s.
Proof.
  intros Hs. unfold maximal_run, alnum_run, at_word_boundary.
  split; intros (pre & post & -> & Hne & Hw & Hpre & Hpost); exists pre, post;
    apply underscore_free_app in Hs as [Hfpre [Hfw Hfpost]%underscore_free_app];
    rewrite underscore_free_word in * by done; split_and!; try done.
  - intros c Hc. rewrite <- (underscore_free_char last_char pre c); auto.
    intros t d. apply last_char_all.
  - intros c Hc. rewrite <- (underscore_free_char first_char post c); auto.
    + destruct post as [|d post]; [done|]. by injection Hc as <-.
    + intros t d. apply first_char_all.
  - intros c Hc. rewrite (underscore_free_char last_char pre c); auto.
    intros t d. apply last_char_all.
  - destruct post as [|d post]; [done|].
    rewrite (underscore_free_char first_char (String d post) d); auto.
    intros t e. apply first_char_all.
Qed.

Lemma lower_char_underscore (c : ascii) :
  Ascii.eqb (Py.lower_char c) "_" = Ascii.eqb c "_".
Proof. by destruct c as [[] [] [] [] [] [] [] []]. Qed.

Lemma lower_underscore_free (s : string) :
  underscore_free s → underscore_free (Py.lower s).
Proof.
  unfold underscore_free. induction s as [|c s IH]; [done|]. simpl.
  intros [Hc Hs]%andb_true_iff. by rewrite lower_char_underscore, Hc, IH.
Qed.

Lemma lower_char_ascii (c : ascii) :
  (Py.code (Py.lower_char c) <? 128)%nat = (Py.code c <? 128)%nat.
Proof. by destruct c as [[] [] [] [] [] [] [] []]. Qed.

Lemma lower_ascii_text (s : string) : ascii_text s → ascii_text (Py.lower s).
Proof.
  unfold ascii_text. induction s as [|c s IH]; [done|]. simpl.
  intros [Hc Hs]%andb_true_iff. by rewrite lower_char_ascii, Hc, IH.
Qed.

End tokens.

(** ** Counting the mutual connections *)

Section counting.

Lemma length_filter_ids (l : list Profile.t) (ids : gset Z) :
  NoDup (Profile.id <$> l) →
  length (filter (λ p, Profile.id p ∈ ids) l)
  = size (ids ∩ list_to_set (Profile.id <$> l)).
Proof.
  induction l as [|p l IH]; intros Hnd.
  - simpl. by rewrite (right_absorb_L ∅ (∩)), size_empty.
  - rewrite fmap_cons in Hnd. apply NoDup_cons in Hnd as [Hp Hnd].
    rewrite filter_cons, fmap_cons, list_to_set_cons.
    destruct (decide (Profile.id p ∈ ids)) as [Hin|Hout].
    + rewrite length_cons, (IH Hnd).
      assert (ids ∩ ({[Profile.id p]} ∪ list_to_set (Profile.id <$> l))
              = {[Profile.id p]} ∪ (ids ∩ list_to_set (Profile.id <$> l)))
        as -> by set_solver.
      rewrite (size_union (C:=gset Z) {[Profile.id p]});
        [by rewrite size_singleton|].
      apply disjoint_singleton_l. rewrite elem_of_intersection, elem_of_list_to_set.
      tauto.
    + rewrite (IH Hnd). f_equal. set_solver.
Qed.

Lemma followees_stored (st : Store.t) (x : Profile.t) :
  referential_integrity st → followees st x ⊆ profile_ids st.
Proof.
  intros [_ Hfk] i. unfold followees, Store.following_ids.
  rewrite elem_of_list_to_set, list_elem_of_fmap.
  intros (c & -> & Hc%list_elem_of_filter). apply Hfk, Hc.
Qed.

Lemma mutual_count_size (st : Store.t) (a b : Profile.t) :
  referential_integrity st →
  mutual_count st a b = Z.of_nat (size (followees st a ∩ followees st b)).
Proof.
  intros Hri. unfold mutual_count. rewrite length_filter_ids by apply Hri.
  do 2 f_equal. apply (followees_stored st a) in Hri.
  unfold profile_ids in Hri. set_solver.
Qed.

End counting.

(** ** The examples of the docstrings *)

Section examples.

Import RecommendationService.

Example interests_list_docstring :
  Profile.get_interests_list Docstring.spaced = ["photography"; "travel"; "cooking"].
Proof. by vm_compute. Qed.

Example split_keeps_empty_pieces : Py.split "," "a,,b ," = ["a"; ""; "b "; ""].
Proof. by vm_compute. Qed.

Example findall_words_underscore :
  Py.findall_words "foo_bar baz-qux" = ["foo_bar"; "baz"; "qux"].
Proof. by vm_compute. Qed.

(** Two common entries out of seven. *)
Example interest_similarity_docstring :
  calculate_interest_similarity Docstring.user_a Docstring.user_b
  = Ok (2, PrimFloat.div 2 7)
  ∧ within (1 # 1000) (286 # 1000) (PrimFloat.div 2 7) = true.
Proof. split; by vm_compute. Qed.

(** A sliced queryset of length zero has no rows: with [limit = 0] the
    cache is not consulted and the refresh replaces the user's rows by the
    empty result. *)
Example zero_limit_bypasses_cache (stamps : nat → Z * Z) :
  get_recommendations_for_user Scenario.cached (timedelta_days 1) stamps
    Scenario.A 0 true false
  = (Store.with_recommendations Scenario.cached [], Ok []).
Proof. by vm_compute. Qed.

(** A negative [limit] is refused by the queryset slice. *)
Example negative_limit_raises (stamps : nat → Z * Z) :
  get_recommendations_for_user Scenario.cached (timedelta_days 1) stamps
    Scenario.A (-1) true true
  = (Scenario.cached, Raise NegativeIndexingError).
Proof. by vm_compute. Qed.

(** Equal scores keep the order of the candidates; higher scores come
    first. *)
Example sort_is_stable_and_descending :
  Py.stable_sort (λ y x : Z * string, x.1 <? y.1)
    [(1, "a"); (3, "b"); (1, "c"); (3, "d"); (2, "e")]
  = [(3, "b"); (3, "d"); (2, "e"); (1, "a"); (1, "c")].
Proof. by vm_compute. Qed.

End examples.

(** * The claims *)

Section claims.

Import RecommendationService.

(** C5.  [calculate_interest_similarity] always returns a value (it never
    raises, in particular no [ZeroDivisionError]): when the combined
    interest set of either user is empty the value is [(0, 0.0)]; otherwise
    the union of the two sets is not empty and the value is
    [(|A ∩ B|, |A ∩ B| / |A ∪ B|)], the quotient being taken in binary64. *)
Theorem interest_similarity_defined (a b : Profile.t) :
  (combined_interests a = ∅ ∨ combined_interests b = ∅ →
     calculate_interest_similarity a b = Ok (0, 0.0%float))
  ∧ (combined_interests a ≠ ∅ ∧ combined_interests b ≠ ∅ →
       size (combined_interests a ∪ combined_interests b) ≠ 0%nat
       ∧ calculate_interest_similarity a b
         = Ok (Z.of_nat (size (combined_interests a ∩ combined_interests b)),
               PrimFloat.div
                 (Py.float_of_int
                    (Z.of_nat (size (combined_interests a ∩ combined_interests b))))
                 (Py.float_of_int
                    (Z.of_nat (size (combined_interests a ∪ combined_interests b)))))).
Proof.
  rewrite calculate_interest_similarity_eq.
  unfold common_count, jaccard.
  set (A := combined_interests a). set (B := combined_interests b). split.
  - intros Hempty. by destruct (decide (A = ∅ ∨ B = ∅)).
  - intros [HA HB]. split.
    + rewrite size_non_empty_iff. intros HU. apply HA.
      apply leibniz_equiv. apply (empty_union A B) in HU. tauto.
    + destruct (decide (A = ∅ ∨ B = ∅)); [tauto|done].
Qed.

(** C6.  Interest similarity and mutual connections are symmetric in the
    two users: both components of the similarity agree, and the mutual
    connections are the same profiles. *)
Theorem similarity_symmetric (st : Store.t) (a b : Profile.t) :
  calculate_interest_similarity a b = calculate_interest_similarity b a
  ∧ get_mutual_connections st a b = get_mutual_connections st b a.
Proof.
  split.
  - unfold calculate_interest_similarity.
    set (A := _ ∪ list_to_set (Profile.get_bio_keywords a)).
    set (B := _ ∪ list_to_set (Profile.get_bio_keywords b)).
    by rewrite (orb_comm (Py.not_set A)), (comm_L (∩) A B), (comm_L (∪) A B).
  - unfold get_mutual_connections.
    by rewrite (comm_L (∩) (list_to_set (Store.following_ids st a))).
Qed.


(** C1.  The total score is
    [0.4 * min(mutualCount / 5.0, 1.0) + 0.4 * jaccard
     + 0.2 * min(activityOverlap / 10.0, 1.0)], every operation being the
    binary64 one.  [mutualCount] is the number of mutual connections (the
    size of F(a) ∩ F(b) in a store that respects its foreign keys),
    [jaccard] the coefficient returned by [calculate_interest_similarity]
    and [activityOverlap] the number of posts both users interacted with.
    With exactly one mutual connection the first term is the product
    [0.2 * 0.4], which is 0.08 up to the rounding of binary64. *)
Theorem score_formula (st : Store.t) (a b : Profile.t) :
  ∃ sd : ScoreData.t,
    calculate_recommendation_score st a b = Ok sd
    ∧ ScoreData.mutual_connections sd = get_mutual_connections st a b
    ∧ ScoreData.mutual_connections_count sd
      = Z.of_nat (length (get_mutual_connections st a b))
    ∧ (referential_integrity st →
         ScoreData.mutual_connections_count sd
         = Z.of_nat (size (followees st a ∩ followees st b)))
    ∧ calculate_interest_similarity a b
      = Ok (ScoreData.common_interests_count sd, jaccard a b)
    ∧ ScoreData.activity_similarity sd = activity_overlap st a b
    ∧ ScoreData.total_score sd
      = (0.4 * Py.min (Py.int_div_float (ScoreData.mutual_connections_count sd) 5.0) 1.0
         + 0.4 * jaccard a b
         + 0.2 * Py.min (Py.int_div_float (ScoreData.activity_similarity sd) 10.0) 1.0)%float
    ∧ (ScoreData.mutual_connections_count sd = 1 →
         (0.4 * Py.min (Py.int_div_float (ScoreData.mutual_connections_count sd) 5.0) 1.0
          = 0.2 * 0.4)%float
         ∧ within (1 # 2 ^ 55) (8 # 100) (0.2 * 0.4)%float = true).
Proof.
  eexists. split; [apply calculate_recommendation_score_eq|]. simpl.
  split_and!; try done.
  - apply mutual_count_size.
  - apply calculate_interest_similarity_eq.
  - by rewrite !(float_mul_comm _ 0.4), (float_mul_comm _ 0.2).
  - intros ->. split; [|by vm_compute]. by vm_compute.
Qed.

(** The scenario of the specification: A follows X and Y, B follows X and
    Z'; X is the one mutual connection and the total is the first term. *)
Lemma score_formula_witness :
  get_mutual_connections Scenario.follows Scenario.A Scenario.B = [Scenario.X]
  ∧ ScoreData.total_score
      <$> calculate_recommendation_score Scenario.follows Scenario.A Scenario.B
    = Ok (0.2 * 0.4)%float.
Proof.
  split; [by vm_compute|].
  destruct (score_formula Scenario.follows Scenario.A Scenario.B)
    as (sd & Hsd & _ & Hcount & _ & Hsim & Hact & Htotal & Hone).
  rewrite Hsd. simpl. f_equal. rewrite Htotal.
  assert (ScoreData.mutual_connections_count sd = 1) as H1
    by (rewrite Hcount; by vm_compute).
  destruct (Hone H1) as [-> _].
  assert (jaccard Scenario.A Scenario.B = 0.0%float) as -> by (by vm_compute).
  rewrite Hact.
  by vm_compute.
Defined.

Lemma elem_of_followees (st : Store.t) (x y : Profile.t) :
  Profile.id y ∈ followees st x ↔ follows_edge st x y.
Proof.
  unfold followees, follows_edge, Store.following_ids.
  rewrite elem_of_list_to_set, list_elem_of_fmap. split.
  - intros ([f g] & Hg & Hin). apply list_elem_of_filter in Hin as [Hf Hin].
    simpl in *. by subst.
  - intros Hin. exists (Connection.mk (Profile.id x) (Profile.id y)).
    split; [done|]. by apply list_elem_of_filter.
Qed.

(** C2 (as amended).  [get_mutual_connections] is a total function of the
    store: it returns the stored profiles whose identifier lies in
    F(a) ∩ F(b), whatever edges the store holds.  The user [a] (or any
    profile with its identifier) is in the result exactly when it is stored,
    [a] follows itself and [b] follows [a], and likewise for [b]; so the
    result contains neither user when neither has a self-follow edge. *)
Theorem mutual_connections_intersection (st : Store.t) (a b : Profile.t) :
  (∀ p, p ∈ get_mutual_connections st a b
        ↔ p ∈ Store.profiles st ∧ Profile.id p ∈ followees st a ∩ followees st b)
  ∧ (∀ p, Profile.id p = Profile.id a →
          (p ∈ get_mutual_connections st a b
           ↔ p ∈ Store.profiles st ∧ follows_edge st a a ∧ follows_edge st b a))
  ∧ (∀ p, Profile.id p = Profile.id b →
          (p ∈ get_mutual_connections st a b
           ↔ p ∈ Store.profiles st ∧ follows_edge st a b ∧ follows_edge st b b))
  ∧ (¬ follows_edge st a a ∧ ¬ follows_edge st b b →
       ∀ p, p ∈ get_mutual_connections st a b →
            Profile.id p ≠ Profile.id a ∧ Profile.id p ≠ Profile.id b).
Proof.
  assert (Hmem : ∀ p, p ∈ get_mutual_connections st a b
        ↔ p ∈ Store.profiles st ∧ Profile.id p ∈ followees st a ∩ followees st b).
  { intros p. unfold get_mutual_connections, Store.profiles_with_id_in.
    rewrite list_elem_of_filter. fold (followees st a) (followees st b). tauto. }
  assert (Hedge : ∀ p q : Profile.t, Profile.id p = Profile.id q →
            ∀ x, Profile.id p ∈ followees st x ↔ follows_edge st x q).
  { intros p q Hid x. rewrite Hid. apply elem_of_followees. }
  split_and!.
  - exact Hmem.
  - intros p Hid. rewrite Hmem, elem_of_intersection, !(Hedge p a Hid). tauto.
  - intros p Hid. rewrite Hmem, elem_of_intersection, !(Hedge p b Hid). tauto.
  - intros [Ha Hb] p Hp. apply Hmem in Hp as [_ Hp].
    apply elem_of_intersection in Hp as [Hpa Hpb]. split; intros Hid.
    + apply Ha. by apply (Hedge p a Hid).
    + apply Hb. by apply (Hedge p b Hid).
Qed.

(** C2 fails as stated: with the edges A → A and B → A the mutual
    connections of A and B are [A] itself. *)
Lemma mutual_connections_contains_self :
  get_mutual_connections Scenario.self_follow Scenario.A Scenario.B = [Scenario.A]
  ∧ ¬ (∀ p, p ∈ get_mutual_connections Scenario.self_follow Scenario.A Scenario.B →
            Profile.id p ≠ Profile.id Scenario.A ∧ Profile.id p ≠ Profile.id Scenario.B).
Proof.
  assert (get_mutual_connections Scenario.self_follow Scenario.A Scenario.B
          = [Scenario.A]) as Hres by (by vm_compute).
  split; [done|]. intros Hno. rewrite Hres in Hno.
  destruct (Hno Scenario.A) as [Hne _]; [by apply list_elem_of_singleton|].
  by apply Hne.
Qed.


(** C3 (as amended).  For an ASCII bio without underscores,
    [get_bio_keywords] lower-cases the bio, cuts it into the maximal runs
    of letters and digits, and keeps, in order and with repetitions, the
    runs that are longer than two characters and are not stop words.  The
    stop list holds "love" but not "loves": for the bio
    "I am a photographer who loves travel and food" the result is
    photographer, loves, travel, food. *)
Theorem bio_keywords_spec :
  (∀ p, ascii_text (Profile.bio p) → underscore_free (Profile.bio p) →
        Profile.get_bio_keywords p
        = filter meaningful (Py.findall_words (Py.lower (Profile.bio p)))
        ∧ all_chars (λ c, negb (Py.is_upper c)) (Py.lower (Profile.bio p)) = true
        ∧ ∀ w, w ∈ Py.findall_words (Py.lower (Profile.bio p))
               ↔ alnum_run w (Py.lower (Profile.bio p)))
  ∧ (∀ w, meaningful w ↔ (2 < String.length w)%nat ∧ (w ∉ Profile.common_words))
  ∧ Py.findall_words "" = []
  ∧ (∀ c s, ascii_text (String c s) → underscore_free (String c s) →
            is_alnum c = false →
            Py.findall_words (String c s) = Py.findall_words s)
  ∧ (∀ w rest, ascii_text (w +:+ rest) → underscore_free (w +:+ rest) →
               w ≠ "" → all_chars is_alnum w = true →
               (∀ c, first_char rest = Some c → is_alnum c = false) →
               Py.findall_words (w +:+ rest) = w :: Py.findall_words rest)
  ∧ "love" ∈ Profile.common_words
  ∧ ("loves" ∉ Profile.common_words)
  ∧ Forall (λ w, w ∈ Profile.common_words) ["who"; "and"; "am"; "i"; "a"]
  ∧ ascii_text (Profile.bio Scenario.photographer)
  ∧ underscore_free (Profile.bio Scenario.photographer)
  ∧ Profile.get_bio_keywords Scenario.photographer
    = ["photographer"; "loves"; "travel"; "food"].
Proof.
  split_and!.
  - intros p _ Hfree. split_and!.
    + apply get_bio_keywords_eq.
    + apply lower_no_upper.
    + intros w. rewrite findall_words_maximal_runs.
      by apply maximal_run_alnum, lower_underscore_free.
  - done.
  - done.
  - intros c s _ [Hc _]%andb_true_iff Halnum. apply findall_words_skip.
    apply negb_true_iff in Hc. by rewrite is_word_char_alnum, Halnum, Hc.
  - intros w rest _ [Hw Hrest]%underscore_free_app Hne Halnum Hnext.
    apply findall_words_token; [done|by rewrite underscore_free_word|].
    destruct rest as [|c rest]; [done|]. simpl.
    apply andb_true_iff in Hrest as [Hc _]. apply negb_true_iff in Hc.
    by rewrite is_word_char_alnum, (Hnext c eq_refl), Hc.
  - by apply (bool_decide_eq_true_1 _); vm_compute.
  - by apply (bool_decide_eq_false_1 _); vm_compute.
  - repeat constructor; by apply (bool_decide_eq_true_1 _); vm_compute.
  - by vm_compute.
  - by vm_compute.
  - by vm_compute.
Qed.

Lemma bio_keywords_spec_witness :
  ascii_text (Profile.bio Scenario.photographer)
  ∧ underscore_free (Profile.bio Scenario.photographer)
  ∧ Profile.get_bio_keywords Scenario.photographer
    = filter meaningful
        (Py.findall_words (Py.lower (Profile.bio Scenario.photographer)))
  ∧ ("loves" ∈ Py.findall_words (Py.lower (Profile.bio Scenario.photographer))
     ↔ alnum_run "loves" (Py.lower (Profile.bio Scenario.photographer))).
Proof.
  assert (ascii_text (Profile.bio Scenario.photographer)) as Hascii
    by reflexivity.
  assert (underscore_free (Profile.bio Scenario.photographer)) as Hfree
    by reflexivity.
  destruct (proj1 bio_keywords_spec Scenario.photographer Hascii Hfree)
    as (Heq & _ & Hruns).
  exact (conj Hascii (conj Hfree (conj Heq (Hruns "loves")))).
Defined.

(** C3 fails as stated: "loves" is not filtered out of the scenario's bio,
    so the keywords are not the three-element set of the specification. *)
Lemma bio_keywords_keeps_loves :
  "loves" ∈ Profile.get_bio_keywords Scenario.photographer
  ∧ (list_to_set (Profile.get_bio_keywords Scenario.photographer) : gset string)
    ≠ {[ "photographer"; "travel"; "food" ]}.
Proof.
  assert (Profile.get_bio_keywords Scenario.photographer
          = ["photographer"; "loves"; "travel"; "food"]) as -> by (by vm_compute).
  split.
  - apply list_elem_of_In. simpl. tauto.
  - by apply (bool_decide_eq_false_1 _); vm_compute.
Qed.

(** C4 (as amended).  For an ASCII field, [get_interests_list] splits the
    field on commas, strips white space from both ends of every piece,
    lower-cases it and drops the empty results.  It returns a list: the
    pieces keep the order of the input and a repeated interest is repeated
    in the result; the duplicates collapse only where a caller turns the
    list into a set.  For "Photography, Travel, " the result is
    photography, travel. *)
Theorem interests_list_spec :
  (∀ p, ascii_text (Profile.interests p) →
        Profile.get_interests_list p
        = filter (λ s, s ≠ "") (clean <$> Py.split "," (Profile.interests p)))
  ∧ (∀ s, ascii_text s →
          Py.join "," (Py.split "," s) = s
          ∧ Forall (λ w, all_chars (λ c, negb (Ascii.eqb c ",")) w = true)
               (Py.split "," s))
  ∧ (∀ s, ascii_text s →
          clean s = Py.lower (Py.strip s)
          ∧ (∃ l r, s = l +:+ Py.strip s +:+ r
                    ∧ all_chars Py.is_space l = true
                    ∧ all_chars Py.is_space r = true)
          ∧ trimmed (clean s)
          ∧ all_chars (λ c, negb (Py.is_upper c)) (clean s) = true)
  ∧ (∀ p x, x ∈ (list_to_set (Profile.get_interests_list p) : gset string)
            ↔ x ∈ Profile.get_interests_list p)
  ∧ ascii_text (Profile.interests Scenario.photographer)
  ∧ Profile.get_interests_list Scenario.photographer = ["photography"; "travel"]
  ∧ ascii_text (Profile.interests Scenario.traveller)
  ∧ Profile.get_interests_list Scenario.traveller = ["travel"; "travel"].
Proof.
  split_and!.
  - intros p _. apply get_interests_list_eq.
  - intros s _. split; [apply split_join | apply split_pieces].
  - intros s _. split_and!; [done|apply strip_spec|apply clean_spec..].
  - intros p x. apply elem_of_list_to_set.
  - by vm_compute.
  - by vm_compute.
  - by vm_compute.
  - by vm_compute.
Qed.

Lemma interests_list_spec_witness :
  Profile.get_interests_list Scenario.traveller
  = filter (λ s, s ≠ "") (clean <$> Py.split "," (Profile.interests Scenario.traveller)).
Proof.
  apply (proj1 interests_list_spec Scenario.traveller). by vm_compute.
Defined.

(** C4 fails as stated: a repeated interest is returned twice. *)
Lemma interests_list_keeps_duplicates :
  Profile.interests Scenario.traveller = "travel, Travel"
  ∧ ¬ NoDup (Profile.get_interests_list Scenario.traveller).
Proof.
  split; [done|].
  assert (Profile.get_interests_list Scenario.traveller = ["travel"; "travel"])
    as -> by (by vm_compute).
  intros Hnd. apply NoDup_cons in Hnd as [Hnotin _].
  apply Hnotin, list_elem_of_singleton. done.
Qed.

(** C8.  The explanation is "Based on " followed by the clauses joined by
    ", ", in the order mutual connections, common interests, activity; a
    count clause is present when the count is positive and takes an "s"
    unless the count is 1; with no clause the text is
    "Based on your network". *)
Theorem reason_spec (sd : ScoreData.t) :
  generate_recommendation_reason sd
  = match clauses sd with
    | [] => "Based on your network"
    | cs => "Based on " +:+ Py.join ", " cs
    end
  ∧ generate_recommendation_reason (ScoreData.mk 0.0 1 3 0 [])
    = "Based on 1 mutual connection, 3 common interests"
  ∧ generate_recommendation_reason (ScoreData.mk 0.0 2 1 4 [])
    = "Based on 2 mutual connections, 1 common interest, similar activity patterns"
  ∧ generate_recommendation_reason (ScoreData.mk 0.0 0 0 0 [])
    = "Based on your network".
Proof.
  split_and!; [|by vm_compute..].
  unfold generate_recommendation_reason, clauses, counted, pluralized.
  destruct sd as [t m c a l]. simpl.
  assert (Hs : ∀ x : string, x +:+ "" = x) by apply string_app_nil_r.
  destruct (decide (0 < m)) as [Hm|Hm];
    [rewrite (proj2 (Z.ltb_lt 0 m) Hm) | rewrite (proj2 (Z.ltb_ge 0 m)) by lia];
  (destruct (decide (0 < c)) as [Hc|Hc];
    [rewrite (proj2 (Z.ltb_lt 0 c) Hc) | rewrite (proj2 (Z.ltb_ge 0 c)) by lia]);
  (destruct (decide (0 < a)) as [Ha|Ha];
    [rewrite (proj2 (Z.ltb_lt 0 a) Ha) | rewrite (proj2 (Z.ltb_ge 0 a)) by lia]);
  simpl; try done;
  repeat match goal with
         | |- context [decide (?n = 1)] =>
             destruct (decide (n = 1)) as [->|?];
             [ rewrite ?bool_decide_eq_false_2 by (intros H; by apply H)
             | rewrite ?(bool_decide_eq_true_2 (n ≠ 1)) by done ]
         end;
  rewrite ?Hs, ?string_app_assoc; reflexivity.
Qed.


(** C7.  [generate_recommendations_for_user] returns a list, and every
    entry of it has a score [>= min_score].  The test is inclusive: a
    candidate whose total equals [min_score] is appended by the loop, and it
    is in the result whenever the entries that passed number at most
    [limit]. *)
Theorem threshold_invariant (st : Store.t) (u : Profile.t) (limit : Z)
    (min_score : float) :
  ∃ kept recs,
    score_candidates st u min_score (candidates st u) [] = Ok kept
    ∧ recs = Py.slice_to (sort_by_score kept) limit
    ∧ generate_recommendations_for_user st u limit min_score = Ok recs
    ∧ (∀ r, r ∈ recs → Py.ge (Recommendation.score r) min_score = true)
    ∧ (∀ c sd, c ∈ candidates st u →
         calculate_recommendation_score st u c = Ok sd →
         PrimFloat.eqb (ScoreData.total_score sd) min_score = true →
         ∃ r, r ∈ kept
              ∧ Recommendation.recommended_user r = c
              ∧ Recommendation.score r = ScoreData.total_score sd
              ∧ (Z.of_nat (length kept) ≤ limit → r ∈ recs)).
Proof.
  exists (omap (recommend st u min_score) (candidates st u)). eexists.
  split_and!.
  - by rewrite score_candidates_eq.
  - reflexivity.
  - apply generate_recommendations_for_user_eq.
  - intros r Hr. apply elem_of_slice_to, elem_of_stable_sort in Hr.
    apply list_elem_of_omap in Hr as (c & _ & Hc).
    by apply recommend_Some in Hc as (_ & _ & _ & Hge).
  - intros c sd Hc Hsd Heq. apply float_eqb_ge in Heq.
    assert (∃ r, recommend st u min_score c = Some r
                 ∧ Recommendation.recommended_user r = c
                 ∧ Recommendation.score r = ScoreData.total_score sd)
      as (r & Hr & Hc' & Hs).
    { unfold recommend. rewrite Hsd, Heq. by eexists. }
    exists r. split_and!; [|done..|].
    + apply list_elem_of_omap. by exists c.
    + intros Hlen. rewrite slice_to_all.
      * apply elem_of_stable_sort, list_elem_of_omap. by exists c.
      * unfold sort_by_score. by rewrite length_stable_sort.
Qed.


Lemma generated_for_user (st : Store.t) (u : Profile.t) (limit : Z)
    (min_score : float) (fresh : list Recommendation.t) :
  generate_recommendations_for_user st u limit min_score = Ok fresh →
  Forall (λ r, Recommendation.user r = u) fresh.
Proof.
  rewrite generate_recommendations_for_user_eq. intros [= <-].
  apply Forall_forall. intros r Hr.
  apply elem_of_slice_to, elem_of_stable_sort in Hr.
  apply list_elem_of_omap in Hr as (c & _ & Hc).
  by apply recommend_Some in Hc as (? & _).
Qed.

Lemma stale_not_later (now : Z) (r : UserRecommendation.t) :
  is_stale now r = true → ¬ now ≤ UserRecommendation.updated_at r.
Proof.
  unfold is_stale, timedelta_days. intros Hs%Z.ltb_lt. lia.
Qed.

(** C9 (as amended).  With [use_cache] set, a [limit] of at least 1, and
    cached rows for the user that are all older than seven days (by
    [updated_at]): if [refresh_if_old] is set the call generates fresh
    recommendations, replaces the user's rows by them (each stamped with
    the readings its insert takes) and returns the new rows; if it is not
    set the call returns the stale rows, cut to [limit], and leaves the
    store as it is.  The store changes exactly when [refresh_if_old] is
    set; for this the clock is taken not to run backwards between the
    staleness test and the insert. *)
Theorem stale_cache_refresh (st : Store.t) (now : Z) (stamps : nat → Z * Z)
    (u : Profile.t) (limit : Z) (refresh_if_old : bool) :
  1 ≤ limit →
  Store.recommendations_of st u ≠ [] →
  (∀ r, r ∈ Store.recommendations_of st u → is_stale now r = true) →
  ∃ fresh,
    generate_recommendations_for_user st u limit default_min_score = Ok fresh
    ∧ get_recommendations_for_user st now stamps u limit true refresh_if_old
      = (if refresh_if_old
         then (cache_recommendations st stamps u fresh,
               Ok (take (Z.to_nat limit)
                     (Store.recommendations_of
                        (cache_recommendations st stamps u fresh) u)))
         else (st, Ok (take (Z.to_nat limit) (Store.recommendations_of st u))))
    ∧ rows_of (cache_recommendations st stamps u fresh) u = stamped stamps fresh
    ∧ ((∀ i, now ≤ (stamps i).2) →
       ((get_recommendations_for_user st now stamps u limit true refresh_if_old).1
        = st
        ↔ refresh_if_old = false)).
Proof.
  intros Hlimit Hexists Hstale.
  eexists. split; [apply generate_recommendations_for_user_eq|].
  set (fresh := Py.slice_to _ limit).
  assert (Hfresh : Forall (λ r, Recommendation.user r = u) fresh).
  { eapply generated_for_user, generate_recommendations_for_user_eq. }
  assert (Hrows : rows_of (cache_recommendations st stamps u fresh) u
                  = stamped stamps fresh)
    by (by apply rows_of_cache_recommendations).
  assert (Hcall :
      get_recommendations_for_user st now stamps u limit true refresh_if_old
      = (if refresh_if_old
         then (cache_recommendations st stamps u fresh,
               Ok (take (Z.to_nat limit)
                     (Store.recommendations_of
                        (cache_recommendations st stamps u fresh) u)))
         else (st, Ok (take (Z.to_nat limit) (Store.recommendations_of st u))))).
  { unfold get_recommendations_for_user.
    rewrite store_slice_to_pos, exists_take, first_take by (done || lia).
    destruct refresh_if_old; [|done].
    destruct (Store.recommendations_of st u) as [|latest rest] eqn:E; [done|].
    simpl. rewrite Hstale by apply list_elem_of_here.
    by rewrite refresh_recommendations_eq by lia. }
  split_and!; [done..|]. intros Hclock.
  rewrite Hcall. destruct refresh_if_old; simpl; [|done].
  split; [|done]. intros Hsame. exfalso.
  destruct (Store.recommendations_of st u) as [|r0 rest] eqn:E; [done|].
  assert (Hr0 : r0 ∈ Store.recommendations_of st u) by (rewrite E; apply list_elem_of_here).
  apply (stale_not_later now r0); [apply Hstale, list_elem_of_here|].
  apply elem_of_stable_sort in Hr0. fold (rows_of st u) in Hr0.
  rewrite <- Hsame, Hrows in Hr0.
  apply elem_of_stamped in Hr0 as (i & x & _ & ->). apply Hclock.
Qed.

(** A stale cache: the row of [Scenario.cached] is eight days old. *)
Lemma stale_cache_refresh_witness :
  (get_recommendations_for_user Scenario.cached (timedelta_days 8)
     (λ i, (timedelta_days 8 + Z.of_nat i, timedelta_days 8 + Z.of_nat i))
     Scenario.A 10 true false).1 = Scenario.cached
  ∧ (get_recommendations_for_user Scenario.cached (timedelta_days 8)
       (λ i, (timedelta_days 8 + Z.of_nat i, timedelta_days 8 + Z.of_nat i))
       Scenario.A 10 true true).1 ≠ Scenario.cached.
Proof.
  assert (H10 : 1 ≤ 10) by lia.
  assert (Hex : Store.recommendations_of Scenario.cached Scenario.A ≠ [])
    by (by vm_compute).
  assert (Hst : ∀ r, r ∈ Store.recommendations_of Scenario.cached Scenario.A →
                     is_stale (timedelta_days 8) r = true).
  { intros r Hr. change (r ∈ [Scenario.cached_row]) in Hr.
    apply list_elem_of_singleton in Hr as ->. by vm_compute. }
  assert (Hclock : ∀ i : nat,
            timedelta_days 8
            ≤ (timedelta_days 8 + Z.of_nat i, timedelta_days 8 + Z.of_nat i).2)
    by (intros i; simpl; lia).
  split.
  - destruct (stale_cache_refresh Scenario.cached (timedelta_days 8)
                (λ i, (timedelta_days 8 + Z.of_nat i, timedelta_days 8 + Z.of_nat i))
                Scenario.A 10
                false H10 Hex Hst) as (fresh & _ & _ & _ & Hiff).
    by apply (Hiff Hclock).
  - destruct (stale_cache_refresh Scenario.cached (timedelta_days 8)
                (λ i, (timedelta_days 8 + Z.of_nat i, timedelta_days 8 + Z.of_nat i))
                Scenario.A 10
                true H10 Hex Hst) as (fresh & _ & _ & _ & Hiff).
    intros Hsame. by apply (Hiff Hclock) in Hsame.
Defined.

(** C9 fails as stated: with [limit = 0] the sliced queryset is empty, so
    the stale row of [Scenario.cached] is not returned although
    [refresh_if_old] is not set: the call recomputes, and the cached row of
    the user is gone. *)
Lemma stale_cache_zero_limit :
  Store.recommendations_of Scenario.cached Scenario.A = [Scenario.cached_row]
  ∧ is_stale (timedelta_days 8) Scenario.cached_row = true
  ∧ get_recommendations_for_user Scenario.cached (timedelta_days 8)
      (λ i, (timedelta_days 8, timedelta_days 8)) Scenario.A 0 true false
    = (Store.with_recommendations Scenario.cached [], Ok [])
  ∧ Store.with_recommendations Scenario.cached [] ≠ Scenario.cached.
Proof. split_and!; by vm_compute. Qed.

(** C10 (as amended).  With [use_cache] set, a [limit] of at least 1, and
    a cache that is not treated as stale (the row the staleness test reads,
    the first in the cache's ordering, is at most seven days old, or
    [refresh_if_old] is not set), the call returns the cached rows cut to
    [limit] and leaves the store alone: nothing is generated, however few
    rows the cache holds.  In [Scenario.cached] the call returns the single
    cached row although [limit] is 10 and a fresh computation yields two
    recommendations. *)
Theorem cache_hit_returns_cached :
  (∀ (st : Store.t) (now : Z) (stamps : nat → Z * Z) (u : Profile.t) (limit : Z)
     (refresh_if_old : bool),
     1 ≤ limit →
     Store.recommendations_of st u ≠ [] →
     (refresh_if_old = false
      ∨ ∃ r, Store.first (Store.recommendations_of st u) = Some r
             ∧ is_stale now r = false) →
     get_recommendations_for_user st now stamps u limit true refresh_if_old
     = (st, Ok (take (Z.to_nat limit) (Store.recommendations_of st u))))
  ∧ (∃ fresh,
       generate_recommendations_for_user Scenario.cached Scenario.A 10
         default_min_score = Ok fresh
       ∧ length fresh = 2%nat
       ∧ ∀ stamps,
           get_recommendations_for_user Scenario.cached (timedelta_days 1) stamps
             Scenario.A 10 true true
           = (Scenario.cached, Ok [Scenario.cached_row])).
Proof.
  split.
  - intros st now stamps u limit refresh_if_old Hlimit Hexists Hfresh.
    unfold get_recommendations_for_user.
    rewrite store_slice_to_pos, exists_take, first_take by (done || lia).
    destruct refresh_if_old; [|done].
    destruct Hfresh as [[=]|(r & Hr & Hs)]. by rewrite Hr, Hs.
  - eexists. split_and!; [by vm_compute..|]. intros stamps. by vm_compute.
Qed.

(** A cache hit on a one-day-old row. *)
Lemma cache_hit_returns_cached_witness :
  get_recommendations_for_user Scenario.cached (timedelta_days 1)
    (λ i, (timedelta_days 1, timedelta_days 1)) Scenario.A 3 true true
  = (Scenario.cached, Ok [Scenario.cached_row]).
Proof.
  apply (proj1 cache_hit_returns_cached Scenario.cached (timedelta_days 1) _
           Scenario.A 3 true).
  - lia.
  - by vm_compute.
  - right. exists Scenario.cached_row. split; by vm_compute.
Defined.

(** C10 fails as stated: with [limit = 0] a cache that is one day old is
    not a hit.  The call generates, and the cached row of the user is
    replaced by the (empty) result. *)
Lemma fresh_cache_zero_limit :
  Store.first (Store.recommendations_of Scenario.cached Scenario.A)
  = Some Scenario.cached_row
  ∧ is_stale (timedelta_days 1) Scenario.cached_row = false
  ∧ get_recommendations_for_user Scenario.cached (timedelta_days 1)
      (λ i, (timedelta_days 1, timedelta_days 1)) Scenario.A 0 true true
    = _refresh_recommendations Scenario.cached
        (λ i, (timedelta_days 1, timedelta_days 1)) Scenario.A 0
  ∧ (get_recommendations_for_user Scenario.cached (timedelta_days 1)
       (λ i, (timedelta_days 1, timedelta_days 1)) Scenario.A 0 true true).1
    ≠ Scenario.cached.
Proof. split_and!; by vm_compute. Qed.

End claims.

(** * Further properties of the code *)

(** ** Scores are numbers *)

Section float_sign.

Lemma iter_pos_invariant {A : Type} (P : A → Prop) (f : A → A) :
  (∀ x, P x → P (f x)) → ∀ n x, P x → P (SpecFloat.iter_pos f n x).
Proof.
  intros Hf. induction n as [n IH|n IH|]; intros x Hx; simpl; auto.
Qed.

Lemma shr_1_nonneg (mrs : shr_record) : 0 ≤ shr_m mrs → 0 ≤ shr_m (shr_1 mrs).
Proof.
  destruct mrs as [m r s]. simpl.
  destruct m as [|[p|p|]|p]; simpl; lia.
Qed.

Lemma shr_nonneg (mrs : shr_record) (e n : Z) :
  0 ≤ shr_m mrs → 0 ≤ shr_m (shr mrs e n).1.
Proof.
  intros Hm. unfold shr. destruct n as [|p|p]; simpl; [done| |done].
  by apply (iter_pos_invariant (λ r, 0 ≤ shr_m r)); [apply shr_1_nonneg|].
Qed.

Lemma shr_fexp_nonneg (prec emax m e : Z) (l : location) :
  0 ≤ m → 0 ≤ shr_m (shr_fexp prec emax m e l).1.
Proof.
  intros Hm. unfold shr_fexp. apply shr_nonneg.
  by destruct l as [|[]].
Qed.

Lemma round_nearest_even_nonneg (m : Z) (l : location) :
  0 ≤ m → 0 ≤ round_nearest_even m l.
Proof.
  intros Hm. destruct l as [|[]]; simpl; try lia.
  destruct (Z.even m); lia.
Qed.

(** Rounding a non-negative mantissa gives a zero, a finite value or an
    infinity of the requested sign. *)
Lemma binary_round_aux_sign (prec emax : Z) (sx : bool) (mx ex : Z) (lx : location) :
  0 ≤ mx →
  match binary_round_aux prec emax sx mx ex lx with
  | S754_nan => False
  | S754_zero s | S754_infinity s | S754_finite s _ _ => s = sx
  end.
Proof.
  intros Hm. unfold binary_round_aux.
  pose proof (shr_fexp_nonneg prec emax mx ex lx Hm) as H1.
  destruct (shr_fexp prec emax mx ex lx) as [mrs' e']. simpl in H1.
  pose proof (shr_fexp_nonneg prec emax
                (round_nearest_even (shr_m mrs') (loc_of_shr_record mrs')) e'
                loc_Exact (round_nearest_even_nonneg _ _ H1)) as H2.
  destruct (shr_fexp prec emax _ e' loc_Exact) as [mrs'' e'']. simpl in H2.
  destruct (shr_m mrs'') as [|p|p]; [done| |lia].
  by destruct (e'' <=? emax - prec).
Qed.

Lemma binary_round_sign (prec emax : Z) (sx : bool) (mx : positive) (ex : Z) :
  match binary_round prec emax sx mx ex with
  | S754_nan => False
  | S754_zero s | S754_infinity s | S754_finite s _ _ => s = sx
  end.
Proof.
  unfold binary_round. destruct (shl_align _ _ _) as [mz ez].
  by apply binary_round_aux_sign.
Qed.

Lemma binary_normalize_nonneg (prec emax : Z) (m e : Z) (szero : bool) :
  0 ≤ m → nonneg_sf (binary_normalize prec emax m e szero).
Proof.
  intros Hm. destruct m as [|p|p]; simpl; [done| |lia].
  pose proof (binary_round_sign prec emax false p e) as H.
  by destruct (binary_round prec emax false p e).
Qed.

Lemma SFmul_nonneg (prec emax : Z) (x : spec_float) (my : positive) (ey : Z) :
  nonneg_sf x → nonneg_sf (SFmul prec emax x (S754_finite false my ey)).
Proof.
  destruct x as [sx|sx| |sx mx ex]; simpl; try done; intros ->; [done|].
  pose proof (binary_round_aux_sign prec emax false (Z.pos (mx * my)) (ex + ey)
                loc_Exact ltac:(lia)) as H.
  simpl. by destruct (binary_round_aux _ _ _ _ _ _).
Qed.

Lemma SFadd_nonneg (prec emax : Z) (x y : spec_float) :
  nonneg_sf x → nonneg_sf y → nonneg_sf (SFadd prec emax x y).
Proof.
  destruct x as [sx|sx| |sx mx ex], y as [sy|sy| |sy my ey]; simpl; try done;
    try (by intros -> ->); try (by destruct sx, sy).
  intros -> ->. unfold cond_Zopp.
  apply (binary_normalize_nonneg prec emax
           (Z.pos (shl_align mx ex (Z.min ex ey)).1
            + Z.pos (shl_align my ey (Z.min ex ey)).1)). lia.
Qed.

Lemma SFdiv_nonneg (prec emax : Z) (x : spec_float) (my : positive) (ey : Z) :
  nonneg_sf x → nonneg_sf (SFdiv prec emax x (S754_finite false my ey)).
Proof.
  destruct x as [sx|sx| |sx mx ex]; simpl; try done; intros ->; [done|].
  unfold SFdiv_core_binary.
  set (s := ex - ey - _).
  set (m' := match s with 0 => Z.pos mx | Z.pos _ => Z.shiftl (Z.pos mx) s | Z.neg _ => 0 end).
  assert (0 ≤ m') as Hm'.
  { unfold m'. destruct s; [lia| |lia]. apply Z.shiftl_nonneg. lia. }
  pose proof (Z_div_mod m' (Z.pos my) ltac:(lia)) as Hdiv.
  destruct (Z.div_eucl m' (Z.pos my)) as [q r].
  assert (0 ≤ q) by nia.
  pose proof (binary_round_aux_sign prec emax false q
                (Z.min (fexp prec emax
                          (Zdigits2 (Z.pos mx) + ex - (Zdigits2 (Z.pos my) + ey)))
                       (ex - ey))
                (new_location (Z.pos my) r) H) as Hr.
  simpl. by destruct (binary_round_aux _ _ _ _ _ _).
Qed.

(** A positive integer below 2^53 is a binary64 value. *)
Lemma digits2_pos_size (p : positive) : digits2_pos p = Pos.size p.
Proof. induction p as [p IH|p IH|]; simpl; congruence. Qed.

Lemma digits2_pos_shift (n p : positive) :
  digits2_pos (Pos.iter xO p n) = (digits2_pos p + n)%positive.
Proof.
  induction n as [|n IH] using Pos.peano_ind.
  - simpl. lia.
  - rewrite Pos.iter_succ. simpl. rewrite IH. lia.
Qed.

Lemma digits2_pos_small (p : positive) : Z.pos p < 2 ^ 53 → Z.pos (digits2_pos p) ≤ 53.
Proof.
  intros Hp. rewrite digits2_pos_size.
  destruct (decide (Z.pos (Pos.size p) ≤ 53)) as [|Hbig]; [done|].
  pose proof (Pos.size_le p) as Hle.
  assert (2 ^ 54 ≤ 2 ^ Z.pos (Pos.size p)) by (apply Z.pow_le_mono_r; lia).
  assert (Z.pos (2 ^ Pos.size p) = 2 ^ Z.pos (Pos.size p)) as Hpow
    by apply Pos2Z.inj_pow.
  lia.
Qed.

Lemma binary_round_aux_exact (s : bool) (m : positive) (e : Z) :
  Z.pos (digits2_pos m) = 53 → -1074 ≤ e ≤ 971 →
  binary_round_aux prec emax s (Z.pos m) e loc_Exact = S754_finite s m e.
Proof.
  intros Hd He.
  assert (fexp prec emax (Zdigits2 (Z.pos m) + e) - e = 0) as Hn.
  { unfold fexp, SpecFloat.emin, prec, emax. simpl Zdigits2. lia. }
  unfold binary_round_aux, shr_fexp. rewrite Hn. simpl shr.
  cbn [shr_record_of_loc shr_m loc_of_shr_record shr_r shr_s round_nearest_even].
  rewrite Hn. simpl shr. cbn [shr_record_of_loc shr_m].
  assert ((e <=? emax - prec) = true) as ->; [|done].
  apply Z.leb_le. unfold prec, emax. lia.
Qed.

Lemma binary_normalize_small (p : positive) :
  Z.pos p < 2 ^ 53 →
  ∃ m e, binary_normalize prec emax (Z.pos p) 0 false = S754_finite false m e.
Proof.
  intros Hp. pose proof (digits2_pos_small p Hp) as Hd.
  unfold binary_normalize, binary_round.
  assert (fexp prec emax (Z.pos (digits2_pos p) + 0) = Z.pos (digits2_pos p) - 53)
    as ->.
  { unfold fexp, SpecFloat.emin, prec, emax. lia. }
  unfold shl_align.
  destruct (Z.pos (digits2_pos p) - 53 - 0) as [|k|k] eqn:Hk; [|lia|].
  - exists p, 0. apply binary_round_aux_exact; lia.
  - eexists _, _. apply binary_round_aux_exact; [|lia].
    rewrite digits2_pos_shift. lia.
Qed.

End float_sign.

(** ** What [generate_recommendations_for_user] returns *)

Section generated.

Import RecommendationService.

Lemma length_slice_to {A : Type} (l : list A) (n : Z) :
  Z.of_nat (length (Py.slice_to l n))
  = if 0 <=? n then Z.min n (Z.of_nat (length l))
    else Z.max 0 (Z.of_nat (length l) + n).
Proof.
  unfold Py.slice_to. destruct (0 <=? n) eqn:Hn; rewrite length_take.
  - apply Z.leb_le in Hn. lia.
  - apply Z.leb_gt in Hn. lia.
Qed.

Lemma length_omap_le {A B : Type} (f : A → option B) (l : list A) :
  (length (omap f l) ≤ length l)%nat.
Proof.
  unfold omap. induction l as [|x l IH]; simpl; [done|].
  destruct (f x); simpl; lia.
Qed.

Lemma elem_of_candidates (st : Store.t) (u c : Profile.t) :
  c ∈ candidates st u
  ↔ c ∈ Store.profiles st
    ∧ Profile.id c ≠ Profile.id u
    ∧ ¬ follows_edge st u c
    ∧ Profile.show_in_recommendations c = true.
Proof.
  unfold candidates. rewrite !list_elem_of_filter.
  fold (followees st u).
  rewrite not_elem_of_union, elem_of_singleton, elem_of_followees. tauto.
Qed.

Lemma generated_at_most (st : Store.t) (u : Profile.t) (limit : Z)
    (min_score : float) (recs : list Recommendation.t) :
  generate_recommendations_for_user st u limit min_score = Ok recs →
  0 ≤ limit → Z.of_nat (length recs) ≤ limit.
Proof.
  rewrite generate_recommendations_for_user_eq. intros [= <-] Hl.
  rewrite length_slice_to, (proj2 (Z.leb_le 0 limit) Hl). lia.
Qed.


(** X1.  The number of entries returned is the number of candidates that
    passed the threshold, cut by the slice [[:limit]]: at most [limit] of
    them for a non-negative [limit], and all but the last [-limit] for a
    negative one. *)
Theorem generated_length (st : Store.t) (u : Profile.t) (limit : Z)
    (min_score : float) :
  ∃ kept recs,
    score_candidates st u min_score (candidates st u) [] = Ok kept
    ∧ generate_recommendations_for_user st u limit min_score = Ok recs
    ∧ (length kept ≤ length (candidates st u))%nat
    ∧ Z.of_nat (length recs)
      = (if 0 <=? limit then Z.min limit (Z.of_nat (length kept))
         else Z.max 0 (Z.of_nat (length kept) + limit))
    ∧ (0 ≤ limit → Z.of_nat (length recs) ≤ limit).
Proof.
  exists (omap (recommend st u min_score) (candidates st u)). eexists.
  split_and!.
  - by rewrite score_candidates_eq.
  - apply generate_recommendations_for_user_eq.
  - apply length_omap_le.
  - rewrite length_slice_to. unfold sort_by_score. by rewrite length_stable_sort.
  - intros Hl. rewrite length_slice_to.
    rewrite (proj2 (Z.leb_le 0 limit) Hl). lia.
Qed.

(** X2.  Every entry returned for [u] recommends a stored profile that is
    not [u], is not followed by [u] and has not opted out, and carries the
    score, the counts, the mutual connections and the explanation computed
    for that pair. *)
Theorem generated_entries (st : Store.t) (u : Profile.t) (limit : Z)
    (min_score : float) :
  ∃ recs,
    generate_recommendations_for_user st u limit min_score = Ok recs
    ∧ ∀ r, r ∈ recs →
        Recommendation.user r = u
        ∧ Recommendation.recommended_user r ∈ Store.profiles st
        ∧ Profile.id (Recommendation.recommended_user r) ≠ Profile.id u
        ∧ ¬ follows_edge st u (Recommendation.recommended_user r)
        ∧ Profile.show_in_recommendations (Recommendation.recommended_user r) = true
        ∧ ∃ sd,
            calculate_recommendation_score st u (Recommendation.recommended_user r)
            = Ok sd
            ∧ Recommendation.score r = ScoreData.total_score sd
            ∧ Recommendation.mutual_connections_count r
              = ScoreData.mutual_connections_count sd
            ∧ Recommendation.common_interests_count r
              = ScoreData.common_interests_count sd
            ∧ Recommendation.mutual_connections r
              = get_mutual_connections st u (Recommendation.recommended_user r)
            ∧ Recommendation.reason r = generate_recommendation_reason sd.
Proof.
  eexists. split; [apply generate_recommendations_for_user_eq|].
  intros r Hr. apply elem_of_slice_to, elem_of_stable_sort in Hr.
  apply list_elem_of_omap in Hr as (c & Hc & Hrec).
  apply elem_of_candidates in Hc as (Hstored & Hself & Hfollow & Hshow).
  unfold recommend in Hrec. rewrite calculate_recommendation_score_eq in Hrec.
  simpl in Hrec. destruct (Py.ge _ min_score); [|done].
  injection Hrec as <-. simpl. split_and!; try done.
  eexists. split; [apply calculate_recommendation_score_eq|]. done.
Qed.

Lemma insert_stable_perm {A : Type} (before : A → A → bool) (x : A) (l : list A) :
  Py.insert_stable before x l ≡ₚ x :: l.
Proof.
  induction l as [|y l IH]; simpl; [done|].
  destruct (before y x); [|done]. by rewrite IH, Permutation_swap.
Qed.

Lemma stable_sort_perm {A : Type} (before : A → A → bool) (l : list A) :
  Py.stable_sort before l ≡ₚ l.
Proof.
  induction l as [|x l IH]; simpl; [done|].
  by rewrite insert_stable_perm, IH.
Qed.

Lemma slice_to_sublist {A : Type} (l : list A) (n : Z) : Py.slice_to l n `sublist_of` l.
Proof. unfold Py.slice_to. destruct (0 <=? n); apply sublist_take. Qed.

Lemma recommended_users_of_kept (st : Store.t) (u : Profile.t) (min_score : float)
    (cands : list Profile.t) :
  Recommendation.recommended_user <$> omap (recommend st u min_score) cands
  `sublist_of` cands.
Proof.
  induction cands as [|c cands IH]; simpl; [done|].
  destruct (recommend st u min_score c) as [r|] eqn:Hr.
  - apply recommend_Some in Hr as (_ & Hc & _). rewrite fmap_cons, Hc.
    by apply sublist_skip.
  - by apply sublist_cons.
Qed.

Lemma candidates_sublist (st : Store.t) (u : Profile.t) :
  candidates st u `sublist_of` Store.profiles st.
Proof.
  unfold candidates. etrans; apply sublist_filter.
Qed.

Lemma generated_ids_NoDup (st : Store.t) (u : Profile.t) (limit : Z)
    (min_score : float) (recs : list Recommendation.t) :
  unique_profiles st →
  generate_recommendations_for_user st u limit min_score = Ok recs →
  NoDup ((λ r, Profile.id (Recommendation.recommended_user r)) <$> recs).
Proof.
  intros Huniq. rewrite generate_recommendations_for_user_eq. intros [= <-].
  set (kept := omap (recommend st u min_score) (candidates st u)).
  assert (NoDup ((λ r, Profile.id (Recommendation.recommended_user r)) <$> kept))
    as Hkept.
  { rewrite (list_fmap_compose Recommendation.recommended_user Profile.id).
    eapply sublist_NoDup; [exact Huniq|].
    apply fmap_sublist. etrans; [apply recommended_users_of_kept|].
    apply candidates_sublist. }
  eapply sublist_NoDup; [|apply fmap_sublist, slice_to_sublist].
  unfold sort_by_score. by rewrite stable_sort_perm.
Qed.

(** X3.  When the primary keys of the profiles are distinct, nobody is
    recommended twice in one result. *)
Theorem generated_distinct (st : Store.t) (u : Profile.t) (limit : Z)
    (min_score : float) :
  unique_profiles st →
  ∃ recs,
    generate_recommendations_for_user st u limit min_score = Ok recs
    ∧ NoDup ((λ r, Profile.id (Recommendation.recommended_user r)) <$> recs).
Proof.
  intros Huniq. eexists. split; [apply generate_recommendations_for_user_eq|].
  eapply generated_ids_NoDup; [done|apply generate_recommendations_for_user_eq].
Qed.

Lemma generated_distinct_witness :
  ∃ recs,
    generate_recommendations_for_user Scenario.cached Scenario.A 10
      default_min_score = Ok recs
    ∧ NoDup ((λ r, Profile.id (Recommendation.recommended_user r)) <$> recs).
Proof.
  apply generated_distinct. unfold unique_profiles. simpl.
  repeat (apply NoDup_cons; split; [by apply (bool_decide_eq_false_1 _); vm_compute|]).
  apply NoDup_nil_2.
Defined.

End generated.

(** The rows of a concrete table, evaluated. *)
Ltac each_row H :=
  match type of H with
  | _ ∈ ?l => let l' := eval vm_compute in l in change l with l' in H
  end;
  repeat (apply elem_of_cons in H as [->|H]; [by vm_compute|]);
  by apply elem_of_nil in H.

(** ** The cache table *)

Section cache.

Import RecommendationService.

Lemma rows_of_delete (st : Store.t) (u : Profile.t) :
  rows_of (Store.delete_recommendations_of st u) u = [].
Proof.
  unfold rows_of, Store.delete_recommendations_of. simpl.
  apply filter_none, Forall_forall. intros r Hr Hid.
  by apply list_elem_of_filter in Hr as [Hne _].
Qed.

Lemma delete_recommendations_idemp (st : Store.t) (u : Profile.t) :
  Store.delete_recommendations_of (Store.delete_recommendations_of st u) u
  = Store.delete_recommendations_of st u.
Proof.
  unfold Store.delete_recommendations_of, Store.with_recommendations. simpl.
  f_equal. rewrite list_filter_filter. apply list_filter_iff. tauto.
Qed.

Lemma cache_after_delete (st : Store.t) (stamps : nat → Z * Z) (u : Profile.t)
    (recs : list Recommendation.t) :
  cache_recommendations (Store.delete_recommendations_of st u) stamps u recs
  = cache_recommendations st stamps u recs.
Proof.
  unfold cache_recommendations. by rewrite delete_recommendations_idemp.
Qed.

Lemma cache_keeps_unique (st : Store.t) (stamps : nat → Z * Z) (u : Profile.t)
    (recs : list Recommendation.t) :
  Forall (λ r, Recommendation.user r = u) recs →
  NoDup ((λ r, Profile.id (Recommendation.recommended_user r)) <$> recs) →
  unique_recommendations st →
  unique_recommendations (cache_recommendations st stamps u recs).
Proof.
  intros Hu Hnd Hrows.
  unfold unique_recommendations, cache_recommendations.
  rewrite bulk_create_stamped. unfold Store.delete_recommendations_of. simpl.
  rewrite fmap_app.
  rewrite (fmap_stamped
             (λ r, (UserRecommendation.user_id r,
                    UserRecommendation.recommended_user_id r))
             (λ r, (Profile.id (Recommendation.user r),
                    Profile.id (Recommendation.recommended_user r))))
    by done.
  apply NoDup_app. split_and!.
  - eapply sublist_NoDup; [exact Hrows|]. apply fmap_sublist, sublist_filter.
  - intros [a b] Hold Hnew.
    apply list_elem_of_fmap in Hold as (r & [= -> ->] & Hr).
    apply list_elem_of_filter in Hr as [Hne _].
    apply list_elem_of_fmap in Hnew as (x & [= Ha _] & Hx).
    rewrite Forall_forall in Hu. rewrite (Hu x Hx) in Ha. done.
  - apply (NoDup_fmap_1 snd).
    by rewrite <- !(list_fmap_compose _ _ recs).
Qed.

(** X4.  [cache_recommendations] replaces.  Given recommendations that the
    insert accepts (all for [u], who is stored, each of a stored profile
    and with a reason that fits its column of 200 characters, no profile
    twice), afterwards the rows of [u] are exactly one row per
    recommendation, in the order given, the [i]-th with the two clock
    readings its insert took; nothing of the earlier rows of [u] is left,
    the rows of every other user are as before, no other table is touched,
    and the pairs (user, recommended user) are still distinct if they
    were. *)
Theorem cache_replaces (st : Store.t) (stamps : nat → Z * Z) (u : Profile.t)
    (recs : list Recommendation.t) :
  u ∈ Store.profiles st →
  Forall (λ r, Recommendation.user r = u
               ∧ Recommendation.recommended_user r ∈ Store.profiles st
               ∧ (String.length (Recommendation.reason r) ≤ 200)%nat) recs →
  NoDup ((λ r, Profile.id (Recommendation.recommended_user r)) <$> recs) →
  rows_of (cache_recommendations st stamps u recs) u = stamped stamps recs
  ∧ length (stamped stamps recs) = length recs
  ∧ (∀ i rec_data,
       recs !! i = Some rec_data →
       stamped stamps recs !! i
       = Some (to_row rec_data (stamps i).1 (stamps i).2))
  ∧ (∀ v, Profile.id v ≠ Profile.id u →
          rows_of (cache_recommendations st stamps u recs) v = rows_of st v)
  ∧ Store.profiles (cache_recommendations st stamps u recs) = Store.profiles st
  ∧ Store.connections (cache_recommendations st stamps u recs)
    = Store.connections st
  ∧ Store.likes (cache_recommendations st stamps u recs) = Store.likes st
  ∧ Store.comments (cache_recommendations st stamps u recs) = Store.comments st
  ∧ (unique_recommendations st →
     unique_recommendations (cache_recommendations st stamps u recs)).
Proof.
  intros _ Hall Hnd.
  assert (Forall (λ r, Recommendation.user r = u) recs) as Hu
    by (eapply Forall_impl; [exact Hall|]; by intros r [? _]).
  split_and!; try done.
  - by apply rows_of_cache_recommendations.
  - apply length_stamped.
  - intros i x Hx. unfold stamped. by rewrite list_lookup_imap, Hx.
  - intros v Hv. by apply others_of_cache_recommendations.
  - by apply cache_keeps_unique.
Qed.

Lemma cache_replaces_witness :
  rows_of
    (cache_recommendations Scenario.cached
       (λ i, (100 + 2 * Z.of_nat i, 101 + 2 * Z.of_nat i)) Scenario.A
       [Recommendation.mk Scenario.A Scenario.B 0.16 2 0
          "Based on 2 mutual connections" [Scenario.X; Scenario.Y];
        Recommendation.mk Scenario.A Scenario.Z' 0.16 2 0
          "Based on 2 mutual connections" [Scenario.X; Scenario.Y]])
    Scenario.A
  = [UserRecommendation.mk 1 2 0.16 2 0 "Based on 2 mutual connections" 100 101;
     UserRecommendation.mk 1 5 0.16 2 0 "Based on 2 mutual connections" 102 103].
Proof.
  destruct (cache_replaces Scenario.cached
              (λ i, (100 + 2 * Z.of_nat i, 101 + 2 * Z.of_nat i)) Scenario.A
              [Recommendation.mk Scenario.A Scenario.B 0.16 2 0
                 "Based on 2 mutual connections" [Scenario.X; Scenario.Y];
               Recommendation.mk Scenario.A Scenario.Z' 0.16 2 0
                 "Based on 2 mutual connections" [Scenario.X; Scenario.Y]])
    as [-> _]; [| | |reflexivity].
  - apply list_elem_of_In. simpl. tauto.
  - repeat constructor; simpl; try lia; apply list_elem_of_In; simpl; tauto.
  - simpl.
    repeat (apply NoDup_cons; split; [by apply (bool_decide_eq_false_1 _); vm_compute|]).
    apply NoDup_nil_2.
Defined.

(** Caching the same recommendations twice leaves the store as caching
    them once: the second call deletes the rows the first one wrote and
    writes them again. *)
Lemma cache_idempotent (st : Store.t) (stamps : nat → Z * Z) (u : Profile.t)
    (recs : list Recommendation.t) :
  Forall (λ r, Recommendation.user r = u) recs →
  cache_recommendations (cache_recommendations st stamps u recs) stamps u recs
  = cache_recommendations st stamps u recs.
Proof.
  intros Hu. unfold cache_recommendations at 1. rewrite bulk_create_stamped.
  unfold cache_recommendations. rewrite bulk_create_stamped.
  unfold Store.delete_recommendations_of, Store.with_recommendations. simpl.
  f_equal. f_equal.
  rewrite filter_app, list_filter_filter.
  rewrite (filter_none _ (stamped stamps recs)).
  - rewrite app_nil_r. apply list_filter_iff. tauto.
  - apply Forall_stamped. eapply Forall_impl; [exact Hu|].
    intros r Hr c t Hne. apply Hne. simpl. by rewrite Hr.
Qed.

Lemma cache_empty_again (st : Store.t) (stamps stamps' : nat → Z * Z)
    (u : Profile.t) :
  cache_recommendations (cache_recommendations st stamps u []) stamps' u []
  = cache_recommendations st stamps u [].
Proof.
  etrans; [|apply (cache_idempotent st stamps u []), Forall_nil_2]. reflexivity.
Qed.

Lemma generate_ignores_cache (st : Store.t) (rows : list UserRecommendation.t)
    (u : Profile.t) (limit : Z) (min_score : float) :
  generate_recommendations_for_user (Store.with_recommendations st rows) u limit
    min_score
  = generate_recommendations_for_user st u limit min_score.
Proof.
  by rewrite !generate_recommendations_for_user_eq.
Qed.

Lemma generate_after_cache (st : Store.t) (stamps : nat → Z * Z) (u : Profile.t)
    (recs : list Recommendation.t) (limit : Z) (min_score : float) :
  generate_recommendations_for_user (cache_recommendations st stamps u recs) u
    limit min_score
  = generate_recommendations_for_user st u limit min_score.
Proof.
  by rewrite !generate_recommendations_for_user_eq.
Qed.

(** X5.  The refresh keeps the constraint
    [unique_together = ('user', 'recommended_user')]: if the profile keys
    are distinct and the cache satisfies the constraint before the call, it
    satisfies it afterwards, so the bulk insert never meets a duplicate. *)
Theorem refresh_keeps_unique (st : Store.t) (stamps : nat → Z * Z) (u : Profile.t)
    (limit : Z) :
  unique_profiles st →
  unique_recommendations st →
  unique_recommendations (_refresh_recommendations st stamps u limit).1.
Proof.
  intros Hprofiles Hrows. unfold _refresh_recommendations.
  destruct (generate_recommendations_for_user st u limit default_min_score)
    as [fresh|e] eqn:Hgen; [|done].
  pose proof (generated_ids_NoDup _ _ _ _ _ Hprofiles Hgen) as Hnd.
  pose proof (generated_for_user _ _ _ _ _ Hgen) as Hu.
  simpl. by apply cache_keeps_unique.
Qed.

Lemma refresh_keeps_unique_witness :
  unique_recommendations
    (_refresh_recommendations Scenario.cached (λ i, (5, 5)) Scenario.A 10).1.
Proof.
  apply refresh_keeps_unique.
  - unfold unique_profiles. simpl.
    repeat (apply NoDup_cons; split; [by apply (bool_decide_eq_false_1 _); vm_compute|]).
    apply NoDup_nil_2.
  - unfold unique_recommendations. simpl. apply NoDup_singleton.
Defined.

End cache.

(** ** [get_recommendations_for_user] and [_refresh_recommendations] *)

Section serving.

Import RecommendationService.

Lemma elem_of_recommendations_of (st : Store.t) (u : Profile.t)
    (r : UserRecommendation.t) :
  r ∈ Store.recommendations_of st u
  ↔ r ∈ Store.recommendations st ∧ UserRecommendation.user_id r = Profile.id u.
Proof.
  unfold Store.recommendations_of.
  rewrite elem_of_stable_sort, list_elem_of_filter. tauto.
Qed.

Lemma recommendations_of_rows (st : Store.t) (u : Profile.t) :
  Store.recommendations_of st u = Py.stable_sort UserRecommendation.before (rows_of st u).
Proof. reflexivity. Qed.

Lemma generated_ok (st : Store.t) (u : Profile.t) (limit : Z) (min_score : float) :
  ∃ fresh,
    generate_recommendations_for_user st u limit min_score = Ok fresh
    ∧ Forall (λ r, Recommendation.user r = u) fresh.
Proof.
  eexists. split; [apply generate_recommendations_for_user_eq|].
  eapply generated_for_user, generate_recommendations_for_user_eq.
Qed.

(** What a refresh does, for a limit the queryset accepts. *)
Lemma refresh_spec (st : Store.t) (stamps : nat → Z * Z) (u : Profile.t)
    (limit : Z) :
  0 ≤ limit →
  ∃ fresh,
    generate_recommendations_for_user st u limit default_min_score = Ok fresh
    ∧ Forall (λ r, Recommendation.user r = u) fresh
    ∧ _refresh_recommendations st stamps u limit
      = (cache_recommendations st stamps u fresh,
         Ok (take (Z.to_nat limit)
               (Py.stable_sort UserRecommendation.before (stamped stamps fresh)))).
Proof.
  intros Hl. destruct (generated_ok st u limit default_min_score) as (fresh & Hgen & Hu).
  exists fresh. split_and!; [done..|].
  unfold _refresh_recommendations. rewrite Hgen, store_slice_to_pos by done.
  by rewrite recommendations_of_rows, rows_of_cache_recommendations.
Qed.

Lemma get_recommendations_for_user_rows (st : Store.t) (now : Z)
    (stamps : nat → Z * Z) (u : Profile.t) (limit : Z)
    (use_cache refresh_if_old : bool) :
  0 ≤ limit →
  ∃ rows,
    (get_recommendations_for_user st now stamps u limit use_cache refresh_if_old).2
    = Ok rows
    ∧ Z.of_nat (length rows) ≤ limit
    ∧ (∀ r, r ∈ rows →
         UserRecommendation.user_id r = Profile.id u
         ∧ r ∈ Store.recommendations
               (get_recommendations_for_user st now stamps u limit use_cache
                  refresh_if_old).1)
    ∧ (∀ v, Profile.id v ≠ Profile.id u →
         rows_of (get_recommendations_for_user st now stamps u limit use_cache
                    refresh_if_old).1 v
         = rows_of st v)
    ∧ Store.connections
        (get_recommendations_for_user st now stamps u limit use_cache
           refresh_if_old).1
      = Store.connections st
    ∧ Store.profiles
        (get_recommendations_for_user st now stamps u limit use_cache
           refresh_if_old).1
      = Store.profiles st.
Proof.
  intros Hl.
  assert (Hrefresh : ∃ rows,
    (_refresh_recommendations st stamps u limit).2 = Ok rows
    ∧ Z.of_nat (length rows) ≤ limit
    ∧ (∀ r, r ∈ rows →
         UserRecommendation.user_id r = Profile.id u
         ∧ r ∈ Store.recommendations (_refresh_recommendations st stamps u limit).1)
    ∧ (∀ v, Profile.id v ≠ Profile.id u →
         rows_of (_refresh_recommendations st stamps u limit).1 v = rows_of st v)
    ∧ Store.connections (_refresh_recommendations st stamps u limit).1
      = Store.connections st
    ∧ Store.profiles (_refresh_recommendations st stamps u limit).1
      = Store.profiles st).
  { destruct (refresh_spec st stamps u limit Hl) as (fresh & Hgen & Hu & ->).
    eexists. split; [reflexivity|]. simpl. split_and!; try done.
    - rewrite length_take. lia.
    - intros r Hr. apply (subseteq_take _ _) in Hr.
      rewrite <- (rows_of_cache_recommendations st stamps u fresh Hu) in Hr.
      rewrite <- recommendations_of_rows in Hr.
      apply elem_of_recommendations_of in Hr. tauto.
    - intros v Hv. by apply others_of_cache_recommendations. }
  assert (Hcached : ∃ rows,
    Ok (take (Z.to_nat limit) (Store.recommendations_of st u)) = Ok rows
    ∧ Z.of_nat (length rows) ≤ limit
    ∧ (∀ r, r ∈ rows →
         UserRecommendation.user_id r = Profile.id u
         ∧ r ∈ Store.recommendations st)).
  { eexists. split; [reflexivity|]. split.
    - rewrite length_take. lia.
    - intros r Hr. apply (subseteq_take _ _) in Hr.
      apply elem_of_recommendations_of in Hr. tauto. }
  unfold get_recommendations_for_user.
  destruct use_cache; [|exact Hrefresh].
  rewrite store_slice_to_pos by done.
  destruct Hcached as (rows & [= <-] & Hlen & Hrows).
  destruct (take (Z.to_nat limit) (Store.recommendations_of st u))
    as [|latest rest]; [exact Hrefresh|].
  simpl. destruct refresh_if_old.
  - destruct (is_stale now latest); [exact Hrefresh|].
    eexists. split; [reflexivity|]. simpl. by split_and!.
  - eexists. split; [reflexivity|]. simpl. by split_and!.
Qed.

(** X6.  For a non-negative [limit], whatever the two flags, the call
    returns (it does not raise) at most [limit] rows, every one a row of
    the requesting user that is in the cache table when the call ends; the
    rows of other users and the other tables are as before. *)
Theorem served_rows (st : Store.t) (now : Z) (stamps : nat → Z * Z)
    (u : Profile.t) (limit : Z) (use_cache refresh_if_old : bool) :
  0 ≤ limit →
  ∃ rows,
    (get_recommendations_for_user st now stamps u limit use_cache refresh_if_old).2
    = Ok rows
    ∧ Z.of_nat (length rows) ≤ limit
    ∧ (∀ r, r ∈ rows →
         UserRecommendation.user_id r = Profile.id u
         ∧ r ∈ Store.recommendations
               (get_recommendations_for_user st now stamps u limit use_cache
                  refresh_if_old).1)
    ∧ (∀ v, Profile.id v ≠ Profile.id u →
         rows_of (get_recommendations_for_user st now stamps u limit use_cache
                    refresh_if_old).1 v
         = rows_of st v)
    ∧ Store.connections
        (get_recommendations_for_user st now stamps u limit use_cache
           refresh_if_old).1
      = Store.connections st
    ∧ Store.profiles
        (get_recommendations_for_user st now stamps u limit use_cache
           refresh_if_old).1
      = Store.profiles st.
Proof. apply get_recommendations_for_user_rows. Qed.

Lemma served_rows_witness :
  ∃ rows,
    (get_recommendations_for_user Scenario.cached (timedelta_days 1)
       (λ i, (timedelta_days 1, timedelta_days 1)) Scenario.A 3 false true).2
    = Ok rows
    ∧ Z.of_nat (length rows) ≤ 3.
Proof.
  destruct (served_rows Scenario.cached (timedelta_days 1)
              (λ i, (timedelta_days 1, timedelta_days 1)) Scenario.A 3 false true
              ltac:(lia)) as (rows & Hrows & Hlen & _).
  by exists rows.
Defined.

(** X7.  A negative [limit] always ends in the exception of the queryset
    slice.  With [use_cache] the slice is the first thing evaluated and the
    store is untouched; without it the exception comes after the fresh
    recommendations have replaced the cached rows of the user. *)
Theorem negative_limit (st : Store.t) (now : Z) (stamps : nat → Z * Z)
    (u : Profile.t) (limit : Z) (use_cache refresh_if_old : bool) :
  limit < 0 →
  (get_recommendations_for_user st now stamps u limit use_cache refresh_if_old).2
  = Raise NegativeIndexingError
  ∧ (use_cache = true →
       (get_recommendations_for_user st now stamps u limit use_cache
          refresh_if_old).1 = st)
  ∧ (use_cache = false →
       ∃ fresh,
         generate_recommendations_for_user st u limit default_min_score = Ok fresh
         ∧ (get_recommendations_for_user st now stamps u limit use_cache
              refresh_if_old).1
           = cache_recommendations st stamps u fresh).
Proof.
  intros Hl. unfold get_recommendations_for_user, _refresh_recommendations.
  rewrite generate_recommendations_for_user_eq.
  unfold Store.slice_to. rewrite (proj2 (Z.ltb_lt limit 0) Hl).
  destruct use_cache; simpl; split_and!; try done.
  intros _. by eexists.
Qed.

Lemma negative_limit_witness :
  (get_recommendations_for_user Scenario.cached 0 (λ i, (0, 0)) Scenario.A (-5)
     false true).2
  = Raise NegativeIndexingError.
Proof.
  by destruct (negative_limit Scenario.cached 0 (λ i, (0, 0)) Scenario.A (-5)
                 false true ltac:(lia)) as [-> _].
Defined.

(** A cache written by one insert serves every request at which its rows
    are at most seven days old, for any positive limit. *)
Lemma get_after_cache (st : Store.t) (stamps stamps' : nat → Z * Z) (now' : Z)
    (u : Profile.t) (written limit : Z) (fresh : list Recommendation.t)
    (refresh_if_old : bool) :
  1 ≤ written → 1 ≤ limit →
  (∀ r, r ∈ stamped stamps fresh →
        now' - UserRecommendation.updated_at r ≤ timedelta_days 7) →
  generate_recommendations_for_user st u written default_min_score = Ok fresh →
  get_recommendations_for_user (cache_recommendations st stamps u fresh) now'
    stamps' u limit true refresh_if_old
  = (cache_recommendations st stamps u fresh,
     Ok (take (Z.to_nat limit)
           (Py.stable_sort UserRecommendation.before (stamped stamps fresh)))).
Proof.
  intros Hw Hl Hage Hgen.
  pose proof (generated_for_user _ _ _ _ _ Hgen) as Hu.
  unfold get_recommendations_for_user.
  rewrite store_slice_to_pos, recommendations_of_rows,
    rows_of_cache_recommendations by (done || lia).
  destruct (Py.stable_sort UserRecommendation.before (stamped stamps fresh))
    as [|latest rest] eqn:Hsorted.
  - apply stable_sort_nil_inv, stamped_nil_inv in Hsorted. subst fresh.
    rewrite take_nil. simpl.
    destruct (refresh_spec (cache_recommendations st stamps u []) stamps' u limit
                ltac:(lia)) as (fresh' & Hgen' & _ & ->).
    rewrite generate_after_cache in Hgen'.
    assert (fresh' = []) as ->.
    { rewrite generate_recommendations_for_user_eq in Hgen, Hgen'.
      injection Hgen as Hgen. injection Hgen' as <-.
      apply (f_equal length) in Hgen. apply (f_equal Z.of_nat) in Hgen.
      rewrite length_slice_to, (proj2 (Z.leb_le 0 written)) in Hgen by lia.
      simpl in Hgen.
      destruct (sort_by_score _) as [|x l]; [|simpl in Hgen; lia].
      unfold Py.slice_to. by destruct (0 <=? limit); rewrite take_nil. }
    simpl. rewrite take_nil. f_equal. apply cache_empty_again.
  - assert (Z.to_nat limit = S (Z.to_nat limit - 1)) as -> by lia.
    simpl. assert (is_stale now' latest = false) as ->; [|by destruct refresh_if_old].
    unfold is_stale. apply Z.ltb_ge, Hage.
    apply (elem_of_stable_sort UserRecommendation.before).
    rewrite Hsorted. apply list_elem_of_here.
Qed.

(** X8.  A call served from a refresh is repeatable: a second call with
    [use_cache], made within seven days of the refresh and with the same
    positive [limit], returns the very rows the refresh returned and does
    not change the store, whatever [refresh_if_old] says. *)
Theorem refresh_then_cached (st : Store.t) (stamps stamps' : nat → Z * Z)
    (now' : Z) (u : Profile.t) (limit : Z) (refresh_if_old : bool) :
  1 ≤ limit →
  (∀ r, r ∈ rows_of (_refresh_recommendations st stamps u limit).1 u →
        now' - UserRecommendation.updated_at r ≤ timedelta_days 7) →
  get_recommendations_for_user (_refresh_recommendations st stamps u limit).1 now'
    stamps' u limit true refresh_if_old
  = _refresh_recommendations st stamps u limit.
Proof.
  intros Hl Hage.
  destruct (refresh_spec st stamps u limit ltac:(lia)) as (fresh & Hgen & Hu & Heq).
  rewrite Heq in *. simpl in *.
  rewrite rows_of_cache_recommendations in Hage by done.
  by apply (get_after_cache st stamps stamps' now' u limit limit fresh).
Qed.

Lemma refresh_then_cached_witness :
  get_recommendations_for_user
    (_refresh_recommendations Scenario.cached
       (λ i, (Z.of_nat i, Z.of_nat i)) Scenario.A 10).1
    (timedelta_days 2) (λ i, (timedelta_days 2, timedelta_days 2))
    Scenario.A 10 true true
  = _refresh_recommendations Scenario.cached
      (λ i, (Z.of_nat i, Z.of_nat i)) Scenario.A 10.
Proof.
  apply refresh_then_cached; [lia|]. intros r Hr. each_row Hr.
Defined.

(** X9.  Invalidation forces a recomputation: after the profile view has
    deleted the cached rows of a user, the next call for a non-negative
    [limit] is a refresh, whatever the flags, and it leaves the store and
    returns the rows that a refresh of the original store would. *)
Theorem invalidate_then_refresh (st : Store.t) (now : Z) (stamps : nat → Z * Z)
    (u : Profile.t) (limit : Z) (use_cache refresh_if_old : bool) :
  0 ≤ limit →
  rows_of (Views._refresh_user_recommendations st u) u = []
  ∧ get_recommendations_for_user (Views._refresh_user_recommendations st u) now
      stamps u limit use_cache refresh_if_old
    = _refresh_recommendations st stamps u limit.
Proof.
  intros Hl. unfold Views._refresh_user_recommendations.
  split; [apply rows_of_delete|].
  assert (_refresh_recommendations (Store.delete_recommendations_of st u) stamps u
            limit
          = _refresh_recommendations st stamps u limit) as Hsame.
  { unfold _refresh_recommendations. unfold Store.delete_recommendations_of at 1.
    rewrite generate_ignores_cache, generate_recommendations_for_user_eq.
    by rewrite cache_after_delete. }
  unfold get_recommendations_for_user. rewrite Hsame.
  destruct use_cache; [|done].
  rewrite store_slice_to_pos, recommendations_of_rows, rows_of_delete by done.
  simpl. by rewrite take_nil.
Qed.

Lemma invalidate_then_refresh_witness :
  get_recommendations_for_user
    (Views._refresh_user_recommendations Scenario.cached Scenario.A)
    (timedelta_days 1) (λ i, (timedelta_days 1, timedelta_days 1)) Scenario.A 10
    true false
  = _refresh_recommendations Scenario.cached
      (λ i, (timedelta_days 1, timedelta_days 1)) Scenario.A 10.
Proof.
  by destruct (invalidate_then_refresh Scenario.cached (timedelta_days 1)
                 (λ i, (timedelta_days 1, timedelta_days 1))
                 Scenario.A 10 true false ltac:(lia)) as [_ ->].
Defined.

End serving.

(** ** Activity overlap *)

Section activity.

Import RecommendationService.

Lemma elem_of_interacted_posts (st : Store.t) (a : Profile.t) (post : Z) :
  post ∈ interacted_posts st a
  ↔ Like.mk (Profile.id a) post ∈ Store.likes st
    ∨ Comment.mk (Profile.id a) post ∈ Store.comments st.
Proof.
  unfold interacted_posts, Store.liked_post_ids, Store.commented_post_ids.
  rewrite elem_of_union, !elem_of_list_to_set, !list_elem_of_fmap.
  split.
  - intros [([x p] & -> & H%list_elem_of_filter)|([x p] & -> & H%list_elem_of_filter)];
      simpl in H; destruct H as [<- H]; auto.
  - intros [H|H]; [left|right]; eexists; (split; [|apply list_elem_of_filter; split;
      [|exact H]]); done.
Qed.

(** X10.  The activity similarity of two users is the number of distinct
    posts that both have liked or commented on: it is symmetric, it lies
    between 0 and the number of posts either user interacted with, and it
    is positive exactly when some post has a like or comment from each. *)
Theorem activity_similarity_counts (st : Store.t) (a b : Profile.t) :
  calculate_activity_similarity st a b = calculate_activity_similarity st b a
  ∧ calculate_activity_similarity st a b
    = Z.of_nat (size (interacted_posts st a ∩ interacted_posts st b))
  ∧ 0 ≤ calculate_activity_similarity st a b
  ∧ calculate_activity_similarity st a b ≤ Z.of_nat (size (interacted_posts st a))
  ∧ calculate_activity_similarity st a b ≤ Z.of_nat (size (interacted_posts st b))
  ∧ (0 < calculate_activity_similarity st a b
     ↔ ∃ post,
         (Like.mk (Profile.id a) post ∈ Store.likes st
          ∨ Comment.mk (Profile.id a) post ∈ Store.comments st)
         ∧ (Like.mk (Profile.id b) post ∈ Store.likes st
            ∨ Comment.mk (Profile.id b) post ∈ Store.comments st)).
Proof.
  rewrite !calculate_activity_similarity_eq. unfold activity_overlap.
  set (Ia := interacted_posts st a). set (Ib := interacted_posts st b).
  split_and!.
  - by rewrite (comm_L (∩) Ia Ib).
  - done.
  - lia.
  - apply inj_le, subseteq_size. set_solver.
  - apply inj_le, subseteq_size. set_solver.
  - split.
    + intros Hpos.
      destruct (set_choose_L (Ia ∩ Ib)) as [post Hpost].
      { intros Hempty. rewrite Hempty, size_empty in Hpos. lia. }
      apply elem_of_intersection in Hpost as [Ha Hb].
      exists post. by rewrite <- !elem_of_interacted_posts.
    + intros (post & Ha & Hb). rewrite <- !elem_of_interacted_posts in *.
      assert (size (Ia ∩ Ib) ≠ 0%nat); [|lia].
      apply size_non_empty_iff. intros Hempty.
      apply (not_elem_of_empty (C:=gset Z) post). rewrite <- Hempty.
      by apply elem_of_intersection.
Qed.

End activity.

(** ** Interests: validation and parsing *)

Section interests.

Lemma lstrip_trimmed (s : string) :
  (∀ c, first_char s = Some c → Py.is_space c = false) → Py.lstrip s = s.
Proof.
  destruct s as [|c s]; [done|]. simpl. intros H. by rewrite (H c).
Qed.

Lemma rstrip_trimmed (s : string) :
  (∀ c, last_char s = Some c → Py.is_space c = false) → Py.rstrip s = s.
Proof.
  induction s as [|c s IH]; [done|]. simpl. intros H.
  destruct s as [|d s].
  - simpl. by rewrite (H c).
  - rewrite IH by done. done.
Qed.

Lemma strip_trimmed (s : string) : trimmed s → Py.strip s = s.
Proof.
  intros [Hf Hl]. unfold Py.strip. rewrite lstrip_trimmed by done.
  by apply rstrip_trimmed.
Qed.

Lemma strip_space (s : string) : Py.strip (String " " s) = Py.strip s.
Proof. reflexivity. Qed.

Lemma split_other (c : ascii) (s : string) :
  Ascii.eqb c "," = false →
  Py.split "," (String c s)
  = match Py.split "," s with
    | w :: ws => String c w :: ws
    | [] => [String c ""]
    end.
Proof. intros Hc. simpl. by rewrite Hc. Qed.

Lemma split_app (w rest : string) :
  comma_free w →
  Py.split "," (w +:+ String "," rest) = w :: Py.split "," rest.
Proof.
  unfold comma_free. induction w as [|c w IH]; intros Hw; [done|].
  simpl in Hw. apply andb_true_iff in Hw as [Hc Hw]. apply negb_true_iff in Hc.
  rewrite string_app_cons, split_other, IH by done. done.
Qed.

Lemma split_comma_free (w : string) : comma_free w → Py.split "," w = [w].
Proof.
  unfold comma_free. induction w as [|c w IH]; intros Hw; [done|].
  simpl in Hw. apply andb_true_iff in Hw as [Hc Hw]. apply negb_true_iff in Hc.
  rewrite split_other, IH by done. done.
Qed.

(** Entries joined with ", " are split into the first entry and the
    others with the separating space in front. *)
Lemma split_join_entries (l : list string) : ∀ x,
  comma_free x → Forall comma_free l →
  Py.split "," (Py.join ", " (x :: l)) = x :: (String " " <$> l).
Proof.
  induction l as [|y l IH]; intros x Hx Hl.
  - by apply split_comma_free.
  - apply Forall_cons in Hl as [Hy Hl].
    change (Py.join ", " (x :: y :: l))
      with (x +:+ ", " +:+ Py.join ", " (y :: l)).
    change (x +:+ ", " +:+ Py.join ", " (y :: l))
      with (x +:+ String "," (String " " (Py.join ", " (y :: l)))).
    rewrite split_app, split_other, IH by done. done.
Qed.

Lemma strip_comma_free (s : string) : comma_free s → comma_free (Py.strip s).
Proof.
  unfold comma_free. intros Hs.
  destruct (strip_spec s) as [(l & r & Heq & _) _].
  rewrite Heq, !all_chars_app in Hs.
  apply andb_true_iff in Hs as [_ Hs]. by apply andb_true_iff in Hs as [Hs _].
Qed.

Lemma lower_empty (s : string) : Py.lower s = "" ↔ s = "".
Proof. by destruct s. Qed.

Lemma lower_length (s : string) : String.length (Py.lower s) = String.length s.
Proof. induction s as [|c s IH]; [done|]. simpl. by rewrite IH. Qed.

Lemma lower_fixed (s : string) :
  all_chars (λ c, negb (Py.is_upper c)) s = true → Py.lower s = s.
Proof.
  induction s as [|c s IH]; [done|]. simpl. intros [Hc Hs]%andb_true_iff.
  rewrite IH by done. unfold Py.lower_char.
  apply negb_true_iff in Hc. by rewrite Hc.
Qed.

Lemma lower_char_comma (c : ascii) :
  Ascii.eqb (Py.lower_char c) "," = Ascii.eqb c ",".
Proof. by destruct c as [[] [] [] [] [] [] [] []]. Qed.

Lemma lower_comma_free (s : string) : comma_free s → comma_free (Py.lower s).
Proof.
  unfold comma_free. induction s as [|c s IH]; [done|]. simpl.
  intros [Hc Hs]%andb_true_iff. by rewrite lower_char_comma, Hc, IH.
Qed.

Lemma lower_entry (s : string) : entry s → entry (Py.lower s).
Proof.
  intros (Hne & Hc & Ht). split_and!.
  - by rewrite lower_empty.
  - by apply lower_comma_free.
  - by apply lower_trimmed.
Qed.

(** The entries of a raw field: the stripped pieces that are not empty. *)
Lemma stripped_entries (raw : string) :
  Forall entry (filter (λ s, s ≠ "") (Py.strip <$> Py.split "," raw)).
Proof.
  apply Forall_forall. intros x [Hne Hx]%list_elem_of_filter.
  apply list_elem_of_fmap in Hx as (piece & -> & Hpiece).
  split_and!; [done| |apply strip_spec].
  apply strip_comma_free.
  pose proof (split_pieces "," raw) as Hall. rewrite Forall_forall in Hall.
  by apply Hall.
Qed.

Lemma filter_fmap_lower (l : list string) :
  filter (λ s, s ≠ "") (Py.lower <$> l) = Py.lower <$> filter (λ s, s ≠ "") l.
Proof.
  induction l as [|x l IH]; [done|].
  rewrite fmap_cons, !filter_cons, IH.
  destruct (decide (x ≠ "")) as [Hx|Hx].
  - rewrite decide_True by (by rewrite lower_empty). done.
  - rewrite decide_False by (by rewrite lower_empty). done.
Qed.

Lemma get_interests_list_entries (p : Profile.t) :
  Profile.get_interests_list p
  = Py.lower <$> filter (λ s, s ≠ "") (Py.strip <$> Py.split "," (Profile.interests p)).
Proof.
  rewrite get_interests_list_eq, <- filter_fmap_lower.
  by rewrite <- list_fmap_compose.
Qed.

(** Parsing a field written as entries separated by ", ". *)
Lemma stripped_joined (l : list string) :
  Forall entry l →
  filter (λ s, s ≠ "") (Py.strip <$> Py.split "," (Py.join ", " l)) = l.
Proof.
  destruct l as [|x l]; [done|]. intros [Hx Hl]%Forall_cons.
  rewrite split_join_entries.
  - rewrite fmap_cons, <- list_fmap_compose.
    assert (Hid : ∀ k : list string, Forall entry k →
              filter (λ s, s ≠ "") ((Py.strip ∘ String " ") <$> k) = k).
    { induction k as [|y k IH]; [done|]. intros [Hy Hk]%Forall_cons.
      rewrite fmap_cons, filter_cons. simpl.
      rewrite strip_space, strip_trimmed by apply Hy.
      rewrite decide_True by apply Hy. by rewrite IH. }
    rewrite filter_cons, strip_trimmed by apply Hx.
    rewrite decide_True by apply Hx. by rewrite Hid.
  - apply Hx.
  - eapply Forall_impl; [exact Hl|]. by intros y (_ & Hy & _).
Qed.

Lemma parse_joined (p : Profile.t) (l : list string) :
  Forall entry l →
  Profile.get_interests_list (with_interests p (Py.join ", " l)) = Py.lower <$> l.
Proof.
  intros Hl. rewrite get_interests_list_entries. simpl.
  by rewrite stripped_joined.
Qed.

Lemma check_lengths_None (l : list string) :
  ProfileSerializer.check_lengths l = None ↔ Forall entry_length_ok l.
Proof.
  unfold entry_length_ok. induction l as [|x l IH]; simpl.
  - split; [by constructor|done].
  - rewrite Forall_cons, <- IH.
    destruct (50 <? Z.of_nat (String.length x)) eqn:H50.
    { apply Z.ltb_lt in H50. split; [done|]. lia. }
    destruct (Z.of_nat (String.length x) <? 2) eqn:H2.
    { apply Z.ltb_lt in H2. split; [done|]. lia. }
    apply Z.ltb_ge in H50, H2. split; [|tauto]. intros H. split; [lia|done].
Qed.

Lemma validate_interests_eq (raw : string) :
  ProfileSerializer.validate_interests raw
  = if 10 <? Z.of_nat (length (raw_entries raw))
    then ProfileSerializer.ValidationError "Maximum 10 interests allowed"
    else match ProfileSerializer.check_lengths (raw_entries raw) with
         | Some message => ProfileSerializer.ValidationError message
         | None => ProfileSerializer.Valid (Py.join ", " (raw_entries raw))
         end.
Proof. by destruct raw. Qed.

Lemma validate_interests_Valid (raw v : string) :
  ProfileSerializer.validate_interests raw = ProfileSerializer.Valid v →
  v = Py.join ", " (raw_entries raw)
  ∧ (length (raw_entries raw) ≤ 10)%nat
  ∧ Forall entry_length_ok (raw_entries raw).
Proof.
  rewrite validate_interests_eq.
  destruct (10 <? Z.of_nat (length (raw_entries raw))) eqn:H10; [done|].
  apply Z.ltb_ge in H10.
  destruct (ProfileSerializer.check_lengths (raw_entries raw)) as [msg|] eqn:Hc;
    [done|].
  intros [= <-]. split_and!; [done|lia|by apply check_lengths_None].
Qed.

(** X11.  [validate_interests] accepts a field exactly when it has at most
    ten non-empty entries and each is 2 to 50 characters long, and the
    value it returns is those entries, stripped, joined by ", " (the empty
    field is returned as it is). *)
Theorem validate_interests_accepts (raw : string) :
  ((∃ v, ProfileSerializer.validate_interests raw = ProfileSerializer.Valid v)
   ↔ (length (raw_entries raw) ≤ 10)%nat ∧ Forall entry_length_ok (raw_entries raw))
  ∧ (∀ v, ProfileSerializer.validate_interests raw = ProfileSerializer.Valid v →
          v = Py.join ", " (raw_entries raw))
  ∧ ((10 < length (raw_entries raw))%nat →
       ProfileSerializer.validate_interests raw
       = ProfileSerializer.ValidationError "Maximum 10 interests allowed").
Proof.
  rewrite validate_interests_eq.
  destruct (10 <? Z.of_nat (length (raw_entries raw))) eqn:H10.
  - apply Z.ltb_lt in H10. split_and!; [|done..].
    split; [by intros [v [=]]|]. lia.
  - apply Z.ltb_ge in H10.
    destruct (ProfileSerializer.check_lengths (raw_entries raw)) as [msg|] eqn:Hc.
    + split_and!; [|done|lia].
      split; [by intros [v [=]]|]. intros [_ Hok].
      apply check_lengths_None in Hok. congruence.
    + split_and!; [|by intros v [= <-]|lia].
      split; [|by eexists]. intros _. split; [lia|].
      by apply check_lengths_None.
Qed.

(** X12.  An accepted field is in normal form: validating the returned
    value again returns it unchanged. *)
Theorem validate_interests_idempotent (raw v : string) :
  ProfileSerializer.validate_interests raw = ProfileSerializer.Valid v →
  ProfileSerializer.validate_interests v = ProfileSerializer.Valid v.
Proof.
  intros Hv.
  apply validate_interests_Valid in Hv as (-> & Hlen & Hok).
  rewrite validate_interests_eq.
  assert (raw_entries (Py.join ", " (raw_entries raw)) = raw_entries raw) as ->
    by apply stripped_joined, stripped_entries.
  rewrite (proj2 (Z.ltb_ge _ _)) by lia.
  by rewrite (proj2 (check_lengths_None _) Hok).
Qed.

Lemma validate_interests_idempotent_witness :
  ProfileSerializer.validate_interests "Photography, Travel"
  = ProfileSerializer.Valid "Photography, Travel".
Proof.
  apply (validate_interests_idempotent " Photography ,Travel,, "). by vm_compute.
Defined.

(** X13.  Validation does not change what the recommender reads: for an
    ASCII field, the interests list of a profile saved with the accepted
    value is the list of the profile saved with the raw field, and it has
    at most ten entries of 2 to 50 characters. *)
Theorem validated_interests_list (raw v : string) (p : Profile.t) :
  ascii_text raw →
  ProfileSerializer.validate_interests raw = ProfileSerializer.Valid v →
  Profile.get_interests_list (with_interests p v)
  = Profile.get_interests_list (with_interests p raw)
  ∧ (length (Profile.get_interests_list (with_interests p v)) ≤ 10)%nat
  ∧ Forall entry_length_ok (Profile.get_interests_list (with_interests p v)).
Proof.
  intros _ Hv.
  apply validate_interests_Valid in Hv as (-> & Hlen & Hok).
  rewrite parse_joined by apply stripped_entries.
  split_and!.
  - by rewrite get_interests_list_entries.
  - by rewrite length_fmap.
  - apply Forall_fmap. eapply Forall_impl; [exact Hok|].
    intros x Hx. unfold entry_length_ok in *. simpl. by rewrite lower_length.
Qed.

Lemma validated_interests_list_witness :
  Profile.get_interests_list (with_interests Scenario.A "Photography, Travel")
  = Profile.get_interests_list (with_interests Scenario.A " Photography ,Travel,, ").
Proof.
  apply (validated_interests_list " Photography ,Travel,, "); by vm_compute.
Defined.

Lemma interests_list_entries (p : Profile.t) :
  Forall entry (Profile.get_interests_list p).
Proof.
  rewrite get_interests_list_entries. apply Forall_fmap.
  eapply Forall_impl; [apply stripped_entries|]. intros x. apply lower_entry.
Qed.

(** X14.  The interests list of an ASCII field is a normal form: written
    out with ", " between the entries and parsed again, it is the same
    list. *)
Theorem interests_list_round_trip (p : Profile.t) :
  ascii_text (Profile.interests p) →
  Profile.get_interests_list
    (with_interests p (Py.join ", " (Profile.get_interests_list p)))
  = Profile.get_interests_list p.
Proof.
  intros _.
  rewrite parse_joined by apply interests_list_entries.
  rewrite get_interests_list_entries, <- list_fmap_compose.
  apply list_fmap_ext. intros _ x _. simpl.
  apply lower_fixed, lower_no_upper.
Qed.

Lemma interests_list_round_trip_witness :
  Profile.get_interests_list
    (with_interests Scenario.photographer "photography, travel")
  = ["photography"; "travel"].
Proof.
  change "photography, travel"
    with (Py.join ", " ["photography"; "travel"]).
  change ["photography"; "travel"]
    with (Profile.get_interests_list Scenario.photographer).
  apply interests_list_round_trip. by vm_compute.
Defined.

End interests.

(** ** Matching ignores letter case *)

Section letter_case.

Import RecommendationService.

Lemma lower_lower (s : string) : Py.lower (Py.lower s) = Py.lower s.
Proof. apply lower_fixed, lower_no_upper. Qed.

Lemma split_lower (s : string) :
  Py.split "," (Py.lower s) = Py.lower <$> Py.split "," s.
Proof.
  induction s as [|c s IH]; [done|]. simpl.
  rewrite lower_char_comma, IH.
  destruct (Ascii.eqb c ","); [done|].
  pose proof (split_nonempty "," s). by destruct (Py.split "," s).
Qed.

Lemma lstrip_lower (s : string) : Py.lstrip (Py.lower s) = Py.lower (Py.lstrip s).
Proof.
  induction s as [|c s IH]; [done|]. simpl. rewrite lower_char_space.
  by destruct (Py.is_space c).
Qed.

Lemma rstrip_lower (s : string) : Py.rstrip (Py.lower s) = Py.lower (Py.rstrip s).
Proof.
  induction s as [|c s IH]; [done|]. simpl. rewrite IH, lower_char_space.
  destruct (Py.rstrip s); simpl; [|done]. by destruct (Py.is_space c).
Qed.

Lemma clean_lower (s : string) : clean (Py.lower s) = clean s.
Proof.
  unfold clean, Py.strip. by rewrite lstrip_lower, rstrip_lower, lower_lower.
Qed.

Lemma interests_list_lower_case (p : Profile.t) :
  Profile.get_interests_list (lower_case p) = Profile.get_interests_list p.
Proof.
  rewrite !get_interests_list_eq. simpl. rewrite split_lower, <- list_fmap_compose.
  f_equal. apply list_fmap_ext. intros _ x _. apply clean_lower.
Qed.

Lemma bio_keywords_lower_case (p : Profile.t) :
  Profile.get_bio_keywords (lower_case p) = Profile.get_bio_keywords p.
Proof. rewrite !get_bio_keywords_eq. simpl. by rewrite lower_lower. Qed.

(** X15.  Matching ignores the case of ASCII letters: for profiles with
    ASCII text, putting the interests and the bio of either profile in
    lower case changes neither its interests list, nor its bio keywords,
    nor the similarity computed with the other profile. *)
Theorem similarity_ignores_case (a b : Profile.t) :
  ascii_profile a → ascii_profile b →
  Profile.get_interests_list (lower_case a) = Profile.get_interests_list a
  ∧ Profile.get_bio_keywords (lower_case a) = Profile.get_bio_keywords a
  ∧ calculate_interest_similarity (lower_case a) b = calculate_interest_similarity a b
  ∧ calculate_interest_similarity a (lower_case b) = calculate_interest_similarity a b.
Proof.
  intros _ _. split_and!.
  - apply interests_list_lower_case.
  - apply bio_keywords_lower_case.
  - unfold calculate_interest_similarity.
    by rewrite interests_list_lower_case, bio_keywords_lower_case.
  - unfold calculate_interest_similarity.
    by rewrite interests_list_lower_case, bio_keywords_lower_case.
Qed.

Lemma similarity_ignores_case_witness :
  calculate_interest_similarity (lower_case Scenario.photographer) Scenario.traveller
  = calculate_interest_similarity Scenario.photographer Scenario.traveller.
Proof.
  destruct (similarity_ignores_case Scenario.photographer Scenario.traveller)
    as (_ & _ & H & _); [split; by vm_compute..|exact H].
Defined.

End letter_case.

(** ** Following and unfollowing *)

Section following.

Import RecommendationService.

Lemma with_connections_same (st : Store.t) :
  Views.with_connections st (Store.connections st) = st.
Proof. by destruct st. Qed.

Lemma elem_of_edges (st : Store.t) (a b : Profile.t) (c : Connection.t) :
  c ∈ Views.edges st a b
  ↔ c ∈ Store.connections st ∧ c = Connection.mk (Profile.id a) (Profile.id b).
Proof.
  unfold Views.edges. rewrite list_elem_of_filter. destruct c as [f g]. simpl.
  split; [intros [[-> ->] H]; by split | intros [H [= -> ->]]; by split].
Qed.

Lemma edges_nil (st : Store.t) (a b : Profile.t) :
  Views.edges st a b = [] ↔ ¬ follows_edge st a b.
Proof.
  unfold follows_edge. split.
  - intros Hnil Hin.
    assert (Connection.mk (Profile.id a) (Profile.id b) ∈ Views.edges st a b)
      as H by (by apply elem_of_edges).
    rewrite Hnil in H. by apply elem_of_nil in H.
  - intros Hno. destruct (Views.edges st a b) as [|c l] eqn:E; [done|].
    exfalso. apply Hno.
    assert (c ∈ Views.edges st a b) as H by (rewrite E; apply list_elem_of_here).
    apply elem_of_edges in H as [H ->]. done.
Qed.

Lemma get_object_Found (st : Store.t) (user_id : Z) (p : Profile.t) :
  Views.get_object_or_404 st user_id = Views.Found p →
  p ∈ Store.profiles st ∧ Profile.id p = user_id.
Proof.
  unfold Views.get_object_or_404.
  destruct (filter _ (Store.profiles st)) as [|q [|q' l]] eqn:E; try done.
  intros [= <-].
  assert (q ∈ filter (λ p, Profile.id p = user_id) (Store.profiles st)) as H
    by (rewrite E; apply list_elem_of_here).
  apply list_elem_of_filter in H. tauto.
Qed.

Lemma get_object_missing (st : Store.t) (user_id : Z) :
  (∀ p, p ∈ Store.profiles st → Profile.id p ≠ user_id) →
  Views.get_object_or_404 st user_id = Views.Http404.
Proof.
  intros Hno. unfold Views.get_object_or_404.
  rewrite filter_none; [done|]. by apply Forall_forall.
Qed.

(** X16.  The identifier of no stored profile: both views answer with
    status 500, not 404 (the [Http404] of the lookup is caught by the
    handler for every exception), and the store is untouched. *)
Theorem follow_missing_profile (st : Store.t) (me : Profile.t) (user_id : Z) :
  (∀ p, p ∈ Store.profiles st → Profile.id p ≠ user_id) →
  Views.follow_user st me user_id = (st, Views.FailedToFollow)
  ∧ Views.unfollow_user st me user_id = (st, Views.FailedToUnfollow)
  ∧ Views.status (Views.follow_user st me user_id).2 = 500
  ∧ Views.status (Views.unfollow_user st me user_id).2 = 500.
Proof.
  intros Hno. unfold Views.follow_user, Views.unfollow_user.
  by rewrite get_object_missing.
Qed.

Lemma follow_missing_profile_witness :
  Views.follow_user Scenario.follows Scenario.A 99
  = (Scenario.follows, Views.FailedToFollow).
Proof.
  apply follow_missing_profile. intros p Hp.
  repeat (apply elem_of_cons in Hp as [->|Hp]; [done|]).
  by apply elem_of_nil in Hp.
Defined.

(** X17.  [follow_user] changes the store in one case only, and then by
    adding the one edge from the requester to the target, which was not
    there and is not a self-follow: the constraint
    [unique_together = ('follower', 'following')] and the absence of
    self-follows are kept, and no edge is ever removed. *)
Theorem follow_user_invariants (st : Store.t) (me : Profile.t) (user_id : Z) :
  ((Views.follow_user st me user_id).1 = st
   ∨ ∃ target,
       Views.follow_user st me user_id
       = (Views.with_connections st
            (Store.connections st
             ++ [Connection.mk (Profile.id me) (Profile.id target)]),
          Views.NowFollowing target)
       ∧ target ∈ Store.profiles st
       ∧ Profile.id target = user_id
       ∧ Profile.id target ≠ Profile.id me
       ∧ ¬ follows_edge st me target)
  ∧ (unique_connections st → unique_connections (Views.follow_user st me user_id).1)
  ∧ (no_self_follow st → no_self_follow (Views.follow_user st me user_id).1)
  ∧ (∀ c, c ∈ Store.connections st →
          c ∈ Store.connections (Views.follow_user st me user_id).1).
Proof.
  assert (Hcases : (Views.follow_user st me user_id).1 = st
   ∨ ∃ target,
       Views.follow_user st me user_id
       = (Views.with_connections st
            (Store.connections st
             ++ [Connection.mk (Profile.id me) (Profile.id target)]),
          Views.NowFollowing target)
       ∧ target ∈ Store.profiles st
       ∧ Profile.id target = user_id
       ∧ Profile.id target ≠ Profile.id me
       ∧ ¬ follows_edge st me target).
  { unfold Views.follow_user.
    destruct (Views.get_object_or_404 st user_id) as [target| |] eqn:Hget;
      [|by left..].
    apply get_object_Found in Hget as [Hin Hid].
    destruct (bool_decide (Profile.id target = Profile.id me)) eqn:Hself;
      [by left|].
    apply bool_decide_eq_false in Hself.
    destruct (Views.edges st me target) as [|c [|c' l]] eqn:Hedges; [|by left..].
    right. exists target. split_and!; try done. by apply edges_nil. }
  split; [exact Hcases|].
  destruct Hcases as [->|(target & -> & Hin & Hid & Hself & Hnew)]; [done|].
  simpl. split_and!.
  - unfold unique_connections. simpl. intros Hnd.
    apply NoDup_app. split_and!; [done| |apply NoDup_singleton].
    intros c Hc ->%list_elem_of_singleton. by apply Hnew.
  - unfold no_self_follow. simpl. intros Hno c [Hc|Hc]%elem_of_app; [by apply Hno|].
    apply list_elem_of_singleton in Hc as ->. simpl. congruence.
  - intros c Hc. apply elem_of_app. by left.
Qed.

Lemma follow_user_success (st st1 : Store.t) (me target : Profile.t) (user_id : Z) :
  Views.follow_user st me user_id = (st1, Views.NowFollowing target) →
  Views.get_object_or_404 st user_id = Views.Found target
  ∧ Profile.id target ≠ Profile.id me
  ∧ Views.edges st me target = []
  ∧ st1 = Views.with_connections st
            (Store.connections st
             ++ [Connection.mk (Profile.id me) (Profile.id target)]).
Proof.
  unfold Views.follow_user.
  destruct (Views.get_object_or_404 st user_id) as [t| |] eqn:Hget; try done.
  destruct (bool_decide (Profile.id t = Profile.id me)) eqn:Hself; [done|].
  apply bool_decide_eq_false in Hself.
  destruct (Views.edges st me t) as [|c [|c' l]] eqn:Hedges; try done.
  by intros [= <- <-].
Qed.

Lemma edges_after_follow (st : Store.t) (me target : Profile.t) :
  Views.edges st me target = [] →
  Views.edges
    (Views.with_connections st
       (Store.connections st
        ++ [Connection.mk (Profile.id me) (Profile.id target)])) me target
  = [Connection.mk (Profile.id me) (Profile.id target)].
Proof.
  unfold Views.edges. simpl. intros Hnil.
  rewrite filter_app, Hnil. simpl. by rewrite filter_cons, decide_True.
Qed.

Lemma follows_after_follow (st st1 : Store.t) (me target : Profile.t) (user_id : Z) :
  Views.follow_user st me user_id = (st1, Views.NowFollowing target) →
  follows_edge st1 me target.
Proof.
  intros (_ & _ & _ & ->)%follow_user_success.
  unfold follows_edge. simpl. apply elem_of_app. right.
  by apply list_elem_of_singleton.
Qed.

(** X18.  Following is idempotent: once a follow has succeeded, the same
    request is answered "Already following" with status 400 and leaves the
    store as it is. *)
Theorem follow_twice (st st1 : Store.t) (me target : Profile.t) (user_id : Z) :
  Views.follow_user st me user_id = (st1, Views.NowFollowing target) →
  follows_edge st1 me target
  ∧ Views.follow_user st1 me user_id = (st1, Views.AlreadyFollowing)
  ∧ Views.status Views.AlreadyFollowing = 400.
Proof.
  intros Hfollow. split_and!; [by eapply follows_after_follow| |done].
  apply follow_user_success in Hfollow as (Hget & Hself & Hedges & ->).
  - unfold Views.follow_user.
    change (Views.get_object_or_404 (Views.with_connections st _) user_id)
      with (Views.get_object_or_404 st user_id).
    rewrite Hget, (bool_decide_eq_false_2 _ Hself).
    by rewrite edges_after_follow.
Qed.

Lemma follow_twice_witness :
  Views.follow_user (Views.follow_user Scenario.follows Scenario.A 2).1 Scenario.A 2
  = ((Views.follow_user Scenario.follows Scenario.A 2).1, Views.AlreadyFollowing).
Proof.
  apply (follow_twice Scenario.follows _ Scenario.A Scenario.B 2). by vm_compute.
Defined.

Lemma delete_first_app_last {A : Type} (P : A → Prop) `{∀ x, Decision (P x)}
    (l : list A) (x : A) :
  filter P l = [] → P x → Views.delete_first P (l ++ [x]) = l.
Proof.
  intros Hnil Hx. induction l as [|y l IH]; simpl.
  - by rewrite decide_True.
  - rewrite filter_cons in Hnil. destruct (decide (P y)); [done|].
    by rewrite IH.
Qed.

(** X19.  Unfollowing undoes following: after a follow that succeeded, the
    unfollow request for the same profile succeeds and gives back the store
    as it was before the follow. *)
Theorem follow_then_unfollow (st st1 : Store.t) (me target : Profile.t)
    (user_id : Z) :
  Views.follow_user st me user_id = (st1, Views.NowFollowing target) →
  Views.unfollow_user st1 me user_id = (st, Views.Unfollowed target).
Proof.
  intros (Hget & Hself & Hedges & ->)%follow_user_success.
  unfold Views.unfollow_user.
  change (Views.get_object_or_404 (Views.with_connections st _) user_id)
    with (Views.get_object_or_404 st user_id).
  rewrite Hget, edges_after_follow by done. simpl.
  rewrite delete_first_app_last; [|exact Hedges|done].
  by destruct st.
Qed.

Lemma follow_then_unfollow_witness :
  Views.unfollow_user (Views.follow_user Scenario.follows Scenario.A 2).1
    Scenario.A 2
  = (Scenario.follows, Views.Unfollowed Scenario.B).
Proof.
  apply (follow_then_unfollow Scenario.follows _ Scenario.A Scenario.B 2).
  by vm_compute.
Defined.

Lemma elem_of_delete_first {A : Type} (P : A → Prop) `{∀ x, Decision (P x)}
    (l : list A) (x : A) :
  x ∈ Views.delete_first P l → x ∈ l.
Proof.
  induction l as [|y l IH]; simpl; [done|].
  destruct (decide (P y)); rewrite ?elem_of_cons; [tauto|].
  intros [->|Hx]; [by left|right; by apply IH].
Qed.

Lemma delete_first_keeps {A : Type} (P : A → Prop) `{∀ x, Decision (P x)}
    (l : list A) (x : A) :
  x ∈ l → ¬ P x → x ∈ Views.delete_first P l.
Proof.
  induction l as [|y l IH]; simpl; [done|].
  intros [->|Hx]%elem_of_cons Hnot.
  - rewrite decide_False by done. apply list_elem_of_here.
  - destruct (decide (P y)); [done|]. apply list_elem_of_further. by apply IH.
Qed.

Lemma delete_first_NoDup {A : Type} (P : A → Prop) `{∀ x, Decision (P x)}
    (l : list A) (x : A) :
  NoDup l → P x → (∀ y, y ∈ l → P y → y = x) → x ∉ Views.delete_first P l.
Proof.
  induction l as [|y l IH]; simpl; intros Hnd Hx Hall.
  - apply not_elem_of_nil.
  - apply NoDup_cons in Hnd as [Hy Hnd].
    destruct (decide (P y)) as [Hp|Hp].
    + rewrite (Hall y (list_elem_of_here _ _) Hp) in Hy. done.
    + apply not_elem_of_cons. split; [by intros ->|].
      apply IH; [done..|]. intros z Hz. apply Hall. by apply list_elem_of_further.
Qed.

(** X20.  [unfollow_user] removes the edge to the target and nothing else:
    it succeeds exactly when the requester follows the target, every other
    edge is kept, no edge is added, and under the uniqueness constraint the
    requester does not follow the target afterwards; when there is no such
    edge the answer is "Not following" with status 400 and the store is
    unchanged. *)
Theorem unfollow_user_removes (st : Store.t) (me target : Profile.t) (user_id : Z) :
  Views.get_object_or_404 st user_id = Views.Found target →
  (follows_edge st me target →
     (Views.unfollow_user st me user_id).2 = Views.Unfollowed target
     ∧ (unique_connections st →
          ¬ follows_edge (Views.unfollow_user st me user_id).1 me target))
  ∧ (¬ follows_edge st me target →
       Views.unfollow_user st me user_id = (st, Views.NotFollowing)
       ∧ Views.status Views.NotFollowing = 400)
  ∧ (∀ c, c ∈ Store.connections (Views.unfollow_user st me user_id).1 →
          c ∈ Store.connections st)
  ∧ (∀ c, c ∈ Store.connections st →
          c ≠ Connection.mk (Profile.id me) (Profile.id target) →
          c ∈ Store.connections (Views.unfollow_user st me user_id).1).
Proof.
  intros Hget. unfold Views.unfollow_user. rewrite Hget.
  destruct (Views.edges st me target) as [|e l] eqn:Hedges; simpl.
  - apply edges_nil in Hedges. split_and!; try done.
  - assert (follows_edge st me target) as Hf.
    { assert (e ∈ Views.edges st me target) as He
        by (rewrite Hedges; apply list_elem_of_here).
      apply elem_of_edges in He as [He ->]. exact He. }
    split_and!.
    + intros _. split; [done|]. intros Hnd. unfold follows_edge. simpl.
      apply delete_first_NoDup; [done..|].
      intros [f g] _ [Hf' Hg]. simpl in *. by subst.
    + done.
    + intros c. apply elem_of_delete_first.
    + intros c Hc Hne. apply delete_first_keeps; [done|].
      destruct c as [f g]. simpl. intros [-> ->]. done.
Qed.

Lemma unfollow_user_removes_witness :
  (Views.unfollow_user Scenario.follows Scenario.A 3).2 = Views.Unfollowed Scenario.X.
Proof.
  destruct (unfollow_user_removes Scenario.follows Scenario.A Scenario.X 3)
    as [H _]; [by vm_compute|].
  apply H. unfold follows_edge. simpl. apply list_elem_of_here.
Defined.



End following.

(** ** The recommendation views *)

Section recommendation_views.

Import RecommendationService.
Import RecommendationRequestSerializer.

Lemma is_valid_Some (d : data) (v : validated_data) :
  is_valid d = Some v →
  1 ≤ v_limit v ≤ 50
  ∧ v_limit v = value_or 10 (limit d)
  ∧ v_use_cache v = value_or true (use_cache d)
  ∧ v_refresh_if_old v = value_or true (refresh_if_old d).
Proof.
  unfold is_valid. destruct (_ || _); [done|].
  destruct (_ <? 1) eqn:H1; [done|]. destruct (50 <? _) eqn:H50; [done|]. simpl.
  destruct (_ || _); [done|]. intros [= <-]. simpl.
  apply Z.ltb_ge in H1, H50. split_and!; (done || lia).
Qed.

Lemma is_valid_None (d : data) :
  is_valid d = None
  ↔ refused (limit d) = true ∨ refused (min_score d) = true
    ∨ refused (use_cache d) = true ∨ refused (refresh_if_old d) = true
    ∨ refused (include_mutual_connections d) = true
    ∨ value_or 10 (limit d) < 1
    ∨ 50 < value_or 10 (limit d)
    ∨ PrimFloat.ltb (value_or 0.1%float (min_score d)) 0.0 = true
    ∨ PrimFloat.ltb 1.0 (value_or 0.1%float (min_score d)) = true.
Proof.
  unfold is_valid.
  destruct (refused (limit d)); [simpl; split; [intros _; by left|done]|].
  destruct (refused (min_score d));
    [simpl; split; [intros _; right; by left|done]|].
  destruct (refused (use_cache d));
    [simpl; split; [intros _; do 2 right; by left|done]|].
  destruct (refused (refresh_if_old d));
    [simpl; split; [intros _; do 3 right; by left|done]|].
  destruct (refused (include_mutual_connections d));
    [simpl; split; [intros _; do 4 right; by left|done]|].
  simpl.
  destruct (_ <? 1) eqn:H1;
    [apply Z.ltb_lt in H1; simpl; split; [intros _; do 5 right; by left|done]|].
  destruct (50 <? _) eqn:H50;
    [apply Z.ltb_lt in H50; simpl; split; [intros _; do 6 right; by left|done]|].
  apply Z.ltb_ge in H1, H50. simpl.
  destruct (PrimFloat.ltb _ 0) eqn:Hlo;
    [simpl; split; [intros _; do 7 right; by left|done]|].
  destruct (PrimFloat.ltb 1 _) eqn:Hhi;
    [simpl; split; [intros _; do 8 right; done|done]|]. simpl.
  split; [done|]. intros [?|[?|[?|[?|[?|[?|[?|[?|?]]]]]]]]; (lia || done).
Qed.

(** X22.  For a requesting user with a profile, [user_recommendations]
    fails, with status 500 and the store untouched, exactly when it is a
    POST whose body is refused by the serializer: the body is no JSON
    object, or a field's parser refuses its key (a value of another type,
    [null]), or [limit] is outside 1..50, or [min_score] is outside 0..1
    (the validation error is caught by the handler for every exception); a
    GET never fails.  In every other case the response lists at most 50
    rows, all of the requesting user, and [total_count] is their number. *)
Theorem user_recommendations_response (st : Store.t) (now : Z)
    (stamps : nat → Z * Z) (generated_at : Z) (u : Profile.t)
    (m : Views.method) (b : body) :
  ((Views.user_recommendations st now stamps generated_at u m b).2
   = Views.RecommendationsFailed
   ↔ m = Views.POST ∧ validate b = None)
  ∧ (validate b = None
     ↔ b = Unreadable
       ∨ ∃ d, b = Fields d
              ∧ (refused (limit d) = true ∨ refused (min_score d) = true
                 ∨ refused (use_cache d) = true ∨ refused (refresh_if_old d) = true
                 ∨ refused (include_mutual_connections d) = true
                 ∨ value_or 10 (limit d) < 1
                 ∨ 50 < value_or 10 (limit d)
                 ∨ PrimFloat.ltb (value_or 0.1%float (min_score d)) 0.0 = true
                 ∨ PrimFloat.ltb 1.0 (value_or 0.1%float (min_score d)) = true))
  ∧ ((Views.user_recommendations st now stamps generated_at u m b).2
     = Views.RecommendationsFailed →
     (Views.user_recommendations st now stamps generated_at u m b).1 = st)
  ∧ (∀ rows n cache_used at_ interests following,
       (Views.user_recommendations st now stamps generated_at u m b).2
       = Views.RecommendationsOk rows n cache_used at_ interests following →
       n = Z.of_nat (length rows)
       ∧ n ≤ 50
       ∧ (∀ r, r ∈ rows → UserRecommendation.user_id r = Profile.id u)
       ∧ at_ = generated_at
       ∧ interests = Profile.get_interests_list u
       ∧ following = Z.of_nat (length (Store.following_ids st u))).
Proof.
  assert (Hserve : ∀ limit use_cache refresh_if_old,
    1 ≤ limit ≤ 50 →
    ∃ st' rows,
      get_recommendations_for_user st now stamps u limit use_cache refresh_if_old
      = (st', Ok rows)
      ∧ Z.of_nat (length rows) ≤ 50
      ∧ (∀ r, r ∈ rows → UserRecommendation.user_id r = Profile.id u)
      ∧ Store.connections st' = Store.connections st).
  { intros limit uc rio Hl.
    destruct (get_recommendations_for_user_rows st now stamps u limit uc rio
                ltac:(lia))
      as (rows & Hrows & Hlen & Hall & _ & Hconn & _).
    destruct (get_recommendations_for_user st now stamps u limit uc rio)
      as [st' res].
    simpl in *. subst res. exists st', rows. split_and!; [done|lia| |done].
    intros r Hr. by apply Hall. }
  assert (Hvalid : ∀ v, validate b = Some v → 1 ≤ v_limit v ≤ 50).
  { intros v Hv. destruct b as [d|]; [|done]. by apply is_valid_Some in Hv as [? _]. }
  split_and!.
  - unfold Views.user_recommendations. destruct m.
    + destruct (Hserve default_limit true true ltac:(unfold default_limit; lia))
        as (st' & rows & -> & _). simpl. split; [done|]. by intros [[=] _].
    + destruct (validate b) as [v|] eqn:Hv; [|done].
      destruct (Hserve (v_limit v) (v_use_cache v) (v_refresh_if_old v)
                  (Hvalid v eq_refl))
        as (st' & rows & -> & _). simpl. split; [done|]. by intros [_ [=]].
  - destruct b as [d|]; simpl.
    + rewrite is_valid_None. split.
      * intros H. right. by exists d.
      * by intros [[=]|(d' & [= <-] & H)].
    + split; [by left|done].
  - unfold Views.user_recommendations. destruct m.
    + destruct (Hserve default_limit true true ltac:(unfold default_limit; lia))
        as (st' & rows & -> & _). done.
    + destruct (validate b) as [v|] eqn:Hv; [|done].
      destruct (Hserve (v_limit v) (v_use_cache v) (v_refresh_if_old v)
                  (Hvalid v eq_refl))
        as (st' & rows & -> & _). done.
  - intros rows n cu at_ ints fol. unfold Views.user_recommendations. destruct m.
    + destruct (Hserve default_limit true true ltac:(unfold default_limit; lia))
        as (st' & rows' & -> & Hlen & Hall & Hconn). simpl.
      intros [= <- <- <- <- <- <-]. unfold Store.following_ids. rewrite Hconn.
      by split_and!.
    + destruct (validate b) as [v|] eqn:Hv; [|done].
      destruct (Hserve (v_limit v) (v_use_cache v) (v_refresh_if_old v)
                  (Hvalid v eq_refl))
        as (st' & rows' & -> & Hlen & Hall & Hconn). simpl.
      intros [= <- <- <- <- <- <-]. unfold Store.following_ids. rewrite Hconn.
      by split_and!.
Qed.

(** X23.  The [min_score] of the request is validated and then ignored:
    two POST bodies that the serializer accepts and that differ in
    [min_score] only get the same response and leave the same store (the
    service is called with its default threshold 0.1). *)
Theorem min_score_ignored (st : Store.t) (now : Z) (stamps : nat → Z * Z)
    (generated_at : Z) (u : Profile.t)
    (limit : field Z) (min_score min_score' : field float)
    (use_cache refresh_if_old include : field bool) :
  is_valid (mk_data limit min_score use_cache refresh_if_old include) ≠ None →
  is_valid (mk_data limit min_score' use_cache refresh_if_old include) ≠ None →
  Views.user_recommendations st now stamps generated_at u Views.POST
    (Fields (mk_data limit min_score use_cache refresh_if_old include))
  = Views.user_recommendations st now stamps generated_at u Views.POST
      (Fields (mk_data limit min_score' use_cache refresh_if_old include)).
Proof.
  unfold Views.user_recommendations, validate, is_valid. simpl.
  destruct (refused limit); [done|]. simpl.
  destruct (refused min_score); [done|]. destruct (refused min_score'); [done|].
  simpl. destruct (_ || _ || _); [done|].
  destruct (_ || _); [done|].
  destruct (PrimFloat.ltb (value_or 0.1%float min_score) 0
            || PrimFloat.ltb 1 (value_or 0.1%float min_score))%bool; [done|].
  destruct (PrimFloat.ltb (value_or 0.1%float min_score') 0
            || PrimFloat.ltb 1 (value_or 0.1%float min_score'))%bool; [done|].
  done.
Qed.

Lemma min_score_ignored_witness :
  Views.user_recommendations Scenario.cached 0 (λ i, (0, 0)) 0 Scenario.A Views.POST
    (Fields (mk_data (Parsed 5) (Parsed 0.9%float) Missing Missing Missing))
  = Views.user_recommendations Scenario.cached 0 (λ i, (0, 0)) 0 Scenario.A
      Views.POST (Fields (mk_data (Parsed 5) Missing Missing Missing Missing)).
Proof. apply min_score_ignored; by vm_compute. Defined.

(** Rows that tie on the score are read newest first. *)

Lemma insert_stable_last {A : Type} (before : A → A → bool) (x : A) (l : list A) :
  Forall (λ y, before y x = true) l → Py.insert_stable before x l = l ++ [x].
Proof.
  induction 1 as [|y l Hy _ IH]; simpl; [done|]. by rewrite Hy, IH.
Qed.

Lemma stable_sort_newest_first {A : Type} (before : A → A → bool) (l : list A) :
  (∀ i j x y, l !! i = Some x → l !! j = Some y → (i < j)%nat →
              before y x = true) →
  Py.stable_sort before l = reverse l.
Proof.
  induction l as [|x l IH]; intros Hlater; [done|].
  unfold Py.stable_sort in *. simpl. rewrite IH.
  - rewrite insert_stable_last, reverse_cons; [done|].
    apply Forall_forall. intros y Hy. rewrite elem_of_reverse in Hy.
    apply list_elem_of_lookup in Hy as [j Hj].
    apply (Hlater 0%nat (S j)); [reflexivity|exact Hj|lia].
  - intros i j a b Ha Hb Hij. apply (Hlater (S i) (S j)); [exact Ha|exact Hb|lia].
Qed.

Lemma stamped_newest_first (stamps : nat → Z * Z) (fresh : list Recommendation.t) :
  (∀ i j : nat, (i < j)%nat → (stamps i).1 < (stamps j).1) →
  (∀ r r', r ∈ fresh → r' ∈ fresh →
           PrimFloat.eqb (Recommendation.score r) (Recommendation.score r') = true) →
  Py.stable_sort UserRecommendation.before (stamped stamps fresh)
  = reverse (stamped stamps fresh).
Proof.
  intros Hclock Htie. apply stable_sort_newest_first.
  intros i j x y Hx Hy Hij. unfold stamped in Hx, Hy.
  rewrite list_lookup_imap in Hx, Hy.
  destruct (fresh !! i) as [a|] eqn:Ha; [|done].
  destruct (fresh !! j) as [b|] eqn:Hb; [|done].
  injection Hx as <-. injection Hy as <-.
  unfold UserRecommendation.before. simpl.
  rewrite (Htie b a) by (eapply list_elem_of_lookup_2; eauto).
  rewrite (proj2 (Z.ltb_lt _ _) (Hclock i j Hij)). apply orb_true_r.
Qed.

(** X24.  The refresh view replaces the cached rows of the user by the
    fresh top 20 and reports their number.  A GET of the recommendations
    made while these rows are at most seven days old is then served from
    them, the first 10 in the order of the cache, and does not change
    the store.  The order of the cache puts the higher score first and,
    among equal scores, the row created later: when the clock advanced from
    each insert to the next and all the scores tie, the rows come back in
    the reverse of the order in which they were generated. *)
Theorem refresh_view_then_get (st : Store.t) (stamps stamps' : nat → Z * Z)
    (now' generated_at : Z) (u : Profile.t) (b : body) :
  (∀ r, r ∈ rows_of (Views.refresh_recommendations st stamps u).1 u →
        now' - UserRecommendation.updated_at r ≤ timedelta_days 7) →
  ∃ fresh,
    generate_recommendations_for_user st u 20 default_min_score = Ok fresh
    ∧ (length fresh ≤ 20)%nat
    ∧ Views.refresh_recommendations st stamps u
      = (cache_recommendations st stamps u fresh, Some (Z.of_nat (length fresh)))
    ∧ rows_of (cache_recommendations st stamps u fresh) u = stamped stamps fresh
    ∧ Views.user_recommendations (cache_recommendations st stamps u fresh) now'
        stamps' generated_at u Views.GET b
      = (cache_recommendations st stamps u fresh,
         Views.RecommendationsOk
           (take 10 (Py.stable_sort UserRecommendation.before
                       (stamped stamps fresh)))
           (Z.of_nat (length (take 10 (Py.stable_sort UserRecommendation.before
                                          (stamped stamps fresh)))))
           true generated_at (Profile.get_interests_list u)
           (Z.of_nat (length (Store.following_ids st u))))
    ∧ ((∀ i j : nat, (i < j)%nat → (stamps i).1 < (stamps j).1) →
       (∀ r r', r ∈ fresh → r' ∈ fresh →
                PrimFloat.eqb (Recommendation.score r) (Recommendation.score r')
                = true) →
       Py.stable_sort UserRecommendation.before (stamped stamps fresh)
       = reverse (stamped stamps fresh)).
Proof.
  intros Hage.
  destruct (generated_ok st u 20 default_min_score) as (fresh & Hgen & Hu).
  pose proof (generated_at_most _ _ _ _ _ Hgen) as Hlen.
  assert (Hview : Views.refresh_recommendations st stamps u
                  = (cache_recommendations st stamps u fresh,
                     Some (Z.of_nat (length fresh)))).
  { unfold Views.refresh_recommendations.
    unfold Store.delete_recommendations_of at 1.
    rewrite generate_ignores_cache, Hgen. by rewrite cache_after_delete. }
  rewrite Hview in Hage. simpl in Hage.
  rewrite rows_of_cache_recommendations in Hage by done.
  exists fresh. split_and!; [done|lia|done| | |].
  - by apply rows_of_cache_recommendations.
  - unfold Views.user_recommendations.
    rewrite (get_after_cache st stamps stamps' now' u 20 default_limit fresh)
      by (done || unfold default_limit; lia).
    done.
  - apply stamped_newest_first.
Qed.

(** Twelve candidates with the same score, cached by an insert during which
    the clock advanced: the view serves the ten created last, newest
    first. *)
Lemma refresh_view_then_get_witness :
  ∃ rows,
    (Views.user_recommendations
       (Views.refresh_recommendations Ties.store Ties.tick Ties.U).1
       (timedelta_days 3) (λ i, (0, 0)) (timedelta_days 3) Ties.U Views.GET
       Unreadable).2
    = Views.RecommendationsOk rows 10 true (timedelta_days 3) ["music"] 0
    ∧ UserRecommendation.recommended_user_id <$> rows
      = [13; 12; 11; 10; 9; 8; 7; 6; 5; 4].
Proof.
  destruct (refresh_view_then_get Ties.store Ties.tick (λ i, (0, 0))
              (timedelta_days 3) (timedelta_days 3) Ties.U Unreadable)
    as (fresh & Hgen & _ & Hview & _ & Hget & _).
  { intros r Hr. each_row Hr. }
  rewrite Hview. cbn [fst]. rewrite Hget. cbn [snd].
  vm_compute in Hgen. injection Hgen as <-.
  eexists. split; [reflexivity|]. by vm_compute.
Defined.

End recommendation_views.

(** ** The display methods of [Profile] *)

Section profile_display.

Import ProfileMethods.

(** X25.  [get_age] counts the birthdays that have passed: without a date
    of birth there is no age; otherwise the age [a] is the one integer for
    which the birthday of year [dob.year + a] is not after today and the
    next one is.  The date is not checked against the clock: the age is
    negative exactly when the date of birth is after today. *)
Theorem get_age_birthdays (today : date) :
  get_age None today = None
  ∧ (∀ dob a,
       get_age (Some dob) today = Some a
       ↔ date_le (years_later dob a) today
         ∧ date_lt today (years_later dob (a + 1)))
  ∧ (∀ dob, ∃ a, get_age (Some dob) today = Some a ∧ (a < 0 ↔ date_lt today dob)).
Proof.
  split_and!; [done| |].
  - intros dob a.
    unfold get_age, tuple_lt, date_le, date_lt, years_later.
    destruct dob as [y m d], today as [ty tm td]. simpl.
    split.
    + intros [= <-].
      destruct (tm <? m) eqn:H1; [apply Z.ltb_lt in H1|apply Z.ltb_ge in H1]; simpl.
      * split; [left|]; lia.
      * destruct (tm =? m) eqn:H2; [apply Z.eqb_eq in H2|apply Z.eqb_neq in H2]; simpl.
        -- destruct (td <? d) eqn:H3; [apply Z.ltb_lt in H3|apply Z.ltb_ge in H3].
           ++ split; [left|]; lia.
           ++ split; [|lia]. destruct (decide (td = d)) as [->|].
              ** right. f_equal; lia.
              ** left. lia.
        -- split; [left|]; lia.
    + intros [[Hle|[= <- <- <-]] Hlt]; f_equal.
      * destruct (tm <? m) eqn:H1; [apply Z.ltb_lt in H1|apply Z.ltb_ge in H1]; simpl.
        -- lia.
        -- destruct (tm =? m) eqn:H2; [apply Z.eqb_eq in H2|apply Z.eqb_neq in H2];
             simpl.
           ++ destruct (td <? d) eqn:H3; [apply Z.ltb_lt in H3|apply Z.ltb_ge in H3];
                lia.
           ++ lia.
      * rewrite Z.ltb_irrefl, Z.eqb_refl, Z.ltb_irrefl. simpl. lia.
  - intros dob. eexists. split; [done|].
    unfold tuple_lt, date_lt. destruct dob as [y m d], today as [ty tm td]. simpl.
    destruct (tm <? m) eqn:H1; [apply Z.ltb_lt in H1|apply Z.ltb_ge in H1]; simpl.
    + lia.
    + destruct (tm =? m) eqn:H2; [apply Z.eqb_eq in H2|apply Z.eqb_neq in H2]; simpl.
      * destruct (td <? d) eqn:H3; [apply Z.ltb_lt in H3|apply Z.ltb_ge in H3]; lia.
      * lia.
Qed.

Lemma first_char_app (s t : string) :
  s ≠ "" → first_char (s +:+ t) = first_char s.
Proof. by destruct s. Qed.

Lemma rstrip_app_space (s : string) : Py.rstrip (s +:+ " ") = Py.rstrip s.
Proof.
  induction s as [|c s IH]; [done|].
  rewrite string_app_cons. simpl. by rewrite IH.
Qed.

Lemma lstrip_app_space (s : string) :
  Py.lstrip (s +:+ " ") = Py.lstrip s +:+ " " ∨ (Py.lstrip (s +:+ " ") = "" ∧ Py.lstrip s = "").
Proof.
  induction s as [|c s IH]; [by right|].
  rewrite string_app_cons. simpl. destruct (Py.is_space c); [done|].
  left. by rewrite string_app_cons.
Qed.

(** X26.  [get_full_name] leaves no stray space: with one name missing
    the full name is the other name, stripped; two names that have no white
    space at their ends come back whole, joined by one space. *)
Theorem get_full_name_parts (first_name last_name : string) :
  get_full_name first_name "" = Py.strip first_name
  ∧ get_full_name "" last_name = Py.strip last_name
  ∧ (first_name ≠ "" → last_name ≠ "" → trimmed first_name → trimmed last_name →
     get_full_name first_name last_name = first_name +:+ " " +:+ last_name).
Proof.
  unfold get_full_name. split_and!.
  - rewrite string_app_nil_r. unfold Py.strip.
    destruct (lstrip_app_space first_name) as [->|[-> ->]]; [|done].
    apply rstrip_app_space.
  - rewrite string_app_nil_l. apply strip_space.
  - intros Hf Hl [Hf1 _] [_ Hl2]. apply strip_trimmed. split.
    + intros c. rewrite first_char_app by done. apply Hf1.
    + intros c. rewrite last_char_app.
      * rewrite last_char_app by done. apply Hl2.
      * by destruct last_name.
Qed.

End profile_display.

(** ** The order of the entries returned *)

Section ranking_order.

Import RecommendationService.

Lemma SFleb_number (x y : spec_float) :
  SFleb x y = true → x ≠ S754_nan ∧ y ≠ S754_nan.
Proof. by destruct x as [| | |], y as [| | |]. Qed.

Ltac compare_cases :=
  repeat match goal with
         | H : context [Z.compare ?a ?b] |- _ =>
             destruct (Z.compare_spec a b); simpl in H; try done
         | H : context [PosDef.Pos.compare_cont Eq ?a ?b] |- _ =>
             change (PosDef.Pos.compare_cont Eq a b) with (Pos.compare a b) in H;
             destruct (Pos.compare_spec a b); simpl in H; try done
         | |- context [Z.compare ?a ?b] =>
             destruct (Z.compare_spec a b); simpl; try done
         | |- context [PosDef.Pos.compare_cont Eq ?a ?b] =>
             change (PosDef.Pos.compare_cont Eq a b) with (Pos.compare a b);
             destruct (Pos.compare_spec a b); simpl; try done
         end; try lia.

Lemma SFleb_trans (x y z : spec_float) :
  SFleb x y = true → SFleb y z = true → SFleb x z = true.
Proof.
  unfold SFleb.
  destruct x as [[]|[]| |[] mx ex], y as [[]|[]| |[] my ey], z as [[]|[]| |[] mz ez];
    simpl; try done; intros Hxy Hyz; compare_cases.
Qed.

Lemma SFleb_total (x y : spec_float) :
  x ≠ S754_nan → y ≠ S754_nan → SFltb x y = false → SFleb y x = true.
Proof.
  unfold SFleb, SFltb.
  destruct x as [[]|[]| |[] mx ex], y as [[]|[]| |[] my ey];
    simpl; try done; intros _ _ Hxy; compare_cases.
Qed.

Lemma SFltb_SFleb (x y : spec_float) : SFltb x y = true → SFleb x y = true.
Proof. unfold SFleb, SFltb. by destruct (SFcompare x y) as [[]|]. Qed.

Lemma ge_number (x y : float) : Py.ge x y = true → is_number x ∧ is_number y.
Proof.
  unfold Py.ge, is_number. rewrite leb_spec. intros H.
  by destruct (SFleb_number _ _ H).
Qed.

Lemma ge_trans (x y z : float) :
  Py.ge x y = true → Py.ge y z = true → Py.ge x z = true.
Proof.
  unfold Py.ge. rewrite !leb_spec. intros Hxy Hyz. by eapply SFleb_trans.
Qed.

Lemma not_lt_ge (x y : float) :
  is_number x → is_number y → PrimFloat.ltb x y = false → Py.ge x y = true.
Proof.
  unfold Py.ge, is_number. rewrite leb_spec, ltb_spec. apply SFleb_total.
Qed.

Lemma lt_ge (x y : float) : PrimFloat.ltb x y = true → Py.ge y x = true.
Proof. unfold Py.ge. rewrite leb_spec, ltb_spec. apply SFltb_SFleb. Qed.

Lemma sort_by_score_sorted (l : list Recommendation.t) :
  Forall (λ r, is_number (Recommendation.score r)) l →
  StronglySorted score_ge (sort_by_score l).
Proof.
  unfold sort_by_score. induction 1 as [|x l Hx Hl IH]; simpl; [constructor|].
  assert (Forall (λ r, is_number (Recommendation.score r))
            (Py.stable_sort
               (λ y x, PrimFloat.ltb (Recommendation.score x) (Recommendation.score y))
               l)) as Hnum.
  { apply Forall_forall. intros r Hr. apply elem_of_stable_sort in Hr.
    by eapply Forall_forall in Hl. }
  revert IH Hnum. generalize (Py.stable_sort
    (λ y x, PrimFloat.ltb (Recommendation.score x) (Recommendation.score y)) l).
  intros s Hs Hnum. induction Hs as [|y s Hs IH Hy]; simpl.
  - repeat constructor.
  - apply Forall_cons in Hnum as [Hynum Hnum].
    destruct (PrimFloat.ltb (Recommendation.score x) (Recommendation.score y)) eqn:Hlt.
    + constructor; [by apply IH|].
      apply Forall_forall. intros r Hr. apply elem_of_insert_stable in Hr as [->|Hr].
      * by apply lt_ge.
      * by eapply Forall_forall in Hy.
    + assert (score_ge x y) as Hxy by by apply not_lt_ge.
      constructor; [by constructor|]. constructor; [done|].
      eapply Forall_impl; [apply Hy|]. intros r Hr. by eapply ge_trans.
Qed.

Lemma kept_numbers (st : Store.t) (u : Profile.t) (min_score : float)
    (cands : list Profile.t) :
  Forall (λ r, is_number (Recommendation.score r))
    (omap (recommend st u min_score) cands).
Proof.
  apply Forall_forall. intros r Hr.
  apply list_elem_of_omap in Hr as (c & _ & Hc).
  apply recommend_Some in Hc as (_ & _ & _ & Hge).
  by destruct (ge_number _ _ Hge).
Qed.

(** X27.  The entries come back by decreasing score: of any two entries of
    the list returned, the earlier one has a score at least as high as the
    later one, whatever [limit] and [min_score] are. *)
Theorem generated_sorted (st : Store.t) (u : Profile.t) (limit : Z)
    (min_score : float) :
  ∃ recs,
    generate_recommendations_for_user st u limit min_score = Ok recs
    ∧ StronglySorted score_ge recs.
Proof.
  eexists. split; [apply generate_recommendations_for_user_eq|].
  pose proof (sort_by_score_sorted _ (kept_numbers st u min_score (candidates st u)))
    as Hsorted.
  unfold Py.slice_to.
  destruct (0 <=? limit);
    (eapply StronglySorted_app_1_l; erewrite take_drop; exact Hsorted).
Qed.

(** X28.  The cut keeps the best: for a non-negative [limit], a candidate
    that passed the threshold and is left out of the list scores no higher
    than any entry of the list. *)
Theorem generated_best (st : Store.t) (u c : Profile.t) (limit : Z)
    (min_score : float) (r : Recommendation.t) :
  0 ≤ limit →
  c ∈ candidates st u →
  recommend st u min_score c = Some r →
  ∃ recs,
    generate_recommendations_for_user st u limit min_score = Ok recs
    ∧ (r ∉ recs → ∀ r', r' ∈ recs → score_ge r' r).
Proof.
  intros Hlimit Hc Hr. eexists.
  split; [apply generate_recommendations_for_user_eq|].
  pose proof (sort_by_score_sorted _ (kept_numbers st u min_score (candidates st u)))
    as Hsorted.
  set (sorted := sort_by_score _) in *.
  assert (r ∈ sorted) as Hin.
  { apply elem_of_stable_sort, list_elem_of_omap. by exists c. }
  unfold Py.slice_to. rewrite (proj2 (Z.leb_le 0 limit) Hlimit).
  intros Hout r' Hr'.
  rewrite <- (take_drop (Z.to_nat limit) sorted) in Hsorted, Hin.
  apply elem_of_app in Hin as [Hin|Hin]; [done|].
  by eapply StronglySorted_app_1_elem_of.
Qed.

Lemma generated_best_witness :
  ∃ r recs,
    recommend Scenario.cached Scenario.A 0.1%float Scenario.Z' = Some r
    ∧ generate_recommendations_for_user Scenario.cached Scenario.A 1 0.1%float
      = Ok recs
    ∧ (r ∉ recs → ∀ r', r' ∈ recs → score_ge r' r).
Proof.
  assert (∃ r, recommend Scenario.cached Scenario.A 0.1%float Scenario.Z' = Some r)
    as [r Hr] by (vm_compute; eauto).
  destruct (generated_best Scenario.cached Scenario.A Scenario.Z' 1 0.1%float r)
    as (recs & Hrecs & Hbest); [done| |done|by exists r, recs].
  apply elem_of_candidates. split_and!; [|done| |done].
  - unfold Scenario.cached. simpl. set_solver.
  - rewrite <- elem_of_followees. vm_compute. set_solver.
Defined.

End ranking_order.

(** ** The sign of the score *)

Section score_sign.

Import RecommendationService.

Lemma size_union_le `{Countable K} (X Y : gset K) : (size (X ∪ Y) ≤ size X + size Y)%nat.
Proof.
  rewrite (size_union_alt (C:=gset K) X Y).
  pose proof (subseteq_size (C:=gset K) (Y ∖ X) Y ltac:(set_solver)). lia.
Qed.

Lemma size_list_to_set_le `{Countable K} (l : list K) :
  (size (list_to_set l : gset K) ≤ length l)%nat.
Proof.
  induction l as [|x l IH].
  - change (size (∅ : gset K) ≤ 0)%nat. by rewrite size_empty.
  - change (size ({[x]} ∪ list_to_set l : gset K) ≤ S (length l))%nat.
    pose proof (size_union_le {[x]} (list_to_set l : gset K)) as Hle.
    rewrite size_singleton in Hle. lia.
Qed.

Lemma length_split (sep : ascii) (s : string) :
  (length (Py.split sep s) ≤ String.length s + 1)%nat.
Proof.
  induction s as [|c s IH]; simpl; [lia|].
  destruct (Ascii.eqb c sep); simpl; [lia|].
  destruct (Py.split sep s); simpl in *; lia.
Qed.

Lemma length_findall_words_from (s : string) : ∀ cur,
  (length (Py.findall_words_from cur s) ≤ String.length s + 1)%nat.
Proof.
  induction s as [|c s IH]; intros cur; simpl.
  - destruct cur; simpl; lia.
  - destruct (Py.is_word_char c); [specialize (IH (cur +:+ String c "")); lia|].
    specialize (IH ""). destruct cur; simpl; lia.
Qed.

Lemma size_combined_interests (p : Profile.t) :
  (size (combined_interests p)
   ≤ String.length (Profile.interests p) + String.length (Profile.bio p) + 2)%nat.
Proof.
  unfold combined_interests.
  rewrite get_interests_list_eq, get_bio_keywords_eq.
  set (li := filter _ (clean <$> _)). set (lb := filter meaningful _).
  pose proof (size_union_le (list_to_set li) (list_to_set lb)) as Hu.
  pose proof (size_list_to_set_le li) as Hi.
  pose proof (size_list_to_set_le lb) as Hb.
  pose proof (length_filter (λ s, s ≠ "") (clean <$> Py.split "," (Profile.interests p)))
    as Hfi.
  rewrite length_fmap in Hfi.
  pose proof (length_split "," (Profile.interests p)) as Hsp.
  pose proof (length_filter meaningful (Py.findall_words (Py.lower (Profile.bio p))))
    as Hfb.
  pose proof (length_findall_words_from (Py.lower (Profile.bio p)) "") as Hw.
  rewrite lower_length in Hw. subst li lb. unfold Py.findall_words in *. lia.
Qed.

Lemma float_of_int_nonneg (n : Z) : 0 ≤ n → nonneg (Py.float_of_int n).
Proof.
  intros Hn. unfold nonneg, Py.float_of_int.
  rewrite (proj2 (Z.ltb_ge n 0) Hn), of_uint63_spec.
  apply binary_normalize_nonneg.
  pose proof (Uint63.to_Z_bounded (Uint63.of_Z n)). lia.
Qed.

Lemma float_of_int_positive (n : Z) :
  0 < n < 2 ^ 53 →
  ∃ m e, Prim2SF (Py.float_of_int n) = S754_finite false m e.
Proof.
  intros Hn. unfold Py.float_of_int.
  rewrite (proj2 (Z.ltb_ge n 0)) by lia.
  rewrite of_uint63_spec, Uint63.of_Z_spec, Z.mod_small.
  - destruct n as [|p|p]; [lia| |lia]. apply binary_normalize_small. lia.
  - change Uint63.wB with (2 ^ 63). lia.
Qed.

Lemma nonneg_div (x y : float) (m : positive) (e : Z) :
  nonneg x → Prim2SF y = S754_finite false m e → nonneg (x / y)%float.
Proof.
  unfold nonneg. rewrite div_spec. intros Hx ->. by apply SFdiv_nonneg.
Qed.

Lemma nonneg_mul (x y : float) (m : positive) (e : Z) :
  nonneg x → Prim2SF y = S754_finite false m e → nonneg (x * y)%float.
Proof.
  unfold nonneg. rewrite mul_spec. intros Hx ->. by apply SFmul_nonneg.
Qed.

Lemma nonneg_add (x y : float) : nonneg x → nonneg y → nonneg (x + y)%float.
Proof. unfold nonneg. rewrite add_spec. apply SFadd_nonneg. Qed.

Lemma nonneg_min (x y : float) : nonneg x → nonneg y → nonneg (Py.min x y).
Proof. unfold Py.min. by destruct (PrimFloat.ltb y x). Qed.

Lemma nonneg_ge (x : float) : nonneg x ↔ Py.ge x 0.0 = true.
Proof.
  unfold nonneg, Py.ge. rewrite leb_spec.
  change (Prim2SF 0.0) with (S754_zero false).
  destruct (Prim2SF x) as [s|[]| |[] m e]; simpl; try done.
Qed.

Lemma nonneg_capped (n : Z) (y : float) (m : positive) (e : Z) :
  0 ≤ n → Prim2SF y = S754_finite false m e →
  nonneg (Py.min (Py.int_div_float n y) 1.0).
Proof.
  intros Hn Hy. apply nonneg_min; [|by apply nonneg_ge].
  eapply nonneg_div; [by apply float_of_int_nonneg|done].
Qed.

Lemma jaccard_nonneg (a b : Profile.t) :
  within_max_length a → within_max_length b → nonneg (jaccard a b).
Proof.
  intros [Hai Hab] [Hbi Hbb]. unfold jaccard.
  destruct (decide _) as [|Hne]; [by apply nonneg_ge|].
  set (A := combined_interests a) in *. set (B := combined_interests b) in *.
  pose proof (size_combined_interests a) as Ha.
  pose proof (size_combined_interests b) as Hb.
  pose proof (size_union_le A B) as Hu. fold A in Ha. fold B in Hb.
  assert (size (A ∪ B) ≠ 0%nat) as Hpos.
  { rewrite size_empty_iff. intros Hempty. apply Hne. left.
    apply leibniz_equiv. set_solver. }
  destruct (float_of_int_positive (Z.of_nat (size (A ∪ B)))) as (m & e & Hme); [lia|].
  eapply nonneg_div; [|done]. apply float_of_int_nonneg. lia.
Qed.

Lemma score_nonneg (st : Store.t) (a b : Profile.t) :
  within_max_length a → within_max_length b →
  nonneg (Py.min (Py.int_div_float (mutual_count st a b) 5.0) 1.0 * 0.4
          + jaccard a b * 0.4
          + Py.min (Py.int_div_float (activity_overlap st a b) 10.0) 1.0 * 0.2)%float.
Proof.
  intros Ha Hb. repeat apply nonneg_add.
  - eapply nonneg_mul; [|reflexivity].
    eapply nonneg_capped; [unfold mutual_count; lia|reflexivity].
  - eapply nonneg_mul; [by apply jaccard_nonneg|reflexivity].
  - eapply nonneg_mul; [|reflexivity].
    eapply nonneg_capped; [unfold activity_overlap; lia|reflexivity].
Qed.

(** X29.  The score of two profiles whose text fields fit their columns is
    a number and is not negative. *)
Theorem score_not_negative (st : Store.t) (a b : Profile.t) :
  within_max_length a → within_max_length b →
  ∃ score_data,
    calculate_recommendation_score st a b = Ok score_data
    ∧ Py.ge (ScoreData.total_score score_data) 0.0 = true.
Proof.
  intros Ha Hb. eexists. split; [apply calculate_recommendation_score_eq|].
  simpl. by apply nonneg_ge, score_nonneg.
Qed.

Lemma score_not_negative_witness :
  ∃ score_data,
    calculate_recommendation_score Scenario.follows Scenario.photographer
      Scenario.traveller = Ok score_data
    ∧ Py.ge (ScoreData.total_score score_data) 0.0 = true.
Proof.
  apply (score_not_negative Scenario.follows Scenario.photographer Scenario.traveller);
    split; simpl; lia.
Defined.

(** X30.  A threshold of zero discards nobody: when the text fields of all
    profiles fit their columns, every candidate gets an entry, and the list
    returned has [limit] entries or all of them. *)
Theorem zero_threshold_keeps_all (st : Store.t) (u : Profile.t) (limit : Z) :
  0 ≤ limit →
  within_max_length u →
  (∀ p, p ∈ Store.profiles st → within_max_length p) →
  ∃ recs,
    generate_recommendations_for_user st u limit 0.0 = Ok recs
    ∧ Z.of_nat (length recs) = Z.min limit (Z.of_nat (length (candidates st u)))
    ∧ (Z.of_nat (length (candidates st u)) ≤ limit →
       ∀ c, c ∈ candidates st u → c ∈ Recommendation.recommended_user <$> recs).
Proof.
  intros Hlimit Hu Hall. eexists.
  split; [apply generate_recommendations_for_user_eq|].
  assert (∀ c, c ∈ candidates st u → ∃ r, recommend st u 0.0 c = Some r
            ∧ Recommendation.recommended_user r = c) as Hkept.
  { intros c Hc. apply elem_of_candidates in Hc as (Hc & _).
    unfold recommend. rewrite calculate_recommendation_score_eq. simpl.
    rewrite (proj1 (nonneg_ge _) (score_nonneg st u c Hu (Hall c Hc))). eauto. }
  assert (length (omap (recommend st u 0.0) (candidates st u))
          = length (candidates st u)) as Hlen.
  { revert Hkept. generalize (candidates st u). intros l Hl. unfold omap.
    induction l as [|c l IH]; simpl; [done|].
    destruct (Hl c) as (r & -> & _); [apply list_elem_of_here|]. simpl.
    rewrite IH; [done|]. intros c' Hc'. apply Hl. by apply list_elem_of_further. }
  split.
  - rewrite length_slice_to, (proj2 (Z.leb_le 0 limit) Hlimit).
    unfold sort_by_score. by rewrite length_stable_sort, Hlen.
  - intros Hfew c Hc. destruct (Hkept c Hc) as (r & Hr & <-).
    apply list_elem_of_fmap. exists r. split; [done|].
    rewrite slice_to_all.
    + apply elem_of_stable_sort, list_elem_of_omap. eauto.
    + unfold sort_by_score. rewrite length_stable_sort, Hlen. lia.
Qed.

Lemma zero_threshold_keeps_all_witness :
  ∃ recs,
    generate_recommendations_for_user Scenario.follows Scenario.A 10 0.0 = Ok recs
    ∧ Z.of_nat (length recs)
      = Z.min 10 (Z.of_nat (length (candidates Scenario.follows Scenario.A))).
Proof.
  destruct (zero_threshold_keeps_all Scenario.follows Scenario.A 10)
    as (recs & Hrecs & Hlen & _); [lia|split; simpl; lia| |by exists recs].
  intros p Hp. unfold Scenario.follows in Hp. simpl in Hp.
  repeat (apply elem_of_cons in Hp as [->|Hp]; [split; simpl; lia|]).
  by apply elem_of_nil in Hp.
Defined.

End score_sign.
